(** * Audium: the resilient orchestration core

    A shallow embedding of the error classifier and retry controller
    ([src/lib/error-handler.ts]), the chunk planners, the provider fallback
    chain and the ElevenLabs / Azure synthesis paths
    ([src/lib/enhanced-tts.ts], [src/lib/realistic-voice.ts]) and the
    parameter clamping of the TTS route, with the properties the
    specification states about them. *)

From Stdlib Require Import String Ascii Strings.Byte DecimalString.
From Stdlib Require Import List ZArith NArith QArith Qminmax Qround Bool Lia Lqa.
From Stdlib Require Import Permutation Sorted.
Import ListNotations.

(* ===================================================================== *)
(** * JavaScript values *)
(* ===================================================================== *)

(** A JavaScript string is the sequence of its UTF-16 code units; [length]
    of the list is the string's [.length]. *)
Definition jstring := list N.

(** String literals of the source (all of them ASCII). *)
Definition lit (s : string) : jstring := map N_of_ascii (list_ascii_of_string s).

Definition jstring_eqb (a b : jstring) : bool :=
  if list_eq_dec N.eq_dec a b then true else false.

(** [s.startsWith(needle)] and [s.includes(needle)]. *)
Fixpoint startsWith (s needle : jstring) : bool :=
  match needle, s with
  | [], _ => true
  | _ :: _, [] => false
  | n :: needle', c :: s' => N.eqb n c && startsWith s' needle'
  end.

Fixpoint includes (s needle : jstring) : bool :=
  startsWith s needle ||
  match s with
  | [] => false
  | _ :: s' => includes s' needle
  end.

(** The characters [String.prototype.trim] strips and the regular
    expression class [\s] matches: WhiteSpace and LineTerminator. *)
Definition isWhite (c : N) : bool :=
  ((9 <=? c) && (c <=? 13) || (c =? 32) || (c =? 160) || (c =? 5760)
   || (8192 <=? c) && (c <=? 8202) || (c =? 8232) || (c =? 8233)
   || (c =? 8239) || (c =? 8287) || (c =? 12288) || (c =? 65279))%N.

Fixpoint dropWhile (p : N -> bool) (s : jstring) : jstring :=
  match s with
  | [] => []
  | c :: s' => if p c then dropWhile p s' else s
  end.

Definition trimStart (s : jstring) : jstring := dropWhile isWhite s.
Definition trimEnd (s : jstring) : jstring := rev (dropWhile isWhite (rev s)).
Definition trim (s : jstring) : jstring := trimEnd (trimStart s).

(** Truthiness of a string: non-empty. *)
Definition truthy (s : jstring) : bool :=
  match s with [] => false | _ :: _ => true end.

(** JavaScript numbers, with the doubles idealised as rationals: the
    properties below use only comparisons and exact products. *)
Inductive JsNum : Type :=
| NaN
| NegInf
| Fin (q : Q)
| PosInf.

(** Primitive values: what a JSON body or a context object carries. *)
Inductive JsValue : Type :=
| JUndefined
| JNull
| JBool (b : bool)
| JNumber (n : JsNum)
| JString (s : jstring).

(** A plain object ([Record<string, any>]) keeps its keys in insertion
    order; writing an existing key keeps the key's position. *)
Definition JsObject := list (jstring * JsValue).

Fixpoint objSet (k : jstring) (v : JsValue) (o : JsObject) : JsObject :=
  match o with
  | [] => [(k, v)]
  | (k', v') :: o' =>
      if jstring_eqb k' k then (k', v) :: o' else (k', v') :: objSet k v o'
  end.

Fixpoint objGet (k : jstring) (o : JsObject) : JsValue :=
  match o with
  | [] => JUndefined
  | (k', v') :: o' => if jstring_eqb k' k then v' else objGet k o'
  end.

(** An [Error] as the handler reads it: [message] and [stack]. *)
Record Error : Type := mkError {
  message : jstring;
  stack : option jstring
}.

Definition optString (s : option jstring) : JsValue :=
  match s with
  | Some s => JString s
  | None => JUndefined
  end.

(** Results of code that may throw. *)
Inductive Res (A : Type) : Type :=
| Ok (a : A)
| Throw (e : Error).
Arguments Ok {A} a.
Arguments Throw {A} e.

Definition bind {A B : Type} (r : Res A) (k : A -> Res B) : Res B :=
  match r with
  | Ok a => k a
  | Throw e => Throw e
  end.

Notation "'let*' x ':=' r 'in' k" := (bind r (fun x => k))
  (at level 10, x name, r at level 100, k at level 200).

(* ===================================================================== *)
(** * Error classifier ([RobustErrorHandler.categorizeError]) *)
(* ===================================================================== *)

Inductive Severity : Type := low | medium | high | critical.

Module ErrorInfo.
Record t : Type := mk {
    code : jstring;
    message : jstring;
    severity : Severity;
    context : JsObject;
    suggestion : jstring;
    retryable : bool;
    timestamp : jstring
  }.
End ErrorInfo.

Notation "m 'has' s" := (includes m (lit s)) (at level 30, no associativity).

(** [timestamp] is the reading of [new Date().toISOString()]. *)
Definition categorizeError (error : Error) (context : JsObject) (timestamp : jstring)
  : ErrorInfo.t :=
  let m := message error in
  let ctx := objSet (lit "originalError") (JString m) context in
  (* Network and connectivity errors *)
  if m has "fetch" || m has "network" || m has "ECONNREFUSED" then
    ErrorInfo.mk (lit "NETWORK_ERROR") (lit "Network connectivity issue") medium ctx
      (lit "Check internet connection and try again") true timestamp
  (* Rate limiting errors *)
  else if m has "rate limit" || m has "429" || m has "quota" then
    ErrorInfo.mk (lit "RATE_LIMIT") (lit "API rate limit exceeded") medium ctx
      (lit "Wait before making more requests or upgrade your API plan") true timestamp
  (* Authentication errors *)
  else if m has "auth" || m has "401" || m has "API_KEY" then
    ErrorInfo.mk (lit "AUTH_ERROR") (lit "Authentication failed") high ctx
      (lit "Check API keys and credentials") false timestamp
  (* Timeout errors *)
  else if m has "timeout" || m has "ETIMEDOUT" then
    ErrorInfo.mk (lit "TIMEOUT") (lit "Operation timed out") medium ctx
      (lit "Try again with a longer timeout or simpler request") true timestamp
  (* Service unavailable *)
  else if m has "503" || m has "502" || m has "504" then
    ErrorInfo.mk (lit "SERVICE_UNAVAILABLE") (lit "Service temporarily unavailable") medium ctx
      (lit "The service is experiencing issues. Try again later") true timestamp
  (* Content policy violations *)
  else if m has "content policy" || m has "safety" || m has "blocked" then
    ErrorInfo.mk (lit "CONTENT_POLICY") (lit "Content violates service policies") medium ctx
      (lit "Modify your content to comply with service policies") false timestamp
  (* Validation errors *)
  else if m has "validation" || m has "invalid" || m has "400" then
    ErrorInfo.mk (lit "VALIDATION_ERROR") (lit "Invalid input or parameters") low ctx
      (lit "Check your input parameters and try again") false timestamp
  (* Browser/Playwright specific errors *)
  else if m has "playwright" || m has "browser" || m has "page" then
    ErrorInfo.mk (lit "BROWSER_ERROR") (lit "Browser automation error") medium ctx
      (lit "The website may be blocking automated access. Try a different approach")
      true timestamp
  (* File system errors *)
  else if m has "ENOENT" || m has "EACCES" || m has "file" then
    ErrorInfo.mk (lit "FILE_SYSTEM_ERROR") (lit "File system operation failed") medium ctx
      (lit "Check file permissions and disk space") false timestamp
  (* Generic server errors *)
  else if m has "500" || m has "internal" then
    ErrorInfo.mk (lit "INTERNAL_SERVER_ERROR") (lit "Internal server error") high ctx
      (lit "This is a server-side issue. Please try again later") true timestamp
  (* Unknown errors *)
  else
    ErrorInfo.mk (lit "UNKNOWN_ERROR")
      (if truthy m then m else lit "An unknown error occurred") medium
      (objSet (lit "stack") (optString (stack error)) ctx)
      (lit "Please try again or contact support if the issue persists") false timestamp.

(** The eleven codes the classifier returns, split by the [retryable] flag
    it sets with each. *)
Definition retryableCodes : list jstring :=
  [lit "NETWORK_ERROR"; lit "RATE_LIMIT"; lit "TIMEOUT"; lit "SERVICE_UNAVAILABLE";
   lit "BROWSER_ERROR"; lit "INTERNAL_SERVER_ERROR"].

Definition nonRetryableCodes : list jstring :=
  [lit "AUTH_ERROR"; lit "CONTENT_POLICY"; lit "VALIDATION_ERROR";
   lit "FILE_SYSTEM_ERROR"; lit "UNKNOWN_ERROR"].

(** No rule of the ordered table matches the message. *)
Definition noRuleMatches (m : jstring) : Prop :=
  forall s, In s ["fetch"; "network"; "ECONNREFUSED"; "rate limit"; "429"; "quota";
                  "auth"; "401"; "API_KEY"; "timeout"; "ETIMEDOUT"; "503"; "502"; "504";
                  "content policy"; "safety"; "blocked"; "validation"; "invalid"; "400";
                  "playwright"; "browser"; "page"; "ENOENT"; "EACCES"; "file";
                  "500"; "internal"]%string ->
            m has s = false.

(* ===================================================================== *)
(** * Retry controller ([RobustErrorHandler.executeWithRetry]) *)
(* ===================================================================== *)

Record RetryConfig : Type := mkRetryConfig {
  maxRetries : Z;
  baseDelay : Q;
  maxDelay : Q;
  exponentialBackoff : bool;
  retryableErrors : list jstring
}.

(** [Partial<RetryConfig>]: the keys a caller may leave out. *)
Record PartialRetryConfig : Type := mkPartialRetryConfig {
  maxRetries_opt : option Z;
  baseDelay_opt : option Q;
  maxDelay_opt : option Q;
  exponentialBackoff_opt : option bool;
  retryableErrors_opt : option (list jstring)
}.

Definition noCustomConfig : PartialRetryConfig :=
  mkPartialRetryConfig None None None None None.

Definition defaultRetryConfig : RetryConfig :=
  {| maxRetries := 3;
     baseDelay := 1000;
     maxDelay := 10000;
     exponentialBackoff := true;
     retryableErrors :=
       [lit "NETWORK_ERROR"; lit "RATE_LIMIT"; lit "TIMEOUT"; lit "SERVICE_UNAVAILABLE";
        lit "INTERNAL_SERVER_ERROR"] |}.

Definition orElse {A : Type} (o : option A) (d : A) : A :=
  match o with Some a => a | None => d end.

(** [{ ...this.retryConfig, ...customConfig }] *)
Definition mergeConfig (base : RetryConfig) (custom : PartialRetryConfig) : RetryConfig :=
  {| maxRetries := orElse (maxRetries_opt custom) (maxRetries base);
     baseDelay := orElse (baseDelay_opt custom) (baseDelay base);
     maxDelay := orElse (maxDelay_opt custom) (maxDelay base);
     exponentialBackoff := orElse (exponentialBackoff_opt custom) (exponentialBackoff base);
     retryableErrors := orElse (retryableErrors_opt custom) (retryableErrors base) |}.

(** The error [enhanceError] builds and [executeWithRetry] throws. *)
Record EnhancedError : Type := mkEnhancedError {
  enhanced_message : jstring;
  enhanced_name : jstring;
  enhanced_stack : option jstring;
  errorInfo : ErrorInfo.t;
  enhanced_severity : Severity;
  enhanced_suggestion : jstring;
  enhanced_retryable : bool
}.

Definition enhanceError (originalError : Error) (info : ErrorInfo.t) : EnhancedError :=
  {| enhanced_message := ErrorInfo.message info;
     enhanced_name := ErrorInfo.code info;
     enhanced_stack := stack originalError;
     errorInfo := info;
     enhanced_severity := ErrorInfo.severity info;
     enhanced_suggestion := ErrorInfo.suggestion info;
     enhanced_retryable := ErrorInfo.retryable info |}.

(** [random] is the reading of [Math.random()]. *)
Definition calculateDelay (attempt : nat) (config : RetryConfig) (random : Q) : Q :=
  if negb (exponentialBackoff config) then baseDelay config
  else
    let exponentialDelay := baseDelay config * inject_Z (2 ^ Z.of_nat attempt) in
    let jitter := random * (1 # 10) * exponentialDelay in
    Qmin (exponentialDelay + jitter) (maxDelay config).

(** [errorLog.slice(-n)]: the last [n] entries. *)
Definition lastN {A : Type} (n : nat) (l : list A) : list A :=
  skipn (length l - n) l.

(** [logError]: append, keeping the last 100 entries. *)
Definition logError (errorLog : list ErrorInfo.t) (info : ErrorInfo.t) : list ErrorInfo.t :=
  let pushed := errorLog ++ [info] in
  if (100 <? length pushed)%nat then lastN 100 pushed else pushed.

(** How a call of [executeWithRetry] ends: the operation's value, the
    enhanced error thrown inside the loop, or [throw lastError] after it. *)
Inductive RetryOutcome (T : Type) : Type :=
| Returned (v : T)
| Failed (e : EnhancedError)
| FailedLast (lastError : option Error).
Arguments Returned {T} v.
Arguments Failed {T} e.
Arguments FailedLast {T} lastError.

(** What one call did: its outcome, how many times it invoked the
    operation, the delays it slept (in order) and the error log after it. *)
Record RetryRun (T : Type) : Type := mkRetryRun {
  outcome : RetryOutcome T;
  attempts : nat;
  delays : list Q;
  errorLog : list ErrorInfo.t
}.
Arguments mkRetryRun {T} outcome attempts delays errorLog.
Arguments outcome {T} r.
Arguments attempts {T} r.
Arguments delays {T} r.
Arguments errorLog {T} r.

Section ExecuteWithRetry.
  Variable T : Type.
  (** [operation k] is what the [k]-th invocation (from 0) of the caller's
      operation does; [clock k] and [random k] are the readings of the
      clock at the [k]-th classified failure and of [Math.random()] at the
      [k]-th computed delay. *)
  Variable operation : nat -> Res T.
  Variable context : JsObject.
  Variable clock : nat -> jstring.
  Variable random : nat -> Q.
  Variable config : RetryConfig.

  (** The [for (attempt = 0; attempt <= config.maxRetries; attempt++)]
      loop; [remaining] counts the iterations the loop condition still
      admits, so it is 0 exactly when [attempt <= maxRetries] is false. *)
Fixpoint retryLoop (remaining attempt : nat) (log : list ErrorInfo.t)
      (lastError : option Error) (slept : list Q) : RetryRun T :=
    match remaining with
    | O => mkRetryRun (FailedLast lastError) attempt slept log
    | S remaining' =>
        match operation attempt with
        | Ok v => mkRetryRun (Returned v) (S attempt) slept log
        | Throw error =>
            let info := categorizeError error context (clock attempt) in
            let log' := logError log info in
            if (Z.of_nat attempt =? maxRetries config)%Z || negb (ErrorInfo.retryable info)
            then mkRetryRun (Failed (enhanceError error info)) (S attempt) slept log'
            else
              let delay := calculateDelay attempt config (random attempt) in
              retryLoop remaining' (S attempt) log' (Some error) (slept ++ [delay])
        end
    end.
End ExecuteWithRetry.
Arguments retryLoop {T} operation context clock random config
  remaining attempt log lastError slept.

Definition executeWithRetry {T : Type} (retryConfig : RetryConfig) (log : list ErrorInfo.t)
    (clock : nat -> jstring) (random : nat -> Q)
    (operation : nat -> Res T) (context : JsObject) (customConfig : PartialRetryConfig)
  : RetryRun T :=
  let config := mergeConfig retryConfig customConfig in
  retryLoop operation context clock random config
    (Z.to_nat (maxRetries config + 1)) 0 log None [].

(** The operation fails with a retryable classification at call [k]. *)
Definition failsRetryably {T : Type} (operation : nat -> Res T) (context : JsObject)
    (clock : nat -> jstring) (k : nat) : Prop :=
  exists error, operation k = Throw error /\
    ErrorInfo.retryable (categorizeError error context (clock k)) = true.

Definition isFailure {T : Type} (o : RetryOutcome T) : Prop :=
  match o with Returned _ => False | _ => True end.

(* ===================================================================== *)
(** * Provider fallback order ([EnhancedTTSEngine.getProviderFallbackOrder]) *)
(* ===================================================================== *)

(** Azure first, then ElevenLabs. *)
Definition availableProviders : list jstring := [lit "azure"; lit "elevenlabs"].

Definition getProviderFallbackOrder (preferredProvider : jstring) : list jstring :=
  if jstring_eqb preferredProvider (lit "auto") then
    availableProviders
  else if existsb (jstring_eqb preferredProvider) availableProviders then
    let others := filter (fun p => negb (jstring_eqb p preferredProvider)) availableProviders in
    preferredProvider :: others
  else
    availableProviders.

(* ===================================================================== *)
(** * Chunk planners ([splitScript], [splitEnhancedScript]) *)
(* ===================================================================== *)

(** The sentence terminators of both planners: [.], [!] and [?]. *)
Definition isTerminator (c : N) : bool := ((c =? 46) || (c =? 33) || (c =? 63))%N.

(** [script.match(/[^\.!?]+[\.!?]+/g)], as the scan the global match
    performs: a match is a maximal run of non-terminators followed by the
    maximal run of terminators after it. [cur] is the match in progress and
    [inTerms] says whether its terminators have begun. A terminator with no
    body before it starts no match, and a body the input ends in, with no
    terminator after it, completes none. *)
Fixpoint scanSentences (cur : jstring) (inTerms : bool) (s : jstring) : list jstring :=
  match s with
  | [] => if inTerms then [cur] else []
  | c :: s' =>
      if isTerminator c then
        match cur with
        | [] => scanSentences [] false s'
        | _ :: _ => scanSentences (cur ++ [c]) true s'
        end
      else if inTerms then cur :: scanSentences [c] false s'
      else scanSentences (cur ++ [c]) false s'
  end.

Definition matchSentences (script : jstring) : list jstring :=
  scanSentences [] false script.

(** [script.match(...) || [script]]: [match] gives [null] when nothing matches. *)
Definition sentencesOf (script : jstring) : list jstring :=
  match matchSentences script with
  | [] => [script]
  | sentences => sentences
  end.

(** One iteration of [splitScript]'s loop over the sentences. *)
Definition splitScriptStep (maxChunkLength : Z) (st : list jstring * jstring)
    (sentence : jstring) : list jstring * jstring :=
  let '(chunks, currentChunk) := st in
  if (Z.of_nat (length (currentChunk ++ sentence)) >? maxChunkLength)%Z
     && truthy currentChunk
  then (chunks ++ [trim currentChunk], sentence)
  else (chunks, currentChunk ++ lit " " ++ sentence).

Definition splitScript (script : jstring) (maxChunkLength : Z) : list jstring :=
  let '(chunks, currentChunk) :=
    fold_left (splitScriptStep maxChunkLength) (sentencesOf script) ([], []) in
  let chunks :=
    if truthy (trim currentChunk) then chunks ++ [trim currentChunk] else chunks in
  match chunks with
  | [] => [script]
  | _ :: _ => chunks
  end.

(** [script.split(/[.!?]+/)]: the pieces between the maximal runs of
    terminators, the empty pieces before a leading run and after a trailing
    one included. [inTerms] says whether the previous character was a
    terminator. *)
Fixpoint splitOnTerminators (s : jstring) (inTerms : bool) : list jstring :=
  match s with
  | [] => [[]]
  | c :: s' =>
      if isTerminator c then
        if inTerms then splitOnTerminators s' true
        else [] :: splitOnTerminators s' true
      else
        match splitOnTerminators s' false with
        | piece :: pieces => (c :: piece) :: pieces
        | [] => [[c]]
        end
  end.

(** One iteration of [splitEnhancedScript]'s loop. *)
Definition splitEnhancedStep (st : list jstring * jstring) (sentence : jstring)
  : list jstring * jstring :=
  let '(chunks, currentChunk) := st in
  if truthy (trim sentence) then
    if (500 <? length currentChunk + length sentence)%nat then
      (if truthy currentChunk then chunks ++ [trim currentChunk] else chunks, sentence)
    else
      (chunks, currentChunk ++ (if truthy currentChunk then lit ". " else []) ++ sentence)
  else st.

Definition splitEnhancedScript (script : jstring) : list jstring :=
  let sentences := splitOnTerminators script false in
  let '(chunks, currentChunk) := fold_left splitEnhancedStep sentences ([], []) in
  if truthy currentChunk then chunks ++ [trim currentChunk] else chunks.

(** Whitespace normalisation, at its most forgiving: all whitespace removed. *)
Definition withoutWhite (s : jstring) : jstring :=
  filter (fun c => negb (isWhite c)) s.

(** The text with whitespace and sentence terminators removed. *)
Definition withoutWhiteAndTerminators (s : jstring) : jstring :=
  filter (fun c => negb (isWhite c || isTerminator c)) s.

(** The text is made of whole sentences: it starts with a sentence body and
    ends with a terminator. *)
Definition wholeSentences (script : jstring) : Prop :=
  match script with
  | [] => False
  | c :: _ => isTerminator c = false
  end /\ isTerminator (last script 0%N) = true.

Definition noTerminator (script : jstring) : Prop :=
  forall c, In c script -> isTerminator c = false.


(* ===================================================================== *)
(** * Synthesis pipeline ([EnhancedTTSEngine], [RealisticVoiceMethods]) *)
(* ===================================================================== *)

(** A Node [Buffer]: its bytes. *)
Definition Buffer := list Byte.byte.

(** [Buffer.alloc(n)]: [n] zero bytes. *)
Definition Buffer_alloc (n : nat) : Buffer := repeat Byte.x00 n.

(** [Buffer.concat(list)] *)
Definition Buffer_concat (buffers : list Buffer) : Buffer := concat buffers.

(** A number in a template literal (a non-negative integer here). *)
Definition decimal (n : N) : jstring := lit (NilEmpty.string_of_uint (N.to_uint n)).

(** [s] between two double quotes (code unit 34). *)
Definition quoted (s : jstring) : jstring := [34%N] ++ s ++ [34%N].

(** An error the engine itself creates; its stack is not modelled. *)
Definition newError (msg : jstring) : Error := mkError msg None.

(** [TTSOptions]: every key is optional. *)
Record TTSOptions : Type := mkTTSOptions {
  voice_opt : option jstring;
  speed_opt : option JsNum;
  pitch_opt : option JsNum;
  volume_opt : option JsNum;
  provider_opt : option jstring;
  voiceStability_opt : option JsNum;
  voiceSimilarity_opt : option JsNum;
  style_opt : option jstring;
  emotion_opt : option jstring;
  language_opt : option jstring;
  enhanceAudio_opt : option bool;
  addMusic_opt : option bool;
  musicVolume_opt : option JsNum
}.

(** The [config] object [generateAudio] builds and hands to the providers:
    every key has a value. *)
Record TTSConfig : Type := mkTTSConfig {
  voice : jstring;
  speed : JsNum;
  pitch : JsNum;
  volume : JsNum;
  provider : jstring;
  voiceStability : JsNum;
  voiceSimilarity : JsNum;
  style : jstring;
  emotion : jstring;
  language : jstring;
  enhanceAudio : bool;
  addMusic : bool;
  musicVolume : JsNum
}.

(** [{ voice: options.voice || 'adam', ..., ...options }]: the trailing
    spread writes every key the caller supplied over the defaulted value,
    so a key keeps its default only when the caller left it out. *)
Definition buildConfig (options : TTSOptions) : TTSConfig :=
  {| voice := orElse (voice_opt options) (lit "adam");
     speed := orElse (speed_opt options) (Fin 1);
     pitch := orElse (pitch_opt options) (Fin 1);
     volume := orElse (volume_opt options) (Fin 1);
     provider := orElse (provider_opt options) (lit "azure");
     voiceStability := orElse (voiceStability_opt options) (Fin (1 # 2));
     voiceSimilarity := orElse (voiceSimilarity_opt options) (Fin (3 # 4));
     style := orElse (style_opt options) (lit "conversational");
     emotion := orElse (emotion_opt options) (lit "neutral");
     language := orElse (language_opt options) (lit "en-US");
     enhanceAudio := orElse (enhanceAudio_opt options) true;
     addMusic := orElse (addMusic_opt options) false;
     musicVolume := orElse (musicVolume_opt options) (Fin (3 # 10)) |}.

Record Metadata : Type := mkMetadata {
  generatedAt : jstring;
  processingTime : Z;
  chunks : option nat;
  audioQuality : jstring;
  realistic : option bool;
  voiceModulation : option bool;
  fallbackUsed : option bool;
  originalProvider : option jstring
}.

Record TTSResult : Type := mkTTSResult {
  success : bool;
  audioUrl : option jstring;
  duration : option N;
  format : jstring;
  size : option nat;
  result_provider : jstring;
  result_voice : jstring;
  enhancedAudio : option bool;
  error : option jstring;
  metadata : Metadata
}.

(** What a provider call leaves behind: the result it returns and the
    bytes it wrote to the file the result's [audioUrl] names. *)
Record Synthesis : Type := mkSynthesis {
  result : TTSResult;
  written : Buffer
}.

(** The [voice_settings] sent to ElevenLabs. *)
Record VoiceSettings : Type := mkVoiceSettings {
  stability : JsNum;
  similarity_boost : JsNum;
  settings_style : JsNum
}.

(** What [fetch] against the Azure endpoint gives: a response that is
    [ok] with its body, one that is not with its status and text, or a
    rejection. *)
Inductive AzureResponse : Type :=
| AzureOk (body : Buffer)
| AzureNotOk (status : N) (errorText : jstring)
| AzureRejected (e : Error).

(** The world outside the engine. The two synthesis services answer the
    [k]-th request of a call; [ffmpegRun] is the whole [try] block of
    [enhanceAudioForRealism] (write the input, run the filter graph, read
    the output, unlink both), [None] when any step of it throws. *)
Record World : Type := mkWorld {
  ELEVENLABS_API_KEY : option jstring;
  AZURE_SPEECH_KEY : option jstring;
  AZURE_SPEECH_REGION : option jstring;
  elevenlabsGenerate : nat -> jstring -> jstring -> VoiceSettings -> Res Buffer;
  azureFetch : nat -> jstring -> jstring -> jstring -> AzureResponse;
  ffmpeg : bool;
  ffmpegRun : Buffer -> option Buffer;
  dateNow : N;
  isoNow : jstring;
  elapsed : Z
}.

(** The pure helpers of the repository the properties below do not depend
    on: they hold for every such function. *)
Record Helpers : Type := mkHelpers {
  enhanceScriptForRealism : jstring -> jstring;
  getRealisticVoiceId : jstring -> jstring;
  getDynamicVoiceSettings : jstring -> nat -> TTSConfig -> VoiceSettings;
  estimateAudioDuration : jstring -> N
}.

(** [!!process.env.X]: set, and not the empty string. *)
Definition envSet (v : option jstring) : bool :=
  match v with
  | Some s => truthy s
  | None => false
  end.

(** [generateNaturalPause]: 1.5 s or 0.8 s of 16-bit silence at 44.1 kHz. *)
Definition generateNaturalPause (previousChunk : jstring) : Buffer :=
  let pauseDuration : Q := if includes previousChunk (lit "!") then 1500 else 800 in
  let sampleRate : Q := 44100 in
  let silenceSamples := Qfloor (sampleRate * (pauseDuration / 1000)) in
  Buffer_alloc (Z.to_nat (silenceSamples * 2)).

(** [enhanceAudioForRealism]: the filtered audio, or the buffer it was
    given when there is no ffmpeg or the filter pass throws (the [catch]
    removes the temporary files, which is taken to succeed, and returns
    [audioBuffer]). *)
Definition enhanceAudioForRealism (w : World) (audioBuffer : Buffer) (config : TTSConfig)
  : Buffer :=
  if negb (ffmpeg w) then audioBuffer
  else
    match ffmpegRun w audioBuffer with
    | Some enhancedBuffer => enhancedBuffer
    | None => audioBuffer
    end.

Definition voiceMapping : list (jstring * (jstring * jstring)) :=
  [(lit "adam", (lit "en-US-DavisNeural", lit "pNInz6obpgDQGcFmaJgB"));
   (lit "bella", (lit "en-US-JennyNeural", lit "EXAVITQu4vr4xnSDxMaL"));
   (lit "charlie", (lit "en-US-ChristopherNeural", lit "IKne3meq5aSn9XLyUdCD"));
   (lit "domi", (lit "en-US-AriaNeural", lit "AZnzlk1XvdvUeBnXmlld"));
   (lit "elli", (lit "en-US-SaraNeural", lit "MF3mGyEYCl7XYWbV9V6O"));
   (lit "fin", (lit "en-US-GuyNeural", lit "D38z5RcWu1voky8WS1ja"));
   (lit "freya", (lit "en-US-AmberNeural", lit "jsCqWAovK2LkecY7zXl4"));
   (lit "giovanni", (lit "en-US-TonyNeural", lit "zcAOhNBS3c14rBihAFp1"));
   (lit "josh", (lit "en-US-BrandonNeural", lit "TxGEqnHWrfWFTfGW9XjX"));
   (lit "liam", (lit "en-GB-RyanNeural", lit "TX3LPaxmHKxFdv7VOQHJ"));
   (lit "nicole", (lit "en-US-MonicaNeural", lit "piTKgcLEGmPE4e6mEKli"));
   (lit "rachel", (lit "en-US-AvaNeural", lit "21m00Tcm4TlvDq8ikWAM"));
   (lit "sam", (lit "en-US-JasonNeural", lit "yoZ06aMxZJJ28mfd3POQ"))].

Fixpoint lookupVoice (name : jstring) (table : list (jstring * (jstring * jstring)))
  : option (jstring * jstring) :=
  match table with
  | [] => None
  | (k, v) :: table' => if jstring_eqb k name then Some v else lookupVoice name table'
  end.

Definition withVoice (config : TTSConfig) (v : jstring) : TTSConfig :=
  {| voice := v; speed := speed config; pitch := pitch config; volume := volume config;
     provider := provider config; voiceStability := voiceStability config;
     voiceSimilarity := voiceSimilarity config; style := style config;
     emotion := emotion config; language := language config;
     enhanceAudio := enhanceAudio config; addMusic := addMusic config;
     musicVolume := musicVolume config |}.

Definition mapVoiceForProvider (config : TTSConfig) (provider : jstring) : TTSConfig :=
  match lookupVoice (voice config) voiceMapping with
  | Some (azureVoice, _) =>
      if jstring_eqb provider (lit "azure") then withVoice config azureVoice
      else config
  | None =>
      if jstring_eqb provider (lit "elevenlabs") then config
      else if jstring_eqb provider (lit "azure") then withVoice config (lit "en-US-DavisNeural")
      else config
  end.

Section Engine.
Variable h : Helpers.
Variable w : World.

Definition isProviderAvailable (provider : jstring) : bool :=
  if jstring_eqb provider (lit "elevenlabs") then envSet (ELEVENLABS_API_KEY w)
  else if jstring_eqb provider (lit "azure") then
    envSet (AZURE_SPEECH_KEY w) && envSet (AZURE_SPEECH_REGION w)
  else false.

(** The chunk loop of [generateWithElevenLabs]: [i] is the index of the
    next chunk, [n] is [enhancedChunks.length]. A failed chunk is rethrown. *)
Fixpoint synthesizeChunks (voiceId : jstring) (config : TTSConfig) (n i : nat)
    (enhancedChunks : list jstring) (audioBuffers : list Buffer) : Res (list Buffer) :=
  match enhancedChunks with
  | [] => Ok audioBuffers
  | chunk :: rest =>
      let dynamicSettings := getDynamicVoiceSettings h chunk i config in
      let* audioBuffer := elevenlabsGenerate w i voiceId chunk dynamicSettings in
      let audioBuffers := audioBuffers ++ [audioBuffer] in
      let audioBuffers :=
        if (i <? n - 1)%nat then audioBuffers ++ [generateNaturalPause chunk]
        else audioBuffers in
      synthesizeChunks voiceId config n (S i) rest audioBuffers
  end.

Definition generateWithElevenLabs (script : jstring) (chunks : list jstring)
    (config : TTSConfig) : Res Synthesis :=
  if negb (envSet (ELEVENLABS_API_KEY w)) then
    Throw (newError (lit "ElevenLabs not configured"))
  else
    let enhancedScript := enhanceScriptForRealism h script in
    let enhancedChunks := splitEnhancedScript enhancedScript in
    let voiceId := getRealisticVoiceId h (voice config) in
    let* audioBuffers :=
      synthesizeChunks voiceId config (length enhancedChunks) 0 enhancedChunks [] in
    let combinedBuffer := Buffer_concat audioBuffers in
    let fileName := lit "podcast-realistic-" ++ decimal (dateNow w) ++ lit ".mp3" in
    let finalBuffer :=
      if enhanceAudio config then enhanceAudioForRealism w combinedBuffer config
      else combinedBuffer in
    Ok {| result :=
            {| success := true;
               audioUrl := Some (lit "/temp/" ++ fileName);
               duration := Some (estimateAudioDuration h enhancedScript);
               format := lit "mp3";
               size := Some (length finalBuffer);
               result_provider := lit "elevenlabs";
               result_voice := voice config;
               enhancedAudio := Some (enhanceAudio config);
               error := None;
               metadata :=
                 {| generatedAt := isoNow w; processingTime := 0; chunks := None;
                    audioQuality := lit "premium"; realistic := Some true;
                    voiceModulation := Some true; fallbackUsed := None;
                    originalProvider := None |} |};
          written := finalBuffer |}.

(** The chunk loop of [generateWithAzure]. *)
Fixpoint azureChunks (region key : jstring) (config : TTSConfig) (i : nat)
    (chunks : list jstring) (audioBuffers : list Buffer) : Res (list Buffer) :=
  match chunks with
  | [] => Ok audioBuffers
  | chunk :: rest =>
      let ssml :=
        lit "<speak version=" ++ quoted (lit "1.0")
        ++ lit " xmlns=" ++ quoted (lit "http://www.w3.org/2001/10/synthesis")
        ++ lit " xml:lang=" ++ quoted (lit "en-US")
        ++ lit "><voice name=" ++ quoted (voice config) ++ lit ">"
        ++ chunk ++ lit "</voice></speak>" in
      match azureFetch w i region key ssml with
      | AzureRejected e => Throw e
      | AzureNotOk status errorText =>
          Throw (newError (lit "Azure TTS API error: " ++ decimal status
                           ++ lit " - " ++ errorText))
      | AzureOk audioBuffer =>
          azureChunks region key config (S i) rest (audioBuffers ++ [audioBuffer])
      end
  end.

(** [process.env.AZURE_SPEECH_KEY] and
    [process.env.AZURE_SPEECH_REGION || 'southeastasia']. *)
Definition azureKey : jstring := orElse (AZURE_SPEECH_KEY w) [].

Definition azureRegion : jstring :=
  if envSet (AZURE_SPEECH_REGION w) then orElse (AZURE_SPEECH_REGION w) []
  else lit "southeastasia".

Definition generateWithAzure (script : jstring) (chunks : list jstring)
    (config : TTSConfig) : Res Synthesis :=
  if negb (envSet (AZURE_SPEECH_KEY w)) then
    Throw (newError (lit "AZURE_SPEECH_KEY environment variable is required"))
  else
    let* audioBuffers := azureChunks azureRegion azureKey config 0 chunks [] in
    let combinedBuffer := Buffer_concat audioBuffers in
    let fileName := lit "podcast-azure-" ++ decimal (dateNow w) ++ lit ".mp3" in
    let finalBuffer :=
      if enhanceAudio config then enhanceAudioForRealism w combinedBuffer config
      else combinedBuffer in
    Ok {| result :=
            {| success := true;
               audioUrl := Some (lit "/temp/" ++ fileName);
               duration := Some (estimateAudioDuration h script);
               format := lit "mp3";
               size := Some (length finalBuffer);
               result_provider := lit "azure";
               result_voice := if truthy (voice config) then voice config else lit "default";
               enhancedAudio := Some (enhanceAudio config);
               error := None;
               metadata :=
                 {| generatedAt := isoNow w; processingTime := 0; chunks := None;
                    audioQuality := lit "premium"; realistic := Some true;
                    voiceModulation := Some true; fallbackUsed := None;
                    originalProvider := None |} |};
          written := finalBuffer |}.

Definition generateWithProvider (script : jstring) (chunks : list jstring)
    (provider : jstring) (config : TTSConfig) : Res Synthesis :=
  if jstring_eqb provider (lit "elevenlabs") then generateWithElevenLabs script chunks config
  else if jstring_eqb provider (lit "azure") then generateWithAzure script chunks config
  else Throw (newError (lit "Unsupported TTS provider: " ++ provider
                        ++ lit ". Only 'elevenlabs' and 'azure' are supported.")).

(** The [for (const provider of providers)] loop of [generateAudio]: the
    first provider whose result has [success], with the last error caught
    on the way. *)
Fixpoint tryProviders (processedScript : jstring) (chunks : list jstring)
    (config : TTSConfig) (providers : list jstring) (lastError : option Error)
  : option (jstring * Synthesis) * option Error :=
  match providers with
  | [] => (None, lastError)
  | provider :: rest =>
      if negb (isProviderAvailable provider) then
        tryProviders processedScript chunks config rest lastError
      else
        let mappedConfig := mapVoiceForProvider config provider in
        match generateWithProvider processedScript chunks provider mappedConfig with
        | Ok synthesis =>
            if success (result synthesis) then (Some (provider, synthesis), lastError)
            else tryProviders processedScript chunks config rest lastError
        | Throw e => tryProviders processedScript chunks config rest (Some e)
        end
  end.

(** [lastError?.message || 'All TTS providers failed'] *)
Definition failureMessage (lastError : option Error) : jstring :=
  match lastError with
  | Some e => if truthy (message e) then message e else lit "All TTS providers failed"
  | None => lit "All TTS providers failed"
  end.

(** What [generateAudio] returns, and the audio file it left (if any). *)
Definition generateAudio (script : jstring) (options : TTSOptions)
  : TTSResult * option Buffer :=
  let config := buildConfig options in
  let processedScript := enhanceScriptForRealism h script in
  let chunks := splitScript processedScript 4000 in
  let providers := getProviderFallbackOrder (provider config) in
  let originalProvider :=
    if jstring_eqb (provider config) (lit "auto") then lit "elevenlabs"
    else provider config in
  match tryProviders processedScript chunks config providers None with
  | (Some (provider, synthesis), _) =>
      let r := result synthesis in
      let fallbackUsed := negb (jstring_eqb provider originalProvider) in
      ({| success := success r;
          audioUrl := audioUrl r;
          duration := duration r;
          format := format r;
          size := size r;
          result_provider := result_provider r;
          result_voice := result_voice r;
          enhancedAudio := enhancedAudio r;
          error := error r;
          metadata :=
            {| generatedAt := generatedAt (metadata r);
               processingTime := elapsed w;
               chunks := Some (length chunks);
               audioQuality := audioQuality (metadata r);
               realistic := realistic (metadata r);
               voiceModulation := voiceModulation (metadata r);
               fallbackUsed := Some fallbackUsed;
               originalProvider := Some originalProvider |} |},
       Some (written synthesis))
  | (None, lastError) =>
      ({| success := false;
          audioUrl := None;
          duration := None;
          format := lit "none";
          size := None;
          result_provider := lit "none";
          result_voice := voice config;
          enhancedAudio := None;
          error := Some (failureMessage lastError);
          metadata :=
            {| generatedAt := isoNow w; processingTime := elapsed w; chunks := None;
               audioQuality := lit "standard"; realistic := None;
               voiceModulation := None; fallbackUsed := None;
               originalProvider := None |} |},
       None)
  end.
End Engine.

(** The segments of [n] chunks as the claim words them: each chunk's audio
    in order, one pause after every chunk but the last. *)
Fixpoint segmentsWithPauses (chunks : list jstring) (audio : list Buffer) : list Buffer :=
  match chunks, audio with
  | [_], [a] => [a]
  | chunk :: (_ :: _) as chunks', a :: audio' =>
      a :: generateNaturalPause chunk :: segmentsWithPauses chunks' audio'
  | _, _ => []
  end.

(** Every chunk is synthesized: request [i], for chunk [i], answers [audio i]. *)
Definition allSynthesized (h : Helpers) (w : World) (voiceId : jstring) (config : TTSConfig)
    (chunks : list jstring) (audio : nat -> Buffer) : Prop :=
  forall i chunk,
    nth_error chunks i = Some chunk ->
    elevenlabsGenerate w i voiceId chunk (getDynamicVoiceSettings h chunk i config)
    = Ok (audio i).


(** Stand-ins for the helpers, for the examples: the script and the voice
    name pass through unchanged. *)
Definition plainHelpers : Helpers :=
  {| enhanceScriptForRealism := fun script => script;
     getRealisticVoiceId := fun voiceName => voiceName;
     getDynamicVoiceSettings := fun _ _ config =>
       mkVoiceSettings (voiceStability config) (voiceSimilarity config) (Fin (1 # 2));
     estimateAudioDuration := fun _ => 1%N |}.

Definition noOptions : TTSOptions :=
  mkTTSOptions None None None None None None None None None None None None None.

(** A world in which only ElevenLabs is configured, every request is
    answered with the one byte [x01], and there is no ffmpeg. *)
Definition elevenlabsWorld : World :=
  {| ELEVENLABS_API_KEY := Some (lit "key");
     AZURE_SPEECH_KEY := None;
     AZURE_SPEECH_REGION := None;
     elevenlabsGenerate := fun _ _ _ _ => Ok [Byte.x01];
     azureFetch := fun _ _ _ _ => AzureNotOk 500 (lit "unused");
     ffmpeg := false;
     ffmpegRun := fun _ => None;
     dateNow := 1700000000000;
     isoNow := lit "2023-11-14T22:13:20.000Z";
     elapsed := 12 |}.

(** A world in which only Azure is configured and answers every request
    with status 503. *)
Definition azureDownWorld : World :=
  {| ELEVENLABS_API_KEY := None;
     AZURE_SPEECH_KEY := Some (lit "key");
     AZURE_SPEECH_REGION := Some (lit "westeurope");
     elevenlabsGenerate := fun _ _ _ _ => Ok [];
     azureFetch := fun _ _ _ _ => AzureNotOk 503 (lit "down");
     ffmpeg := true;
     ffmpegRun := fun _ => None;
     dateNow := 1700000000000;
     isoNow := lit "2023-11-14T22:13:20.000Z";
     elapsed := 12 |}.

(** A world in which only Azure is configured, answers every request with
    the one byte [x01], and the ffmpeg filter pass always fails. *)
Definition brokenFfmpegWorld : World :=
  {| ELEVENLABS_API_KEY := None;
     AZURE_SPEECH_KEY := Some (lit "key");
     AZURE_SPEECH_REGION := Some (lit "westeurope");
     elevenlabsGenerate := fun _ _ _ _ => Ok [];
     azureFetch := fun _ _ _ _ => AzureOk [Byte.x01];
     ffmpeg := true;
     ffmpegRun := fun _ => None;
     dateNow := 1700000000000;
     isoNow := lit "2023-11-14T22:13:20.000Z";
     elapsed := 12 |}.

(** The errors [generateAudio]'s loop catches, in order. *)
Fixpoint caughtErrors (h : Helpers) (w : World) (processedScript : jstring)
    (chunks : list jstring) (config : TTSConfig) (providers : list jstring) : list Error :=
  match providers with
  | [] => []
  | provider :: rest =>
      (if isProviderAvailable w provider then
         match generateWithProvider h w processedScript chunks provider
                 (mapVoiceForProvider config provider) with
         | Throw e => [e]
         | Ok _ => []
         end
       else [])
      ++ caughtErrors h w processedScript chunks config rest
  end.

(** A provider is skipped (not available) or its call throws. *)
Definition skippedOrThrows (h : Helpers) (w : World) (processedScript : jstring)
    (chunks : list jstring) (config : TTSConfig) (provider : jstring) : Prop :=
  isProviderAvailable w provider = false \/
  exists e, generateWithProvider h w processedScript chunks provider
              (mapVoiceForProvider config provider) = Throw e.


(** Two sentences of 300 characters, the first ending in an exclamation
    mark, the second in a period: [a...a!b...b.] *)
Definition twoLongSentences : jstring :=
  repeat 97%N 300 ++ lit "!" ++ repeat 98%N 300 ++ lit ".".


(** Provider [p], called by [generateAudio] with the mapped config,
    synthesizes every chunk it plans: [audioBuffers] is what its chunk loop
    collects. The ElevenLabs path plans its own chunks from the script it is
    given; the Azure path takes [generateAudio]'s chunks. *)
Definition synthesizesAll (h : Helpers) (w : World) (processedScript : jstring)
    (chunks : list jstring) (config : TTSConfig) (p : jstring)
    (audioBuffers : list Buffer) : Prop :=
  let mapped := mapVoiceForProvider config p in
  (p = lit "elevenlabs" /\
   let enhancedChunks :=
     splitEnhancedScript (enhanceScriptForRealism h processedScript) in
   synthesizeChunks h w (getRealisticVoiceId h (voice mapped)) mapped
     (length enhancedChunks) 0 enhancedChunks [] = Ok audioBuffers) \/
  (p = lit "azure" /\
   azureChunks w (azureRegion w) (azureKey w) mapped 0 chunks [] = Ok audioBuffers).


(* ===================================================================== *)
(** * TTS route: the clamped parameters ([POST /api/tts]) *)
(* ===================================================================== *)

(** [StringToNumber]: the value of a string under [ToNumber]. The string is
    trimmed; the empty string is 0; a literal is [0x], [0o] or [0b] digits,
    or an optionally signed [Infinity] or decimal literal with optional
    fraction and exponent; anything else is [NaN]. *)
Fixpoint span (p : N -> bool) (s : jstring) : jstring * jstring :=
  match s with
  | [] => ([], [])
  | c :: s' =>
      if p c then let '(taken, rest) := span p s' in (c :: taken, rest)
      else ([], s)
  end.

Definition isDigit (c : N) : bool := ((48 <=? c) && (c <=? 57))%N.

Definition hexValue (c : N) : option Z :=
  if isDigit c then Some (Z.of_N c - 48)%Z
  else if ((97 <=? c) && (c <=? 102))%N then Some (Z.of_N c - 87)%Z
  else if ((65 <=? c) && (c <=? 70))%N then Some (Z.of_N c - 55)%Z
  else None.

(** The digits of [s] in [base], when [s] is one digit or more of that base. *)
Definition digitsIn (base : Z) (s : jstring) : option Z :=
  match s with
  | [] => None
  | _ :: _ =>
      fold_left
        (fun acc c =>
           match acc, hexValue c with
           | Some n, Some d => if (d <? base)%Z then Some (n * base + d)%Z else None
           | _, _ => None
           end)
        s (Some 0%Z)
  end.

Definition parseExponent (s : jstring) : option Z :=
  let '(sign, digits) :=
    match s with
    | 43%N :: t => (1%Z, t)
    | 45%N :: t => ((-1)%Z, t)
    | _ => (1%Z, s)
    end in
  match digitsIn 10 digits with
  | Some e => Some (sign * e)%Z
  | None => None
  end.

Definition parseDecimal (s : jstring) : option Q :=
  let '(intDigits, rest) := span isDigit s in
  let '(fracDigits, rest) :=
    match rest with
    | 46%N :: t => span isDigit t
    | _ => ([], rest)
    end in
  match digitsIn 10 (intDigits ++ fracDigits) with
  | None => None
  | Some digits =>
      let mantissa := inject_Z digits / inject_Z (10 ^ Z.of_nat (length fracDigits)) in
      match rest with
      | [] => Some mantissa
      | c :: t =>
          if ((c =? 101) || (c =? 69))%N then
            match parseExponent t with
            | Some e => Some (mantissa * Qpower 10 e)
            | None => None
            end
          else None
      end
  end.

Definition ofOption (o : option Z) : JsNum :=
  match o with
  | Some n => Fin (inject_Z n)
  | None => NaN
  end.

Definition StringToNumber (s : jstring) : JsNum :=
  match trim s with
  | [] => Fin 0
  | 48%N :: 120%N :: t | 48%N :: 88%N :: t => ofOption (digitsIn 16 t)
  | 48%N :: 111%N :: t | 48%N :: 79%N :: t => ofOption (digitsIn 8 t)
  | 48%N :: 98%N :: t | 48%N :: 66%N :: t => ofOption (digitsIn 2 t)
  | 45%N :: t =>
      if jstring_eqb t (lit "Infinity") then NegInf
      else match parseDecimal t with Some q => Fin (- q) | None => NaN end
  | 43%N :: t =>
      if jstring_eqb t (lit "Infinity") then PosInf
      else match parseDecimal t with Some q => Fin q | None => NaN end
  | t =>
      if jstring_eqb t (lit "Infinity") then PosInf
      else match parseDecimal t with Some q => Fin q | None => NaN end
  end.

(** [ToNumber] on a primitive value. *)
Definition ToNumber (v : JsValue) : JsNum :=
  match v with
  | JUndefined => NaN
  | JNull => Fin 0
  | JBool b => if b then Fin 1 else Fin 0
  | JNumber n => n
  | JString s => StringToNumber s
  end.

(** [a <= b] on numbers; false when either is [NaN]. *)
Definition numLe (a b : JsNum) : bool :=
  match a, b with
  | NaN, _ | _, NaN => false
  | NegInf, _ => true
  | _, PosInf => true
  | Fin x, Fin y => Qle_bool x y
  | _, _ => false
  end.

(** [Math.min(a, b)] and [Math.max(a, b)]: [NaN] when either argument is. *)
Definition mathMin (a b : JsNum) : JsNum :=
  match a, b with
  | NaN, _ | _, NaN => NaN
  | _, _ => if numLe a b then a else b
  end.

Definition mathMax (a b : JsNum) : JsNum :=
  match a, b with
  | NaN, _ | _, NaN => NaN
  | _, _ => if numLe a b then b else a
  end.

(** A destructuring default: it applies when the key is absent. *)
Definition withDefault (v d : JsValue) : JsValue :=
  match v with
  | JUndefined => d
  | _ => v
  end.

(** The three numeric keys of the request body, as [request.json()] gives
    them ([JUndefined] for a key that is absent). *)
Record TTSBody : Type := mkTTSBody {
  body_speed : JsValue;
  body_voiceStability : JsValue;
  body_voiceSimilarity : JsValue
}.

(** [speed: Math.max(0.8, Math.min(1.2, speed))] and its two siblings in
    [ttsOptions]. *)
Definition ttsOptions_speed (body : TTSBody) : JsNum :=
  let speed := withDefault (body_speed body) (JNumber (Fin 1)) in
  mathMax (Fin (8 # 10)) (mathMin (Fin (12 # 10)) (ToNumber speed)).

Definition ttsOptions_voiceStability (body : TTSBody) : JsNum :=
  let voiceStability := withDefault (body_voiceStability body) (JNumber (Fin (1 # 2))) in
  mathMax (Fin (1 # 2)) (mathMin (Fin (9 # 10)) (ToNumber voiceStability)).

Definition ttsOptions_voiceSimilarity (body : TTSBody) : JsNum :=
  let voiceSimilarity := withDefault (body_voiceSimilarity body) (JNumber (Fin (3 # 4))) in
  mathMax (Fin (7 # 10)) (mathMin (Fin (95 # 100)) (ToNumber voiceSimilarity)).

(** The number lies in [lo, hi]. *)
Definition within (lo hi : Q) (n : JsNum) : Prop :=
  match n with
  | Fin q => lo <= q /\ q <= hi
  | _ => False
  end.


(* ===================================================================== *)
(** * Error log queries ([RobustErrorHandler]) *)
(* ===================================================================== *)

(** [array.slice(start)]: from index [start], counted from the end when
    [start] is negative; [start] is an integer. *)
Definition sliceFrom {A : Type} (start : Z) (l : list A) : list A :=
  let len := Z.of_nat (length l) in
  let k := if (start <? 0)%Z then Z.max (len + start) 0 else Z.min start len in
  skipn (Z.to_nat k) l.

(** [getRecentErrors(limit)]: [this.errorLog.slice(-limit)]. *)
Definition getRecentErrors (errorLog : list ErrorInfo.t) (limit : Z) : list ErrorInfo.t :=
  sliceFrom (- limit) errorLog.

(** [a === b] on severities. *)
Definition Severity_eqb (a b : Severity) : bool :=
  match a, b with
  | low, low | medium, medium | high, high | critical, critical => true
  | _, _ => false
  end.

(** [getErrorsBySeverity(severity)] *)
Definition getErrorsBySeverity (errorLog : list ErrorInfo.t) (severity : Severity)
  : list ErrorInfo.t :=
  filter (fun error => Severity_eqb (ErrorInfo.severity error) severity) errorLog.

(** [stats[code] = (stats[code] || 0) + 1] on the object [stats], whose
    keys are error codes. *)
Fixpoint countCode (code : jstring) (stats : list (jstring * nat)) : list (jstring * nat) :=
  match stats with
  | [] => [(code, 1%nat)]
  | (k, n) :: stats' =>
      if jstring_eqb k code then (k, S n) :: stats'
      else (k, n) :: countCode code stats'
  end.

(** [stats[code]], [None] for [undefined]. *)
Fixpoint statsGet (code : jstring) (stats : list (jstring * nat)) : option nat :=
  match stats with
  | [] => None
  | (k, n) :: stats' => if jstring_eqb k code then Some n else statsGet code stats'
  end.

(** [getErrorStats()] *)
Definition getErrorStats (errorLog : list ErrorInfo.t) : list (jstring * nat) :=
  fold_left (fun stats error => countCode (ErrorInfo.code error) stats) errorLog [].

(** [isSystemHealthy()]: at most 2 critical and at most 5 high-severity
    errors among the 20 most recent. *)
Definition isSystemHealthy (errorLog : list ErrorInfo.t) : bool :=
  let recentErrors := getRecentErrors errorLog 20 in
  let criticalErrors :=
    filter (fun error => Severity_eqb (ErrorInfo.severity error) critical) recentErrors in
  let highErrors :=
    filter (fun error => Severity_eqb (ErrorInfo.severity error) high) recentErrors in
  (length criticalErrors <=? 2)%nat && (length highErrors <=? 5)%nat.

(** The log holds only what [categorizeError] returned. *)
Definition classifierLog (errorLog : list ErrorInfo.t) : Prop :=
  Forall (fun info => exists error context timestamp,
              info = categorizeError error context timestamp) errorLog.

(** The entries of the log with the code [code]. *)
Definition withCode (code : jstring) (errorLog : list ErrorInfo.t) : list ErrorInfo.t :=
  filter (fun error => jstring_eqb (ErrorInfo.code error) code) errorLog.

(** A log of three classifications: two timeouts around a failed
    authentication. *)
Definition sampleLog : list ErrorInfo.t :=
  [categorizeError (mkError (lit "request timeout") None) [] (lit "t1");
   categorizeError (mkError (lit "401 Unauthorized") None) [] (lit "t2");
   categorizeError (mkError (lit "socket timeout") None) [] (lit "t3")].

(* ===================================================================== *)
(** * Retry controller: what a call leaves behind *)
(* ===================================================================== *)

(** What the [k]-th call of the operation adds to the error log: the
    classification of its failure, nothing when it succeeds. *)
Definition failureInfo {T : Type} (operation : nat -> Res T) (context : JsObject)
    (clock : nat -> jstring) (k : nat) : list ErrorInfo.t :=
  match operation k with
  | Throw error => [categorizeError error context (clock k)]
  | Ok _ => []
  end.

(** The configuration with another [retryableErrors] list. *)
Definition withRetryableErrors (config : RetryConfig) (codes : list jstring) : RetryConfig :=
  {| maxRetries := maxRetries config;
     baseDelay := baseDelay config;
     maxDelay := maxDelay config;
     exponentialBackoff := exponentialBackoff config;
     retryableErrors := codes |}.

(** The loop stopped at call [last]: with the operation's value, or with
    the enhanced error of a failure that is not retryable or uses up the
    budget. *)
Definition stoppedAt (T : Type) (operation : nat -> Res T) (context : JsObject)
    (clock : nat -> jstring) (config : RetryConfig) (run : RetryRun T) (last : nat) : Prop :=
  attempts run = S last /\
  ((exists v, operation last = Ok v /\ outcome run = Returned v) \/
   (exists error,
       operation last = Throw error /\
       outcome run =
         Failed (enhanceError error (categorizeError error context (clock last))) /\
       (Z.of_nat last = maxRetries config \/
        ErrorInfo.retryable (categorizeError error context (clock last)) = false))).

(* ===================================================================== *)
(** * Synthesis pipeline: provider calls and their worlds *)
(* ===================================================================== *)

(** The SSML document [generateWithAzure] posts for a chunk. *)
Definition azureSsml (config : TTSConfig) (chunk : jstring) : jstring :=
  lit "<speak version=" ++ quoted (lit "1.0")
  ++ lit " xmlns=" ++ quoted (lit "http://www.w3.org/2001/10/synthesis")
  ++ lit " xml:lang=" ++ quoted (lit "en-US")
  ++ lit "><voice name=" ++ quoted (voice config) ++ lit ">"
  ++ chunk ++ lit "</voice></speak>".

(** The error a response of the Azure endpoint makes [generateWithAzure]
    throw: none for a response that is [ok]. *)
Definition azureFailure (response : AzureResponse) : option Error :=
  match response with
  | AzureOk _ => None
  | AzureNotOk status errorText =>
      Some (newError (lit "Azure TTS API error: " ++ decimal status
                      ++ lit " - " ++ errorText))
  | AzureRejected e => Some e
  end.

(** [getAvailableProviders()] *)
Definition getAvailableProviders (w : World) : list jstring :=
  (if isProviderAvailable w (lit "elevenlabs") then [lit "elevenlabs"] else [])
  ++ (if isProviderAvailable w (lit "azure") then [lit "azure"] else []).

(** The world with another ElevenLabs service. *)
Definition withElevenlabsGenerate (w : World)
    (generate : nat -> jstring -> jstring -> VoiceSettings -> Res Buffer) : World :=
  {| ELEVENLABS_API_KEY := ELEVENLABS_API_KEY w;
     AZURE_SPEECH_KEY := AZURE_SPEECH_KEY w;
     AZURE_SPEECH_REGION := AZURE_SPEECH_REGION w;
     elevenlabsGenerate := generate;
     azureFetch := azureFetch w;
     ffmpeg := ffmpeg w;
     ffmpegRun := ffmpegRun w;
     dateNow := dateNow w;
     isoNow := isoNow w;
     elapsed := elapsed w |}.

(** The world with another Azure endpoint. *)
Definition withAzureFetch (w : World)
    (fetch : nat -> jstring -> jstring -> jstring -> AzureResponse) : World :=
  {| ELEVENLABS_API_KEY := ELEVENLABS_API_KEY w;
     AZURE_SPEECH_KEY := AZURE_SPEECH_KEY w;
     AZURE_SPEECH_REGION := AZURE_SPEECH_REGION w;
     elevenlabsGenerate := elevenlabsGenerate w;
     azureFetch := fetch;
     ffmpeg := ffmpeg w;
     ffmpegRun := ffmpegRun w;
     dateNow := dateNow w;
     isoNow := isoNow w;
     elapsed := elapsed w |}.

(** A world in which only ElevenLabs is configured and the second request
    of a call (index 1) is refused for lack of quota. *)
Definition elevenlabsQuotaWorld : World :=
  {| ELEVENLABS_API_KEY := Some (lit "key");
     AZURE_SPEECH_KEY := None;
     AZURE_SPEECH_REGION := None;
     elevenlabsGenerate := fun i _ _ _ =>
       if (i =? 1)%nat then Throw (newError (lit "quota_exceeded")) else Ok [Byte.x01];
     azureFetch := fun _ _ _ _ => AzureNotOk 500 (lit "unused");
     ffmpeg := false;
     ffmpegRun := fun _ => None;
     dateNow := 1700000000000;
     isoNow := lit "2023-11-14T22:13:20.000Z";
     elapsed := 12 |}.

(** [generateAudio] comes to use provider [p]: [p] is available, its call
    returns [synthesis], and every provider before it in the fallback order
    is skipped or throws. *)
Definition comesToUse (h : Helpers) (w : World) (script : jstring) (options : TTSOptions)
    (pre : list jstring) (p : jstring) (post : list jstring) (synthesis : Synthesis) : Prop :=
  let config := buildConfig options in
  let processedScript := enhanceScriptForRealism h script in
  let plan := splitScript processedScript 4000 in
  getProviderFallbackOrder (provider config) = pre ++ p :: post /\
  (forall q, In q pre -> skippedOrThrows h w processedScript plan config q) /\
  isProviderAvailable w p = true /\
  generateWithProvider h w processedScript plan p (mapVoiceForProvider config p)
  = Ok synthesis.

(** [config.provider === 'auto' ? 'elevenlabs' : config.provider] *)
Definition originalProviderOf (config : TTSConfig) : jstring :=
  if jstring_eqb (provider config) (lit "auto") then lit "elevenlabs" else provider config.

(** The options that ask for the provider ['auto'] and nothing else. *)
Definition autoOptions : TTSOptions :=
  mkTTSOptions None None None None (Some (lit "auto")) None None None None None None None None.

(** A world in which Azure has its key but no region, and would answer
    every request. *)
Definition azureNoRegionWorld : World :=
  {| ELEVENLABS_API_KEY := None;
     AZURE_SPEECH_KEY := Some (lit "key");
     AZURE_SPEECH_REGION := None;
     elevenlabsGenerate := fun _ _ _ _ => Ok [Byte.x01];
     azureFetch := fun _ _ _ _ => AzureOk [Byte.x01];
     ffmpeg := false;
     ffmpegRun := fun _ => None;
     dateNow := 1700000000000;
     isoNow := lit "2023-11-14T22:13:20.000Z";
     elapsed := 12 |}.

(** The [style] of [getDynamicVoiceSettings]:
    [isEmphatic ? 0.9 : isQuestion ? 0.7 : 0.5], with
    [isEmphatic = chunk.includes('<emphasis level="strong">')] and
    [isQuestion = chunk.includes('?')]. *)
Definition dynamicStyle (chunk : jstring) : JsNum :=
  let isEmphatic :=
    includes chunk (lit "<emphasis level=" ++ quoted (lit "strong") ++ lit ">") in
  let isQuestion := includes chunk (lit "?") in
  if isEmphatic then Fin (9 # 10) else if isQuestion then Fin (7 # 10) else Fin (1 # 2).

(* ===================================================================== *)
(** * Scraper ([RobustWebScraper.scrape]) *)
(* ===================================================================== *)

(** [ScrapingResult], with the metadata keys [scrape] itself sets. *)
Record ScrapingResult : Type := mkScrapingResult {
  scraping_success : bool;
  scraping_title : jstring;
  scraping_content : jstring;
  scraping_wordCount : nat;
  scraping_url : jstring;
  scraping_extractedAt : jstring;
  scraping_method : jstring;
  scraping_error : option jstring
}.

(** What a call of [scrape] leaves: its result and the delays it slept, in
    order. *)
Record ScrapeRun : Type := mkScrapeRun {
  scraped : ScrapingResult;
  scrapeDelays : list Z
}.

(** [result.success && result.content.length > 100] *)
Definition acceptable (result : ScrapingResult) : bool :=
  scraping_success result && (100 <? length (scraping_content result))%nat.

(** The [for (const method of methods)] loop of one attempt, over what the
    methods answer: the first acceptable result, with the last error caught
    on the way. *)
Fixpoint tryMethods (answers : list (Res ScrapingResult)) (lastError : option Error)
  : option ScrapingResult * option Error :=
  match answers with
  | [] => (None, lastError)
  | Ok result :: rest =>
      if acceptable result then (Some result, lastError)
      else tryMethods rest lastError
  | Throw error :: rest => tryMethods rest (Some error)
  end.

(** The attempt loop of [scrape]. [scrapeWithPlaywright] and
    [scrapeWithCheerio] answer the call of attempt [k]; [remaining] is the
    number of iterations left. *)
Fixpoint scrapeLoop (scrapeWithPlaywright scrapeWithCheerio : nat -> Res ScrapingResult)
    (retries : Z) (remaining attempt : nat) (lastError : option Error) (slept : list Z)
  : option ScrapingResult * option Error * list Z :=
  match remaining with
  | O => (None, lastError, slept)
  | S remaining' =>
      match tryMethods [scrapeWithPlaywright attempt; scrapeWithCheerio attempt] lastError with
      | (Some result, lastError') => (Some result, lastError', slept)
      | (None, lastError') =>
          let slept' :=
            if (Z.of_nat attempt <? retries - 1)%Z
            then slept ++ [(1000 * (Z.of_nat attempt + 1))%Z]
            else slept in
          scrapeLoop scrapeWithPlaywright scrapeWithCheerio retries remaining' (S attempt)
            lastError' slept'
      end
  end.

(** [lastError?.message || 'All scraping methods failed'] *)
Definition scrapeFailureMessage (lastError : option Error) : jstring :=
  match lastError with
  | Some e => if truthy (message e) then message e else lit "All scraping methods failed"
  | None => lit "All scraping methods failed"
  end.

(** [scrape(url, options)], for the [retries] option (an integer; 3 when
    the caller gives none) and the time [isoNow] of the failure result. *)
Definition scrape (scrapeWithPlaywright scrapeWithCheerio : nat -> Res ScrapingResult)
    (isoNow : jstring) (url : jstring) (retries_opt : option Z) : ScrapeRun :=
  let retries := orElse retries_opt 3%Z in
  match scrapeLoop scrapeWithPlaywright scrapeWithCheerio retries (Z.to_nat retries) 0
          None [] with
  | (Some result, _, slept) => {| scraped := result; scrapeDelays := slept |}
  | (None, lastError, slept) =>
      {| scraped :=
           {| scraping_success := false;
              scraping_title := [];
              scraping_content := [];
              scraping_wordCount := 0;
              scraping_url := url;
              scraping_extractedAt := isoNow;
              scraping_method := lit "cheerio";
              scraping_error := Some (scrapeFailureMessage lastError) |};
         scrapeDelays := slept |}
  end.

(** A method's answer is not taken: it throws, or its result is not
    acceptable. *)
Definition notTaken (answer : Res ScrapingResult) : Prop :=
  match answer with
  | Ok result => acceptable result = false
  | Throw _ => True
  end.

(** The errors the methods throw at the attempts [attempts], in order. *)
Definition thrownAt (scrapeWithPlaywright scrapeWithCheerio : nat -> Res ScrapingResult)
    (attempts : list nat) : list Error :=
  flat_map (fun k =>
              (match scrapeWithPlaywright k with Throw e => [e] | Ok _ => [] end)
              ++ (match scrapeWithCheerio k with Throw e => [e] | Ok _ => [] end))
           attempts.

(** The delays slept after the attempts [0 .. n - 1]. *)
Definition linearDelays (n : nat) : list Z :=
  map (fun k => (1000 * (Z.of_nat k + 1))%Z) (seq 0 n).


(* ===================================================================== *)
(** * Errors rethrown, and what a provider writes *)
(* ===================================================================== *)

(** The error [enhanceError] built, as a handler further up reads it: its
    [message] and its [stack]. *)
Definition asError (e : EnhancedError) : Error :=
  mkError (enhanced_message e) (enhanced_stack e).

(** The message the classifier gives with each code but UNKNOWN_ERROR. *)
Definition categoryMessages : list (jstring * jstring) :=
  [(lit "NETWORK_ERROR", lit "Network connectivity issue");
   (lit "RATE_LIMIT", lit "API rate limit exceeded");
   (lit "AUTH_ERROR", lit "Authentication failed");
   (lit "TIMEOUT", lit "Operation timed out");
   (lit "SERVICE_UNAVAILABLE", lit "Service temporarily unavailable");
   (lit "CONTENT_POLICY", lit "Content violates service policies");
   (lit "VALIDATION_ERROR", lit "Invalid input or parameters");
   (lit "BROWSER_ERROR", lit "Browser automation error");
   (lit "FILE_SYSTEM_ERROR", lit "File system operation failed");
   (lit "INTERNAL_SERVER_ERROR", lit "Internal server error")].

(** What a provider writes for the buffers its chunk loop collected: their
    concatenation, through the enhancement pass when it is requested. *)
Definition finalBufferOf (w : World) (config : TTSConfig) (audioBuffers : list Buffer)
  : Buffer :=
  if enhanceAudio config
  then enhanceAudioForRealism w (Buffer_concat audioBuffers) config
  else Buffer_concat audioBuffers.

(* ===================================================================== *)
(** * Properties *)
(* ===================================================================== *)

(** ** Error classifier *)

Ltac by_rule :=
  unfold categorizeError; cbv zeta;
  repeat match goal with
         | |- context [if ?c then _ else _] =>
             lazymatch c with
             | truthy _ => fail
             | _ => destruct c eqn:?
             end
         end;
  cbn [ErrorInfo.code ErrorInfo.message ErrorInfo.severity ErrorInfo.context
       ErrorInfo.suggestion ErrorInfo.retryable ErrorInfo.timestamp].

Ltac in_codes :=
  match goal with
  | |- In _ _ => unfold retryableCodes, nonRetryableCodes; simpl; tauto
  | H : In _ _ |- _ =>
      unfold retryableCodes, nonRetryableCodes in H; simpl in H;
      repeat (destruct H as [H | H]; [discriminate H |]); contradiction H
  end.

Lemma categorizeError_code_cases :
  forall error context timestamp,
    In (ErrorInfo.code (categorizeError error context timestamp))
       (retryableCodes ++ nonRetryableCodes).
Proof.
  intros. by_rule; unfold retryableCodes, nonRetryableCodes; simpl; tauto.
Qed.

Lemma categorizeError_unknown_iff :
  forall error context timestamp,
    noRuleMatches (message error) <->
    ErrorInfo.code (categorizeError error context timestamp) = lit "UNKNOWN_ERROR".
Proof.
  intros error context timestamp. split.
  - intros H. unfold categorizeError; cbv zeta.
    repeat match goal with
           | |- context [includes ?m (lit ?s)] =>
               rewrite (H s) by (simpl; tauto)
           end.
    reflexivity.
  - by_rule; intros Hcode; try discriminate Hcode.
    repeat match goal with
           | H : _ || _ = false |- _ => apply orb_false_elim in H; destruct H
           end.
    intros s Hin. simpl in Hin.
    repeat (destruct Hin as [<- | Hin]; [assumption |]). contradiction.
Qed.

(** C8 (as amended). The classifier sets [retryable = true] exactly with the
    codes NETWORK_ERROR, RATE_LIMIT, TIMEOUT, SERVICE_UNAVAILABLE,
    BROWSER_ERROR and INTERNAL_SERVER_ERROR, and [retryable = false] exactly
    with AUTH_ERROR, CONTENT_POLICY, VALIDATION_ERROR, FILE_SYSTEM_ERROR and
    UNKNOWN_ERROR; the code is UNKNOWN_ERROR (so not retryable) exactly when
    no rule of the ordered table matches the message. *)
Theorem categorizeError_retryable_codes :
  forall error context timestamp,
    let info := categorizeError error context timestamp in
    (ErrorInfo.retryable info = true <-> In (ErrorInfo.code info) retryableCodes) /\
    (ErrorInfo.retryable info = false <-> In (ErrorInfo.code info) nonRetryableCodes) /\
    (noRuleMatches (message error) <->
       ErrorInfo.code info = lit "UNKNOWN_ERROR" /\ ErrorInfo.retryable info = false).
Proof.
  intros error context timestamp info. subst info. split; [| split].
  - by_rule; split; intros H; first [reflexivity | discriminate H | in_codes].
  - by_rule; split; intros H; first [reflexivity | discriminate H | in_codes].
  - rewrite (categorizeError_unknown_iff error context timestamp).
    split; [| tauto]. intros H. split; [exact H |].
    revert H. by_rule; intros H; first [reflexivity | discriminate H].
Qed.

(** C8, the claim as stated fails: a message that mentions the browser is
    classified BROWSER_ERROR and marked retryable, and BROWSER_ERROR is not
    one of the six codes the claim lists as the retryable ones. *)
Lemma categorizeError_retryable_outside_claimed_codes :
  let info := categorizeError (mkError (lit "browser crashed") None) [] (lit "t0") in
  ErrorInfo.retryable info = true /\
  ErrorInfo.code info = lit "BROWSER_ERROR" /\
  ~ In (ErrorInfo.code info)
       [lit "NETWORK_ERROR"; lit "RATE_LIMIT"; lit "TIMEOUT"; lit "SERVICE_UNAVAILABLE";
        lit "AUTOMATION_BLOCKED"; lit "INTERNAL_ERROR"].
Proof.
  cbv zeta. split; [reflexivity | split; [reflexivity |]].
  intros H. vm_compute in H.
  repeat (destruct H as [H | H]; [discriminate H |]). exact H.
Qed.

(** C9 (as amended). For two failures with the same message, classified
    under the same context at any two instants, the classifications have
    the same code, message, severity, suggestion and retryable flag, and the
    same context unless the code is UNKNOWN_ERROR and the two failures'
    stacks differ (the unknown-error context copies [error.stack]); the
    timestamp is the clock reading of each call. The classifier is a total
    function: it returns one of its eleven codes for every failure. *)
Theorem categorizeError_deterministic :
  forall e1 e2 context t1 t2,
    message e1 = message e2 ->
    let i1 := categorizeError e1 context t1 in
    let i2 := categorizeError e2 context t2 in
    ErrorInfo.code i1 = ErrorInfo.code i2 /\
    ErrorInfo.message i1 = ErrorInfo.message i2 /\
    ErrorInfo.severity i1 = ErrorInfo.severity i2 /\
    ErrorInfo.suggestion i1 = ErrorInfo.suggestion i2 /\
    ErrorInfo.retryable i1 = ErrorInfo.retryable i2 /\
    (ErrorInfo.code i1 <> lit "UNKNOWN_ERROR" \/ stack e1 = stack e2 ->
     ErrorInfo.context i1 = ErrorInfo.context i2) /\
    ErrorInfo.timestamp i1 = t1 /\ ErrorInfo.timestamp i2 = t2 /\
    In (ErrorInfo.code i1) (retryableCodes ++ nonRetryableCodes).
Proof.
  intros [m1 s1] [m2 s2] context t1 t2 Hm i1 i2. simpl in Hm. subst m2.
  subst i1 i2.
  repeat split;
    try (unfold categorizeError; cbv zeta; cbn [message stack];
         repeat match goal with
                | |- context [if ?c then _ else _] =>
                    lazymatch c with
                    | truthy _ => fail
                    | _ => destruct c eqn:?
                    end
                end; reflexivity).
  - unfold categorizeError; cbv zeta; cbn [message stack].
    repeat match goal with
           | |- context [if ?c then _ else _] =>
               lazymatch c with
               | truthy _ => fail
               | _ => destruct c eqn:?
               end
           end;
      cbn [ErrorInfo.code ErrorInfo.context]; intros [H | H];
      first [reflexivity | contradiction H; reflexivity | simpl in H; subst; reflexivity].
  - apply categorizeError_code_cases.
Qed.

Lemma categorizeError_deterministic_witness :
  let e1 := mkError (lit "request timeout") (Some (lit "at a.ts:1")) in
  let e2 := mkError (lit "request timeout") (Some (lit "at b.ts:9")) in
  message e1 = message e2 /\
  ErrorInfo.code (categorizeError e1 [] (lit "t1")) = lit "TIMEOUT" /\
  ErrorInfo.context (categorizeError e1 [] (lit "t1")) =
  ErrorInfo.context (categorizeError e2 [] (lit "t2")).
Proof.
  cbv zeta. split; [reflexivity | split; [reflexivity |]].
  apply (categorizeError_deterministic
           (mkError (lit "request timeout") (Some (lit "at a.ts:1")))
           (mkError (lit "request timeout") (Some (lit "at b.ts:9")))
           [] (lit "t1") (lit "t2") eq_refl).
  left. vm_compute. discriminate.
Defined.

(** C9, the claim as stated fails: two failures with the same message and
    the same (empty) context, thrown from different places, get different
    [context] fields, because no rule matches the message and the
    unknown-error context records each failure's own stack. *)
Lemma categorizeError_context_depends_on_stack :
  let e1 := mkError (lit "boom") (Some (lit "Error: boom at a.ts:1")) in
  let e2 := mkError (lit "boom") (Some (lit "Error: boom at b.ts:9")) in
  message e1 = message e2 /\
  ErrorInfo.context (categorizeError e1 [] (lit "t0")) <>
  ErrorInfo.context (categorizeError e2 [] (lit "t0")).
Proof.
  cbv zeta. split; [reflexivity |]. vm_compute. discriminate.
Qed.

(** ** Retry controller *)

Section RetryLoopFacts.
  Variable T : Type.
  Variable operation : nat -> Res T.
  Variable context : JsObject.
  Variable clock : nat -> jstring.
  Variable random : nat -> Q.
  Variable config : RetryConfig.

Let loop := retryLoop operation context clock random config.
Let delayAt (a : nat) : Q := calculateDelay a config (random a).

  (** [k] retryable failures from call [attempt] on, then a success: the
      loop returns the value at call [attempt + k], having slept once per
      failure. *)
Lemma retryLoop_success :
    forall k remaining attempt log lastError slept v,
      (forall i, attempt <= i < attempt + k ->
                 failsRetryably operation context clock i)%nat ->
      operation (attempt + k)%nat = Ok v ->
      (k < remaining)%nat ->
      Z.of_nat (attempt + remaining) = (maxRetries config + 1)%Z ->
      let run := loop remaining attempt log lastError slept in
      outcome run = Returned v /\
      attempts run = (attempt + k + 1)%nat /\
      delays run = slept ++ map delayAt (seq attempt k).
  Proof.
    induction k as [| k IH]; intros remaining attempt log lastError slept v Hfail Hok Hlt Hsum.
    - destruct remaining as [| remaining]; [lia |].
      rewrite Nat.add_0_r in Hok. subst loop. simpl. rewrite Hok. simpl.
      repeat split; [lia | now rewrite app_nil_r].
    - destruct remaining as [| remaining]; [lia |].
      destruct (Hfail attempt ltac:(lia)) as (error & Hop & Hretry).
      subst loop. simpl. rewrite Hop, Hretry. simpl.
      replace (Z.of_nat attempt =? maxRetries config)%Z with false
        by (symmetry; apply Z.eqb_neq; lia).
      simpl.
      destruct (IH remaining (S attempt) (logError log
                  (categorizeError error context (clock attempt)))
                  (Some error) (slept ++ [calculateDelay attempt config (random attempt)]) v)
        as (H1 & H2 & H3).
      + intros i Hi. apply Hfail. lia.
      + replace (S attempt + k)%nat with (attempt + S k)%nat by lia. exact Hok.
      + lia.
      + lia.
      + repeat split; [exact H1 | rewrite H2; lia |].
        rewrite H3, <- app_assoc. reflexivity.
  Qed.

  (** Retryable failures at every call the loop condition admits: the loop
      runs all of them and throws the enhanced error at the last one. *)
Lemma retryLoop_exhausted :
    forall remaining attempt log lastError slept,
      (forall i, attempt <= i < attempt + remaining ->
                 failsRetryably operation context clock i)%nat ->
      (0 < remaining)%nat ->
      Z.of_nat (attempt + remaining) = (maxRetries config + 1)%Z ->
      let run := loop remaining attempt log lastError slept in
      isFailure (outcome run) /\
      attempts run = (attempt + remaining)%nat /\
      delays run = slept ++ map delayAt (seq attempt (remaining - 1)).
  Proof.
    induction remaining as [| remaining IH]; intros attempt log lastError slept Hfail Hpos Hsum;
      [lia |].
    destruct (Hfail attempt ltac:(lia)) as (error & Hop & Hretry).
    subst loop. cbn [retryLoop]. rewrite Hop, Hretry.
    destruct remaining as [| remaining].
    - replace (Z.of_nat attempt =? maxRetries config)%Z with true
        by (symmetry; apply Z.eqb_eq; lia).
      simpl. repeat split; [lia | now rewrite app_nil_r].
    - replace (Z.of_nat attempt =? maxRetries config)%Z with false
        by (symmetry; apply Z.eqb_neq; lia).
      cbn [orb negb].
      destruct (IH (S attempt) (logError log
                  (categorizeError error context (clock attempt)))
                  (Some error) (slept ++ [calculateDelay attempt config (random attempt)]))
        as (H1 & H2 & H3).
      + intros i Hi. apply Hfail. lia.
      + lia.
      + lia.
      + repeat split; [exact H1 | rewrite H2; lia |].
        rewrite H3, <- app_assoc. simpl. rewrite Nat.sub_0_r. reflexivity.
  Qed.

  (** A failure that is not retryable ends the loop at once. *)
Lemma retryLoop_not_retryable :
    forall remaining attempt log lastError slept error,
      operation attempt = Throw error ->
      ErrorInfo.retryable (categorizeError error context (clock attempt)) = false ->
      let run := loop (S remaining) attempt log lastError slept in
      outcome run =
        Failed (enhanceError error (categorizeError error context (clock attempt))) /\
      attempts run = S attempt /\
      delays run = slept.
  Proof.
    intros remaining attempt log lastError slept error Hop Hretry.
    subst loop. simpl. rewrite Hop, Hretry. simpl. rewrite orb_true_r.
    repeat split.
  Qed.
End RetryLoopFacts.

(** C2. With [maxRetries >= 0]: an operation whose every admitted call fails
    with a retryable classification is invoked exactly [maxRetries + 1]
    times and the call fails; a first failure that is not retryable ends the
    call after exactly 1 invocation, whatever [maxRetries] is, without
    sleeping; and a success at call [k] is returned at once, after [k + 1]
    invocations and [k] sleeps (none after the success). *)
Theorem executeWithRetry_attempts :
  forall (T : Type) retryConfig log clock random (operation : nat -> Res T)
         context customConfig,
    let config := mergeConfig retryConfig customConfig in
    let run := executeWithRetry retryConfig log clock random operation context customConfig in
    (0 <= maxRetries config)%Z ->
    ((forall k, (Z.of_nat k <= maxRetries config)%Z ->
                failsRetryably operation context clock k) ->
     attempts run = (Z.to_nat (maxRetries config) + 1)%nat /\ isFailure (outcome run)) /\
    (forall error,
        operation 0%nat = Throw error ->
        ErrorInfo.retryable (categorizeError error context (clock 0%nat)) = false ->
        attempts run = 1%nat /\ isFailure (outcome run) /\ delays run = []) /\
    (forall k v,
        (forall i, (i < k)%nat -> failsRetryably operation context clock i) ->
        operation k = Ok v ->
        (Z.of_nat k <= maxRetries config)%Z ->
        outcome run = Returned v /\ attempts run = (k + 1)%nat /\
        length (delays run) = k).
Proof.
  intros T retryConfig log clock random operation context customConfig config run HM.
  subst run. unfold executeWithRetry. fold config.
  split; [| split].
  - intros Hfail.
    destruct (retryLoop_exhausted T operation context clock random config
                (Z.to_nat (maxRetries config + 1)) 0 log None []) as (H1 & H2 & _).
    + intros i Hi. apply Hfail. lia.
    + lia.
    + lia.
    + split; [rewrite H2; lia | exact H1].
  - intros error Hop Hretry.
    replace (Z.to_nat (maxRetries config + 1)) with (S (Z.to_nat (maxRetries config)))
      by lia.
    destruct (retryLoop_not_retryable T operation context clock random config
                (Z.to_nat (maxRetries config)) 0 log None [] error Hop Hretry)
      as (H1 & H2 & H3).
    repeat split; [exact H2 | rewrite H1; exact I | exact H3].
  - intros k v Hfail Hok Hk.
    destruct (retryLoop_success T operation context clock random config
                k (Z.to_nat (maxRetries config + 1)) 0 log None [] v) as (H1 & H2 & H3).
    + intros i Hi. apply Hfail. lia.
    + exact Hok.
    + lia.
    + lia.
    + repeat split; [exact H1 | rewrite H2; lia |].
      rewrite H3, app_nil_l, length_map, length_seq. reflexivity.
Qed.

(** An operation that times out on every call. *)
Definition alwaysTimesOut (k : nat) : Res nat :=
  Throw (mkError (lit "request timeout") None).

Lemma executeWithRetry_attempts_witness :
  (0 <= maxRetries (mergeConfig defaultRetryConfig noCustomConfig))%Z /\
  attempts (executeWithRetry defaultRetryConfig [] (fun _ => lit "t") (fun _ => 0)
              alwaysTimesOut [] noCustomConfig) = 4%nat.
Proof.
  assert (H : (0 <= maxRetries (mergeConfig defaultRetryConfig noCustomConfig))%Z)
    by (vm_compute; discriminate).
  split; [exact H |].
  destruct (executeWithRetry_attempts nat defaultRetryConfig [] (fun _ => lit "t")
              (fun _ => 0) alwaysTimesOut [] noCustomConfig H) as [Hall _].
  apply Hall. intros k _. exists (mkError (lit "request timeout") None).
  split; reflexivity.
Defined.

(** ** Backoff delays *)

(** The exponential term [baseDelay * 2^attempt] and the jitter added to it. *)
Definition exponentialTerm (config : RetryConfig) (attempt : nat) : Q :=
  baseDelay config * inject_Z (2 ^ Z.of_nat attempt).

Definition jitterAt (config : RetryConfig) (random : nat -> Q) (attempt : nat) : Q :=
  random attempt * (1 # 10) * exponentialTerm config attempt.

Lemma exponentialTerm_nonneg :
  forall config a, 0 <= baseDelay config -> 0 <= exponentialTerm config a.
Proof.
  intros config a Hb. unfold exponentialTerm.
  apply Qmult_le_0_compat; [exact Hb |].
  change 0 with (inject_Z 0). rewrite <- Zle_Qle. apply Z.pow_nonneg. lia.
Qed.

Lemma exponentialTerm_double :
  forall config a b,
    0 <= baseDelay config -> (a < b)%nat ->
    2 * exponentialTerm config a <= exponentialTerm config b.
Proof.
  intros config a b Hb Hab. unfold exponentialTerm.
  setoid_replace (2 * (baseDelay config * inject_Z (2 ^ Z.of_nat a)))
    with (baseDelay config * inject_Z (2 * 2 ^ Z.of_nat a))
    by (rewrite inject_Z_mult; ring).
  rewrite (Qmult_comm (baseDelay config)), (Qmult_comm (baseDelay config)).
  apply Qmult_le_compat_r; [| exact Hb].
  rewrite <- Zle_Qle.
  replace (2 * 2 ^ Z.of_nat a)%Z with (2 ^ Z.of_nat (S a))%Z
    by (rewrite Nat2Z.inj_succ, Z.pow_succ_r by lia; reflexivity).
  apply Z.pow_le_mono_r; lia.
Qed.

Lemma jitterAt_bounds :
  forall config random a,
    0 <= baseDelay config -> 0 <= random a -> random a < 1 ->
    0 <= jitterAt config random a /\
    jitterAt config random a <= (1 # 10) * exponentialTerm config a.
Proof.
  intros config random a Hb H0 H1.
  pose proof (exponentialTerm_nonneg config a Hb) as He.
  unfold jitterAt. split.
  - apply Qmult_le_0_compat; [| exact He].
    apply Qmult_le_0_compat; [exact H0 | discriminate].
  - apply Qmult_le_compat_r; [| exact He].
    setoid_replace (1 # 10) with (1 * (1 # 10)) at 2 by ring.
    apply Qmult_le_compat_r; [apply Qlt_le_weak; exact H1 | discriminate].
Qed.

Lemma calculateDelay_backoff :
  forall config random a,
    exponentialBackoff config = true ->
    calculateDelay a config (random a) =
    Qmin (exponentialTerm config a + jitterAt config random a) (maxDelay config).
Proof.
  intros config random a Hb. unfold calculateDelay. rewrite Hb. reflexivity.
Qed.

Lemma calculateDelay_monotone :
  forall config random a b,
    exponentialBackoff config = true ->
    0 <= baseDelay config ->
    (forall i, 0 <= random i /\ random i < 1) ->
    (a <= b)%nat ->
    calculateDelay a config (random a) <= calculateDelay b config (random b).
Proof.
  intros config random a b Hexp Hb Hr Hab.
  destruct (Nat.eq_dec a b) as [-> | Hne]; [apply Qle_refl |].
  rewrite !calculateDelay_backoff by exact Hexp.
  apply Q.min_le_compat_r.
  destruct (Hr a) as [Ha0 Ha1]. destruct (Hr b) as [Hb0 Hb1].
  pose proof (jitterAt_bounds config random a Hb Ha0 Ha1) as [_ Hja].
  pose proof (jitterAt_bounds config random b Hb Hb0 Hb1) as [Hjb _].
  pose proof (exponentialTerm_nonneg config a Hb) as Hea.
  pose proof (exponentialTerm_double config a b Hb ltac:(lia)) as Hd.
  lra.
Qed.

Lemma map_seq_sorted :
  forall (f : nat -> Q) k s,
    (forall a b, (a <= b)%nat -> f a <= f b) ->
    StronglySorted Qle (map f (seq s k)).
Proof.
  intros f k. induction k as [| k IH]; intros s Hmono; simpl.
  - constructor.
  - constructor; [apply IH; exact Hmono |].
    apply Forall_forall. intros q Hq. apply in_map_iff in Hq.
    destruct Hq as (i & <- & Hi). apply in_seq in Hi. apply Hmono. lia.
Qed.

(** C5. Under exponential backoff, with a non-negative [baseDelay] and
    [Math.random()] in [0, 1): an operation that fails retryably exactly
    [k < maxRetries] times and then succeeds is returned after exactly
    [k + 1] invocations; the delays slept are, for attempts [0 .. k-1],
    [min(baseDelay * 2^attempt + jitter, maxDelay)] with
    [0 <= jitter <= 10% of the exponential term]; and the sequence of
    delays is non-decreasing. *)
Theorem executeWithRetry_backoff :
  forall (T : Type) retryConfig log clock random (operation : nat -> Res T)
         context customConfig k v,
    let config := mergeConfig retryConfig customConfig in
    let run := executeWithRetry retryConfig log clock random operation context customConfig in
    exponentialBackoff config = true ->
    0 <= baseDelay config ->
    (forall i, 0 <= random i /\ random i < 1) ->
    (forall i, (i < k)%nat -> failsRetryably operation context clock i) ->
    operation k = Ok v ->
    (Z.of_nat k < maxRetries config)%Z ->
    outcome run = Returned v /\
    attempts run = (k + 1)%nat /\
    delays run =
      map (fun a => Qmin (exponentialTerm config a + jitterAt config random a)
                         (maxDelay config)) (seq 0 k) /\
    (forall a, 0 <= jitterAt config random a /\
               jitterAt config random a <= (1 # 10) * exponentialTerm config a) /\
    StronglySorted Qle (delays run).
Proof.
  intros T retryConfig log clock random operation context customConfig k v config run
         Hexp Hbase Hrand Hfail Hok Hk.
  subst run. unfold executeWithRetry. fold config.
  destruct (retryLoop_success T operation context clock random config
              k (Z.to_nat (maxRetries config + 1)) 0 log None [] v) as (H1 & H2 & H3).
  - intros i Hi. apply Hfail. lia.
  - exact Hok.
  - lia.
  - lia.
  - rewrite app_nil_l in H3. repeat split.
    + exact H1.
    + rewrite H2. lia.
    + rewrite H3. apply map_ext. intros a. apply calculateDelay_backoff. exact Hexp.
    + apply jitterAt_bounds; [exact Hbase | apply Hrand | apply Hrand].
    + apply jitterAt_bounds; [exact Hbase | apply Hrand | apply Hrand].
    + rewrite H3. apply map_seq_sorted. intros a b Hab.
      apply calculateDelay_monotone; assumption.
Qed.

(** Two rate-limit failures, then the value 7. *)
Definition failsTwice (k : nat) : Res nat :=
  if (k <? 2)%nat then Throw (mkError (lit "429 Too Many Requests") None) else Ok 7%nat.

Lemma executeWithRetry_backoff_witness :
  outcome (executeWithRetry defaultRetryConfig [] (fun _ => lit "t") (fun _ => 1 # 2)
             failsTwice [] noCustomConfig) = Returned 7%nat /\
  delays (executeWithRetry defaultRetryConfig [] (fun _ => lit "t") (fun _ => 1 # 2)
            failsTwice [] noCustomConfig) =
  map (fun a => Qmin (exponentialTerm defaultRetryConfig a
                      + jitterAt defaultRetryConfig (fun _ => 1 # 2) a) 10000)
      [0%nat; 1%nat].
Proof.
  assert (H : forall i : nat, 0 <= (fun _ : nat => 1 # 2) i /\ (fun _ : nat => 1 # 2) i < 1)
    by (intros i; split; reflexivity || discriminate).
  assert (Hf : forall i, (i < 2)%nat ->
                         failsRetryably failsTwice [] (fun _ => lit "t") i).
  { intros i Hi. exists (mkError (lit "429 Too Many Requests") None).
    destruct i as [| [| i]]; [split; reflexivity | split; reflexivity | lia]. }
  destruct (executeWithRetry_backoff nat defaultRetryConfig [] (fun _ => lit "t")
              (fun _ => 1 # 2) failsTwice [] noCustomConfig 2%nat 7%nat
              eq_refl ltac:(discriminate) H Hf eq_refl eq_refl)
    as (H1 & _ & H3 & _).
  split; [exact H1 | exact H3].
Defined.

(** ** Provider fallback order *)

Lemma jstring_eqb_eq : forall a b, jstring_eqb a b = true <-> a = b.
Proof.
  intros a b. unfold jstring_eqb.
  destruct (list_eq_dec N.eq_dec a b); split; intros H; congruence.
Qed.

Lemma jstring_eqb_refl : forall a, jstring_eqb a a = true.
Proof. intros a. apply jstring_eqb_eq. reflexivity. Qed.

Lemma jstring_eqb_neq : forall a b, jstring_eqb a b = false <-> a <> b.
Proof.
  intros a b. unfold jstring_eqb.
  destruct (list_eq_dec N.eq_dec a b); split; intros H; congruence.
Qed.

Lemma getProviderFallbackOrder_default :
  forall preferredProvider,
    ~ In preferredProvider availableProviders ->
    getProviderFallbackOrder preferredProvider = availableProviders.
Proof.
  intros p Hnot. unfold getProviderFallbackOrder.
  destruct (jstring_eqb p (lit "auto")); [reflexivity |].
  destruct (existsb (jstring_eqb p) availableProviders) eqn:Hex; [| reflexivity].
  apply existsb_exists in Hex. destruct Hex as (q & Hin & Heq).
  apply jstring_eqb_eq in Heq. subst q. contradiction.
Qed.

(** C4. For every preferred-provider name the fallback order is a
    duplicate-free reordering of the default list. A preferred provider of
    the default list stands at position 0 and, with it taken out, the order
    is the default list with it taken out (the others keep their relative
    order). A name outside the default list, ['auto'] among them, gives the
    default order unchanged. *)
Theorem getProviderFallbackOrder_spec :
  forall preferredProvider,
    let order := getProviderFallbackOrder preferredProvider in
    let without := filter (fun p => negb (jstring_eqb p preferredProvider)) in
    NoDup order /\
    Permutation order availableProviders /\
    (In preferredProvider availableProviders ->
     nth_error order 0 = Some preferredProvider /\
     without order = without availableProviders) /\
    (~ In preferredProvider availableProviders -> order = availableProviders) /\
    (preferredProvider = lit "auto" -> order = availableProviders).
Proof.
  intros p order without.
  assert (Hauto : ~ In (lit "auto") availableProviders).
  { intros H. vm_compute in H. destruct H as [H | [H | H]];
      [discriminate H | discriminate H | exact H]. }
  assert (Hcases : In p availableProviders \/ ~ In p availableProviders).
  { destruct (in_dec (list_eq_dec N.eq_dec) p availableProviders); [left | right];
      assumption. }
  destruct Hcases as [Hin | Hnot].
  - assert (Hp : p = lit "azure" \/ p = lit "elevenlabs").
    { destruct Hin as [H | [H | H]]; [left | right | contradiction]; symmetry; exact H. }
    destruct Hp as [-> | ->]; subst order without; repeat split;
      lazymatch goal with
      | |- NoDup _ =>
          vm_compute; repeat constructor; simpl; intros H;
          repeat (destruct H as [H | H]; [discriminate H |]); exact H
      | |- Permutation _ _ =>
          vm_compute; first [apply Permutation_refl | apply perm_swap]
      | |- ~ In _ _ -> _ => intros H; exfalso; apply H; vm_compute; tauto
      | |- _ = lit "auto" -> _ => intros H; vm_compute in H; discriminate H
      | |- _ => reflexivity
      end.
  - subst order without.
    rewrite (getProviderFallbackOrder_default p Hnot).
    split; [| split; [apply Permutation_refl | split; [contradiction | split; reflexivity]]].
    vm_compute. repeat constructor; simpl; intros H;
      repeat (destruct H as [H | H]; [discriminate H |]); exact H.
Qed.

Lemma getProviderFallbackOrder_spec_witness :
  In (lit "elevenlabs") availableProviders /\
  nth_error (getProviderFallbackOrder (lit "elevenlabs")) 0 = Some (lit "elevenlabs") /\
  ~ In (lit "polly") availableProviders /\
  getProviderFallbackOrder (lit "polly") = availableProviders.
Proof.
  assert (H1 : In (lit "elevenlabs") availableProviders) by (right; left; reflexivity).
  assert (H2 : ~ In (lit "polly") availableProviders).
  { intros H. vm_compute in H. destruct H as [H | [H | H]];
      [discriminate H | discriminate H | exact H]. }
  split; [exact H1 | split; [| split; [exact H2 |]]].
  - destruct (getProviderFallbackOrder_spec (lit "elevenlabs"))
      as (_ & _ & Hpref & _). exact (proj1 (Hpref H1)).
  - destruct (getProviderFallbackOrder_spec (lit "polly"))
      as (_ & _ & _ & Hdef & _). exact (Hdef H2).
Defined.

(** ** Strings: trimming and filtering *)

Lemma dropWhile_nil :
  forall p s, dropWhile p s = [] -> Forall (fun c => p c = true) s.
Proof.
  intros p s. induction s as [| c s IH]; simpl; intros H; [constructor |].
  destruct (p c) eqn:Hc; [| discriminate H].
  constructor; [exact Hc | apply IH; exact H].
Qed.

Lemma dropWhile_length : forall p s, (length (dropWhile p s) <= length s)%nat.
Proof.
  intros p s. induction s as [| c s IH]; simpl; [lia |].
  destruct (p c); simpl; lia.
Qed.

Lemma trim_length : forall s, (length (trim s) <= length s)%nat.
Proof.
  intros s. unfold trim, trimEnd, trimStart. rewrite length_rev.
  etransitivity; [apply dropWhile_length |].
  rewrite length_rev. apply dropWhile_length.
Qed.

Lemma trim_nil_white : forall s, trim s = [] -> Forall (fun c => isWhite c = true) s.
Proof.
  intros s H. unfold trim, trimEnd, trimStart in H.
  assert (H1 : dropWhile isWhite (rev (dropWhile isWhite s)) = []).
  { rewrite <- (rev_involutive (dropWhile isWhite (rev (dropWhile isWhite s)))), H.
    reflexivity. }
  apply dropWhile_nil in H1.
  assert (H2 : dropWhile isWhite s = []).
  { destruct (dropWhile isWhite s) as [| c t] eqn:Hd; [reflexivity | exfalso].
    assert (Hc : isWhite c = true).
    { rewrite Forall_forall in H1. apply H1. apply in_rev. rewrite rev_involutive.
      left. reflexivity. }
    clear H H1. induction s as [| d s IH]; simpl in Hd; [discriminate Hd |].
    destruct (isWhite d) eqn:Hdw; [apply IH; exact Hd |]. congruence. }
  apply dropWhile_nil. exact H2.
Qed.

Lemma trim_white_cons : forall c s, isWhite c = true -> trim (c :: s) = trim s.
Proof. intros c s H. unfold trim, trimStart. simpl. rewrite H. reflexivity. Qed.

Lemma isTerminator_not_white : forall c, isTerminator c = true -> isWhite c = false.
Proof.
  intros c H. unfold isTerminator in H.
  apply orb_true_iff in H. destruct H as [H | H];
    [apply orb_true_iff in H; destruct H as [H | H] |];
    apply N.eqb_eq in H; subst c; reflexivity.
Qed.

Lemma last_in : forall (A : Type) (s : list A) d, s <> [] -> In (last s d) s.
Proof.
  intros A s d. induction s as [| c s IH]; intros H; [contradiction |].
  destruct s as [| c' s]; [left; reflexivity |].
  right. apply IH. discriminate.
Qed.

Lemma last_app_nonempty :
  forall (a b : jstring) d, b <> [] -> last (a ++ b) d = last b d.
Proof.
  intros a b d Hb. induction a as [| c a IH]; [reflexivity |].
  simpl. destruct (a ++ b) eqn:Hab; [| exact IH].
  apply app_eq_nil in Hab. destruct Hab as [_ Hab]. contradiction.
Qed.

(** A string that ends in a terminator does not trim to the empty string. *)
Lemma trim_ends_with_terminator :
  forall s, isTerminator (last s 0%N) = true -> trim s <> [].
Proof.
  intros s Hlast Htrim.
  assert (Hs : s <> []) by (intros ->; discriminate Hlast).
  apply trim_nil_white in Htrim. rewrite Forall_forall in Htrim.
  pose proof (Htrim _ (last_in N s 0%N Hs)) as Hw.
  rewrite (isTerminator_not_white _ Hlast) in Hw. discriminate Hw.
Qed.

Section FilterTrim.
  (** A filter that drops (at least) all whitespace does not see trimming. *)
  Variable keep : N -> bool.
  Hypothesis keep_white : forall c, isWhite c = true -> keep c = false.

Lemma filter_dropWhile_white :
    forall s, filter keep (dropWhile isWhite s) = filter keep s.
  Proof.
    intros s. induction s as [| c s IH]; [reflexivity |]. simpl.
    destruct (isWhite c) eqn:Hc; [| reflexivity].
    rewrite (keep_white c Hc). exact IH.
  Qed.

Lemma filter_trim : forall s, filter keep (trim s) = filter keep s.
  Proof.
    intros s. unfold trim, trimEnd, trimStart.
    rewrite filter_rev, filter_dropWhile_white, <- filter_rev, rev_involutive.
    apply filter_dropWhile_white.
  Qed.

Lemma filter_trim_nil : forall s, trim s = [] -> filter keep s = [].
  Proof. intros s H. rewrite <- filter_trim, H. reflexivity. Qed.
End FilterTrim.

Lemma withoutWhite_trim : forall s, withoutWhite (trim s) = withoutWhite s.
Proof.
  intros s. apply filter_trim. intros c H. rewrite H. reflexivity.
Qed.

Lemma withoutWhiteAndTerminators_trim :
  forall s, withoutWhiteAndTerminators (trim s) = withoutWhiteAndTerminators s.
Proof.
  intros s. apply filter_trim. intros c H. rewrite H. reflexivity.
Qed.

Lemma truthy_false : forall s, truthy s = false -> s = [].
Proof. intros [| c s] H; [reflexivity | discriminate H]. Qed.

Lemma truthy_true : forall s, truthy s = true -> s <> [].
Proof. intros [| c s] H; [discriminate H | discriminate]. Qed.

(** ** Chunk planner: the sentences of [splitScript] *)

Lemma scanSentences_covers :
  forall s cur inTerms,
    (inTerms = true -> cur <> []) ->
    (cur = [] -> match s with [] => True | c :: _ => isTerminator c = false end) ->
    (isTerminator (last s 0%N) = true \/ (s = [] /\ inTerms = true)) ->
    concat (scanSentences cur inTerms s) = cur ++ s.
Proof.
  induction s as [| c s IH]; intros cur inTerms Hin Hhead Hlast.
  - destruct Hlast as [Hlast | [_ ->]]; [discriminate Hlast |].
    simpl. rewrite !app_nil_r. reflexivity.
  - destruct Hlast as [Hlast | [Hnil _]]; [| discriminate Hnil].
    assert (Hrest : isTerminator (last s 0%N) = true \/ (s = [] /\ isTerminator c = true)).
    { destruct s as [| d s]; [right; split; [reflexivity | exact Hlast] | left; exact Hlast]. }
    simpl. destruct (isTerminator c) eqn:Hc.
    + destruct cur as [| a cur].
      * specialize (Hhead eq_refl). simpl in Hhead. congruence.
      * rewrite IH.
        -- rewrite <- app_assoc. reflexivity.
        -- intros _. discriminate.
        -- intros H. discriminate H.
        -- destruct Hrest as [H | [H _]]; [left; exact H | right; split; [exact H | reflexivity]].
    + assert (Hs : isTerminator (last s 0%N) = true).
      { destruct Hrest as [H | [_ H]]; [exact H | discriminate H]. }
      destruct inTerms.
      * simpl. rewrite IH.
        -- reflexivity.
        -- intros H. discriminate H.
        -- intros H. discriminate H.
        -- left. exact Hs.
      * rewrite IH.
        -- rewrite <- app_assoc. reflexivity.
        -- intros H. discriminate H.
        -- intros H. apply app_eq_nil in H. destruct H as [_ H]. discriminate H.
        -- left. exact Hs.
Qed.

Lemma scanSentences_noTerminator :
  forall s cur, noTerminator s -> scanSentences cur false s = [].
Proof.
  induction s as [| c s IH]; intros cur H; [reflexivity |].
  simpl. rewrite (H c (or_introl eq_refl)).
  apply IH. intros d Hd. apply H. right. exact Hd.
Qed.

(** Every match ends in a terminator. *)
Lemma scanSentences_end :
  forall s cur inTerms,
    (inTerms = true -> isTerminator (last cur 0%N) = true) ->
    Forall (fun x => isTerminator (last x 0%N) = true) (scanSentences cur inTerms s).
Proof.
  induction s as [| c s IH]; intros cur inTerms Hin; simpl.
  - destruct inTerms; [constructor; [apply Hin; reflexivity | constructor] | constructor].
  - destruct (isTerminator c) eqn:Hc.
    + destruct cur as [| a cur].
      * apply IH. intros H. discriminate H.
      * apply IH. intros _. rewrite last_last. exact Hc.
    + destruct inTerms.
      * constructor; [apply Hin; reflexivity |]. apply IH. intros H. discriminate H.
      * apply IH. intros H. discriminate H.
Qed.

Lemma sentencesOf_covers :
  forall script,
    wholeSentences script \/ noTerminator script ->
    concat (sentencesOf script) = script.
Proof.
  intros script [[Hhead Hlast] | Hnone]; unfold sentencesOf, matchSentences.
  - pose proof (scanSentences_covers script [] false) as H. simpl in H.
    assert (Hc : concat (scanSentences [] false script) = script).
    { apply H.
      - intros Hf. discriminate Hf.
      - intros _. destruct script; [exact I | exact Hhead].
      - left. exact Hlast. }
    destruct (scanSentences [] false script) eqn:Hscan; [| exact Hc].
    simpl. rewrite app_nil_r. reflexivity.
  - rewrite scanSentences_noTerminator by exact Hnone. simpl. apply app_nil_r.
Qed.

Lemma sentencesOf_cases :
  forall script,
    sentencesOf script = [script] \/
    (sentencesOf script <> [] /\
     Forall (fun x => isTerminator (last x 0%N) = true) (sentencesOf script)).
Proof.
  intros script. unfold sentencesOf, matchSentences.
  pose proof (scanSentences_end script [] false) as H.
  destruct (scanSentences [] false script) eqn:Hscan; [left; reflexivity | right].
  split; [discriminate |]. apply H. intros Hf. discriminate Hf.
Qed.

(** ** Chunk planner: the loop of [splitScript] *)

Section SplitScriptLoop.
  Variable maxChunkLength : Z.

Lemma splitScriptStep_cases :
    forall chunks cur s,
      (splitScriptStep maxChunkLength (chunks, cur) s = (chunks ++ [trim cur], s) /\
       cur <> []) \/
      (splitScriptStep maxChunkLength (chunks, cur) s = (chunks, cur ++ lit " " ++ s) /\
       ((Z.of_nat (length cur + length s) <= maxChunkLength)%Z \/ cur = [])).
  Proof.
    intros chunks cur s. unfold splitScriptStep.
    destruct ((Z.of_nat (length (cur ++ s)) >? maxChunkLength)%Z && truthy cur) eqn:Hcond.
    - left. split; [reflexivity |].
      apply andb_true_iff in Hcond. apply truthy_true. apply Hcond.
    - right. split; [reflexivity |].
      apply andb_false_iff in Hcond. destruct Hcond as [Hlen | Htruthy].
      + left. rewrite Z.gtb_ltb in Hlen. apply Z.ltb_ge in Hlen.
        rewrite length_app, Nat2Z.inj_add in Hlen. rewrite Nat2Z.inj_add. exact Hlen.
      + right. apply truthy_false. exact Htruthy.
  Qed.

Lemma splitScript_fold_text :
    forall sentences chunks cur,
      withoutWhite
        (concat (fst (fold_left (splitScriptStep maxChunkLength) sentences (chunks, cur)))
         ++ snd (fold_left (splitScriptStep maxChunkLength) sentences (chunks, cur))) =
      withoutWhite (concat chunks ++ cur ++ concat sentences).
  Proof.
    induction sentences as [| s sentences IH]; intros chunks cur.
    - simpl. rewrite app_nil_r. reflexivity.
    - cbn [fold_left].
      destruct (splitScriptStep_cases chunks cur s) as [[-> _] | [-> _]]; rewrite IH.
      + rewrite concat_app. simpl concat. unfold withoutWhite.
        rewrite !filter_app. fold (withoutWhite (trim cur)).
        rewrite withoutWhite_trim. unfold withoutWhite. simpl. rewrite app_nil_r.
        rewrite <- !app_assoc. reflexivity.
      + simpl concat. unfold withoutWhite. rewrite !filter_app. simpl.
        rewrite <- !app_assoc. reflexivity.
  Qed.

  (** After a non-empty list of sentences the chunk in progress ends with
      the last of them. *)
Lemma splitScript_fold_last :
    forall sentences chunks cur d,
      sentences <> [] ->
      exists pre,
        snd (fold_left (splitScriptStep maxChunkLength) sentences (chunks, cur)) =
        pre ++ last sentences d.
  Proof.
    induction sentences as [| s sentences IH]; intros chunks cur d Hne; [contradiction |].
    cbn [fold_left]. destruct sentences as [| s' sentences].
    - cbn [fold_left last].
      destruct (splitScriptStep_cases chunks cur s) as [[-> _] | [-> _]]; cbn [snd].
      + exists []. reflexivity.
      + exists (cur ++ lit " "). rewrite <- app_assoc. reflexivity.
    - destruct (splitScriptStep maxChunkLength (chunks, cur) s) as [chunks' cur'].
      destruct (IH chunks' cur' d ltac:(discriminate)) as [pre Hpre].
      exists pre. rewrite Hpre. reflexivity.
  Qed.

  Variable all : list jstring.

  (** A chunk is within the limit plus one separator, or is a single
      sentence (trimmed, or as it is). *)
Definition chunkOk (c : jstring) : Prop :=
    (Z.of_nat (length c) <= maxChunkLength + 1)%Z \/
    exists s, In s all /\ (c = trim s \/ c = s).

Definition curOk (cur : jstring) : Prop :=
    cur = [] \/ (Z.of_nat (length cur) <= maxChunkLength + 1)%Z \/
    exists s, In s all /\ trim cur = trim s.

Lemma curOk_trim : forall cur, cur <> [] -> curOk cur -> chunkOk (trim cur).
  Proof.
    intros cur Hne [Hnil | [Hlen | (s & Hs & Htrim)]].
    - contradiction.
    - left. pose proof (trim_length cur). lia.
    - right. exists s. split; [exact Hs | left; exact Htrim].
  Qed.

Lemma splitScript_fold_bound :
    forall sentences chunks cur,
      (forall s, In s sentences -> In s all) ->
      Forall chunkOk chunks -> curOk cur ->
      Forall chunkOk
        (fst (fold_left (splitScriptStep maxChunkLength) sentences (chunks, cur))) /\
      curOk (snd (fold_left (splitScriptStep maxChunkLength) sentences (chunks, cur))).
  Proof.
    induction sentences as [| s sentences IH]; intros chunks cur Hall Hchunks Hcur.
    - simpl. split; assumption.
    - cbn [fold_left].
      destruct (splitScriptStep_cases chunks cur s) as [[-> Hne] | [-> Hfit]]; apply IH.
      + intros x Hx. apply Hall. right. exact Hx.
      + apply Forall_app. split; [exact Hchunks |].
        constructor; [| constructor]. apply curOk_trim; assumption.
      + right. right. exists s. split; [apply Hall; left; reflexivity | reflexivity].
      + intros x Hx. apply Hall. right. exact Hx.
      + exact Hchunks.
      + destruct Hfit as [Hlen | ->].
        * right. left. rewrite !length_app. simpl length. lia.
        * right. right. exists s. split; [apply Hall; left; reflexivity |].
          simpl. apply trim_white_cons. reflexivity.
  Qed.
End SplitScriptLoop.

(** ** Chunk planner: [splitScript] *)

Lemma splitScript_roundtrip :
  forall script maxChunkLength,
    concat (sentencesOf script) = script ->
    withoutWhite (concat (splitScript script maxChunkLength)) = withoutWhite script.
Proof.
  intros script m Hcover.
  unfold splitScript.
  match goal with
  | |- context [fold_left ?f ?l ?a] => destruct (fold_left f l a) as [chunks cur] eqn:Hfold
  end.
  pose proof (splitScript_fold_text m (sentencesOf script) [] []) as H.
  rewrite (Hfold : fold_left _ _ (@pair (list jstring) jstring [] []) = _) in H.
  cbn [fst snd] in H. simpl app in H. rewrite Hcover in H.
  destruct (truthy (trim cur)) eqn:Htrim; cbv iota.
  - destruct (chunks ++ [trim cur]) as [| c rest] eqn:Happ.
    + apply app_eq_nil in Happ. destruct Happ as [_ Happ]. discriminate Happ.
    + rewrite <- Happ, <- H, concat_app. simpl concat. rewrite app_nil_r.
      unfold withoutWhite. rewrite !filter_app. f_equal. apply withoutWhite_trim.
  - apply truthy_false in Htrim.
    assert (Hcur : withoutWhite cur = []).
    { apply filter_trim_nil; [| exact Htrim]. intros c Hc. rewrite Hc. reflexivity. }
    unfold withoutWhite in H, Hcur. rewrite filter_app, Hcur, app_nil_r in H.
    destruct chunks as [| c rest].
    + simpl. rewrite app_nil_r. reflexivity.
    + exact H.
Qed.

Lemma splitScript_bound :
  forall script maxChunkLength c,
    In c (splitScript script maxChunkLength) ->
    chunkOk maxChunkLength (sentencesOf script) c.
Proof.
  intros script m c Hin.
  destruct (splitScript_fold_bound m (sentencesOf script) (sentencesOf script) [] [])
    as [Hchunks Hcur].
  { intros s Hs. exact Hs. }
  { constructor. }
  { left. reflexivity. }
  pose proof (splitScript_fold_last m (sentencesOf script) [] [] []) as Hlast.
  unfold splitScript in Hin.
  match type of Hin with
  | context [fold_left ?f ?l ?a] => destruct (fold_left f l a) as [chunks cur] eqn:Hfold
  end.
  rewrite (Hfold : fold_left _ _ (@pair (list jstring) jstring [] []) = _)
    in Hchunks, Hcur, Hlast.
  cbn [fst snd] in Hchunks, Hcur, Hlast.
  rewrite Forall_forall in Hchunks.
  destruct (truthy (trim cur)) eqn:Htrim; cbv iota in Hin.
  - assert (Hne : cur <> []) by (intros ->; discriminate Htrim).
    destruct (chunks ++ [trim cur]) as [| c0 rest] eqn:Happ.
    + apply app_eq_nil in Happ. destruct Happ as [_ Happ]. discriminate Happ.
    + rewrite <- Happ in Hin. apply in_app_or in Hin. destruct Hin as [Hin | [<- | []]].
      * apply Hchunks. exact Hin.
      * apply curOk_trim; assumption.
  - destruct chunks as [| c0 rest].
    + destruct Hin as [<- | []].
      destruct (sentencesOf_cases script) as [Hone | [Hne Hend]].
      * right. exists script. split; [rewrite Hone; left; reflexivity | right; reflexivity].
      * exfalso. destruct (Hlast Hne) as [pre Hpre].
        rewrite Forall_forall in Hend.
        pose proof (Hend _ (last_in _ (sentencesOf script) [] Hne)) as Hterm.
        assert (Hs : last (sentencesOf script) [] <> [])
          by (intros Heq; rewrite Heq in Hterm; discriminate Hterm).
        apply (trim_ends_with_terminator cur).
        -- rewrite Hpre, last_app_nonempty by exact Hs. exact Hterm.
        -- apply truthy_false. exact Htrim.
    + apply Hchunks. exact Hin.
Qed.

(** ** Chunk planner: [splitEnhancedScript] *)

Lemma splitOnTerminators_text :
  forall s inTerms,
    withoutWhiteAndTerminators (concat (splitOnTerminators s inTerms)) =
    withoutWhiteAndTerminators s.
Proof.
  unfold withoutWhiteAndTerminators.
  induction s as [| c s IH]; intros inTerms; [reflexivity |].
  simpl. destruct (isTerminator c) eqn:Hc.
  - rewrite orb_true_r. simpl. destruct inTerms; simpl; apply IH.
  - specialize (IH false).
    destruct (splitOnTerminators s false) as [| piece pieces]; simpl in *;
      rewrite ?Hc, <- IH; reflexivity.
Qed.

Lemma splitEnhancedStep_cases :
  forall (chunks : list jstring) (cur s : jstring),
    (splitEnhancedStep (chunks, cur) s = (chunks, cur) /\ trim s = []) \/
    (splitEnhancedStep (chunks, cur) s = (chunks ++ [trim cur], s) /\ cur <> []) \/
    (splitEnhancedStep (chunks, cur) s = (chunks, s) /\ cur = []) \/
    (exists sep,
        splitEnhancedStep (chunks, cur) s = (chunks, cur ++ sep ++ s) /\
        (sep = lit ". " \/ sep = []) /\
        (length cur + length s <= 500)%nat).
Proof.
  intros chunks cur s. unfold splitEnhancedStep.
  destruct (truthy (trim s)) eqn:Hs.
  - destruct (500 <? length cur + length s)%nat eqn:Hlen.
    + destruct (truthy cur) eqn:Hcur.
      * right. left. split; [reflexivity | apply truthy_true; exact Hcur].
      * right. right. left. split; [reflexivity | apply truthy_false; exact Hcur].
    + right. right. right. apply Nat.ltb_ge in Hlen.
      exists (if truthy cur then lit ". " else []).
      split; [reflexivity | split; [destruct (truthy cur); auto | exact Hlen]].
  - left. split; [reflexivity | apply truthy_false; exact Hs].
Qed.

Lemma splitEnhanced_fold_text :
  forall sentences (chunks : list jstring) (cur : jstring),
    withoutWhiteAndTerminators
      (concat (fst (fold_left splitEnhancedStep sentences (chunks, cur)))
       ++ snd (fold_left splitEnhancedStep sentences (chunks, cur))) =
    withoutWhiteAndTerminators (concat chunks ++ cur ++ concat sentences).
Proof.
  assert (Hw : forall c, isWhite c = true -> negb (isWhite c || isTerminator c) = false)
    by (intros c Hc; rewrite Hc; reflexivity).
  induction sentences as [| s sentences IH]; intros chunks cur.
  - simpl. rewrite app_nil_r. reflexivity.
  - cbn [fold_left].
    destruct (splitEnhancedStep_cases chunks cur s)
      as [[-> Hs] | [[-> _] | [[-> ->] | (sep & -> & Hsep & _)]]];
      rewrite IH; simpl concat; unfold withoutWhiteAndTerminators;
      rewrite ?concat_app, ?filter_app; simpl concat; rewrite ?filter_app.
    + rewrite (filter_trim_nil _ Hw s Hs). reflexivity.
    + rewrite (filter_trim _ Hw cur). simpl. rewrite <- !app_assoc. reflexivity.
    + reflexivity.
    + destruct Hsep as [-> | ->]; simpl; rewrite <- ?app_assoc; reflexivity.
Qed.

(** A chunk of [splitEnhancedScript] is within 500 plus the two-character
    separator, or is a single sentence, trimmed. *)
Definition enhancedChunkOk (all : list jstring) (c : jstring) : Prop :=
  (length c <= 502)%nat \/ exists s, In s all /\ c = trim s.

Lemma splitEnhanced_fold_bound :
  forall all sentences (chunks : list jstring) (cur : jstring),
    (forall s, In s sentences -> In s all) ->
    Forall (enhancedChunkOk all) chunks ->
    (cur = [] \/ (length cur <= 502)%nat \/ In cur all) ->
    Forall (enhancedChunkOk all) (fst (fold_left splitEnhancedStep sentences (chunks, cur))) /\
    (let cur' := snd (fold_left splitEnhancedStep sentences (chunks, cur)) in
     cur' = [] \/ (length cur' <= 502)%nat \/ In cur' all).
Proof.
  intros all.
  assert (Htrim : forall cur, (cur = [] \/ (length cur <= 502)%nat \/ In cur all) ->
                              cur <> [] -> enhancedChunkOk all (trim cur)).
  { intros cur [Hc | [Hc | Hc]] Hne.
    - contradiction.
    - left. pose proof (trim_length cur). lia.
    - right. exists cur. split; [exact Hc | reflexivity]. }
  induction sentences as [| s sentences IH]; intros chunks cur Hall Hchunks Hcur.
  - simpl. split; assumption.
  - cbn [fold_left].
    assert (Hall' : forall x, In x sentences -> In x all)
      by (intros x Hx; apply Hall; right; exact Hx).
    assert (Hs : In s all) by (apply Hall; left; reflexivity).
    destruct (splitEnhancedStep_cases chunks cur s)
      as [[-> _] | [[-> Hne] | [[-> ->] | (sep & -> & Hsep & Hlen)]]];
      apply IH; try assumption.
    + apply Forall_app. split; [exact Hchunks |].
      constructor; [apply Htrim; assumption | constructor].
    + right. right. exact Hs.
    + right. right. exact Hs.
    + right. left. rewrite !length_app.
      destruct Hsep as [-> | ->]; simpl length; lia.
Qed.

Lemma splitEnhancedScript_roundtrip :
  forall script,
    withoutWhiteAndTerminators (concat (splitEnhancedScript script)) =
    withoutWhiteAndTerminators script.
Proof.
  intros script.
  unfold splitEnhancedScript.
  match goal with
  | |- context [fold_left ?f ?l ?a] => destruct (fold_left f l a) as [chunks cur] eqn:Hfold
  end.
  pose proof (splitEnhanced_fold_text (splitOnTerminators script false) [] []) as H.
  rewrite (Hfold : fold_left _ _ (@pair (list jstring) jstring [] []) = _) in H.
  cbn [fst snd] in H. simpl app in H.
  unfold withoutWhiteAndTerminators in H at 2.
  fold (withoutWhiteAndTerminators (concat (splitOnTerminators script false))) in H.
  rewrite splitOnTerminators_text in H. rewrite <- H.
  destruct (truthy cur) eqn:Hcur.
  - rewrite concat_app. simpl concat. rewrite app_nil_r.
    unfold withoutWhiteAndTerminators. rewrite !filter_app. f_equal.
    apply withoutWhiteAndTerminators_trim.
  - apply truthy_false in Hcur. subst cur. rewrite app_nil_r. reflexivity.
Qed.

Lemma splitEnhancedScript_bound :
  forall script c,
    In c (splitEnhancedScript script) ->
    enhancedChunkOk (splitOnTerminators script false) c.
Proof.
  intros script c Hin.
  destruct (splitEnhanced_fold_bound (splitOnTerminators script false)
              (splitOnTerminators script false) [] []) as [Hchunks Hcur].
  { intros s Hs. exact Hs. }
  { constructor. }
  { left. reflexivity. }
  unfold splitEnhancedScript in Hin.
  match type of Hin with
  | context [fold_left ?f ?l ?a] => destruct (fold_left f l a) as [chunks cur] eqn:Hfold
  end.
  rewrite (Hfold : fold_left _ _ (@pair (list jstring) jstring [] []) = _)
    in Hchunks, Hcur.
  cbn [fst snd] in Hchunks, Hcur. rewrite Forall_forall in Hchunks.
  destruct (truthy cur) eqn:Htruthy.
  - apply in_app_or in Hin. destruct Hin as [Hin | [<- | []]].
    + apply Hchunks. exact Hin.
    + destruct Hcur as [Hc | [Hc | Hc]].
      * subst cur. discriminate Htruthy.
      * left. pose proof (trim_length cur). lia.
      * right. exists cur. split; [exact Hc | reflexivity].
  - apply Hchunks. exact Hin.
Qed.

(** What the planners do guarantee. For every text and every
    [maxChunkLength]: [splitScript] reproduces the text up to whitespace
    when the text is made of whole sentences (it starts with a sentence body
    and ends with a terminator) or has no terminator at all;
    [splitEnhancedScript] reproduces the text up to whitespace and the
    terminators [. ! ?], which its split removes; and a chunk exceeds the
    limit ([maxChunkLength], 500) by more than the separator joined before
    its last sentence (one character, two characters) only when it is a
    single sentence. *)
Lemma chunk_planner_spec :
  forall script maxChunkLength,
    (wholeSentences script \/ noTerminator script ->
     withoutWhite (concat (splitScript script maxChunkLength)) = withoutWhite script) /\
    (forall c, In c (splitScript script maxChunkLength) ->
       (Z.of_nat (length c) <= maxChunkLength + 1)%Z \/
       exists s, In s (sentencesOf script) /\ (c = trim s \/ c = s)) /\
    withoutWhiteAndTerminators (concat (splitEnhancedScript script)) =
      withoutWhiteAndTerminators script /\
    (forall c, In c (splitEnhancedScript script) ->
       (length c <= 502)%nat \/
       exists s, In s (splitOnTerminators script false) /\ c = trim s).
Proof.
  intros script m. split; [| split; [| split]].
  - intros H. apply splitScript_roundtrip. apply sentencesOf_covers. exact H.
  - intros c Hc. exact (splitScript_bound script m c Hc).
  - apply splitEnhancedScript_roundtrip.
  - intros c Hc. exact (splitEnhancedScript_bound script c Hc).
Qed.

(** Text without a terminator, appended to a text, adds no match: the
    global match completes a sentence only at a terminator. *)
Lemma scanSentences_trailing :
  forall s cur inTerms t,
    noTerminator t ->
    scanSentences cur inTerms (s ++ t) = scanSentences cur inTerms s.
Proof.
  induction s as [| c s IH]; intros cur inTerms t Ht.
  - cbn [app]. destruct t as [| d t]; [reflexivity |].
    cbn [scanSentences]. rewrite (Ht d (or_introl eq_refl)).
    assert (Ht' : noTerminator t) by (intros x Hx; apply Ht; right; exact Hx).
    destruct inTerms; rewrite scanSentences_noTerminator by exact Ht'; reflexivity.
  - cbn [app scanSentences].
    destruct (isTerminator c); [destruct cur |]; try destruct inTerms;
      rewrite ?IH by exact Ht; reflexivity.
Qed.

Lemma sentencesOf_trailing :
  forall s t,
    matchSentences s <> [] -> noTerminator t ->
    sentencesOf (s ++ t) = sentencesOf s.
Proof.
  intros s t Hs Ht. unfold sentencesOf, matchSentences in *.
  rewrite scanSentences_trailing by exact Ht.
  destruct (scanSentences [] false s); [contradiction | reflexivity].
Qed.

Lemma splitScript_ignores_trailing_text :
  forall s t maxChunkLength,
    matchSentences s <> [] -> noTerminator t ->
    splitScript (s ++ t) maxChunkLength = splitScript s maxChunkLength.
Proof.
  intros s t m Hs Ht. unfold splitScript.
  rewrite (sentencesOf_trailing s t Hs Ht).
  assert (Hsent : sentencesOf s <> [] /\
                  Forall (fun x => isTerminator (last x 0%N) = true) (sentencesOf s)).
  { unfold sentencesOf, matchSentences in *.
    pose proof (scanSentences_end s [] false) as Hend.
    destruct (scanSentences [] false s) as [| x l]; [contradiction |].
    split; [discriminate |]. apply Hend. intros H. discriminate H. }
  destruct Hsent as [Hne Hend].
  destruct (splitScript_fold_last m (sentencesOf s) [] [] [] Hne) as [pre Hpre].
  match goal with
  | |- context [fold_left ?f ?l ?a] => destruct (fold_left f l a) as [chunks cur] eqn:Hfold
  end.
  rewrite (Hfold : fold_left _ _ (@pair (list jstring) jstring [] []) = _) in Hpre.
  cbn [snd] in Hpre.
  assert (Hlast : isTerminator (last (last (sentencesOf s) []) 0%N) = true).
  { rewrite Forall_forall in Hend. apply Hend. apply last_in. exact Hne. }
  assert (Htrim : trim cur <> []).
  { apply trim_ends_with_terminator. rewrite Hpre.
    rewrite last_app_nonempty; [exact Hlast |].
    intros Hnil. rewrite Hnil in Hlast. discriminate Hlast. }
  destruct (trim cur) as [| c rest] eqn:Hc; [contradiction |].
  cbn [truthy]. destruct chunks; reflexivity.
Qed.

(** C1, the planners at their failing inputs. [splitScript] plans only
    what its global match finds: when the text has a terminated sentence,
    any text after the last terminator is left out of the plan, whatever
    the limit. The plan of [Hello. World] is the one chunk [Hello.]; the
    script [Hello! World], which preprocessing leaves as it is, is planned
    as [Hello!] and synthesized with success. Neither length test counts
    the separator the planner is about to join: under a limit of 8 the two
    sentences [bbb.] and [ccc.] are joined into a chunk of 9 characters,
    and under the limit of 500 two sentences of 250 characters are joined
    into a chunk of 502. [splitEnhancedScript] also rewrites the
    punctuation: [!] becomes [.] and the final [?] is dropped. *)
Theorem chunk_planner_drops_text_and_overruns :
  (forall s t maxChunkLength,
      matchSentences s <> [] -> noTerminator t ->
      splitScript (s ++ t) maxChunkLength = splitScript s maxChunkLength) /\
  (splitScript (lit "Hello. World") 4000 = [lit "Hello."] /\
   withoutWhite (concat (splitScript (lit "Hello. World") 4000)) = lit "Hello." /\
   withoutWhite (lit "Hello. World") = lit "Hello.World") /\
  (splitScript (enhanceScriptForRealism plainHelpers (lit "Hello! World")) 4000
   = [lit "Hello!"] /\
   success (fst (generateAudio plainHelpers brokenFfmpegWorld (lit "Hello! World") noOptions))
   = true /\
   chunks (metadata (fst (generateAudio plainHelpers brokenFfmpegWorld (lit "Hello! World")
                            noOptions))) = Some 1%nat) /\
  (sentencesOf (lit "aaa.bbb.ccc.ddd.") = [lit "aaa."; lit "bbb."; lit "ccc."; lit "ddd."] /\
   splitScript (lit "aaa.bbb.ccc.ddd.") 8 = [lit "aaa."; lit "bbb. ccc."; lit "ddd."] /\
   (8 < Z.of_nat (length (lit "bbb. ccc.")))%Z) /\
  (splitEnhancedScript (lit "Hi! There?") = [lit "Hi.  There"] /\
   withoutWhite (concat (splitEnhancedScript (lit "Hi! There?"))) = lit "Hi.There" /\
   withoutWhite (lit "Hi! There?") = lit "Hi!There?") /\
  (splitOnTerminators (repeat 97%N 250 ++ lit "." ++ repeat 98%N 250) false =
     [repeat 97%N 250; repeat 98%N 250] /\
   splitEnhancedScript (repeat 97%N 250 ++ lit "." ++ repeat 98%N 250) =
     [repeat 97%N 250 ++ lit ". " ++ repeat 98%N 250] /\
   (500 < Z.of_nat (length (repeat 97%N 250 ++ lit ". " ++ repeat 98%N 250)))%Z).
Proof.
  split; [exact splitScript_ignores_trailing_text |].
  repeat split; vm_compute; reflexivity.
Qed.

(** ** Reassembly *)

Lemma generateNaturalPause_length :
  forall previousChunk,
    Z.of_nat (length (generateNaturalPause previousChunk)) =
    if includes previousChunk (lit "!") then 132300%Z else 70560%Z.
Proof.
  intros c. unfold generateNaturalPause, Buffer_alloc. rewrite repeat_length.
  destruct (includes c (lit "!")); rewrite Z2Nat.id; vm_compute; congruence.
Qed.

Lemma segmentsWithPauses_step :
  forall c c' cs (audio : nat -> Buffer) s,
    segmentsWithPauses (c :: c' :: cs) (map audio (seq s (length (c :: c' :: cs)))) =
    audio s :: generateNaturalPause c
      :: segmentsWithPauses (c' :: cs) (map audio (seq (S s) (length (c' :: cs)))).
Proof. reflexivity. Qed.

Lemma segmentsWithPauses_length :
  forall chunks audio s,
    length (segmentsWithPauses chunks (map audio (seq s (length chunks)))) =
    (2 * length chunks - 1)%nat.
Proof.
  intros chunks. induction chunks as [| c chunks IH]; intros audio s; [reflexivity |].
  destruct chunks as [| c' chunks]; [reflexivity |].
  rewrite segmentsWithPauses_step.
  pose proof (IH audio (S s)) as Hrest.
  set (rest := segmentsWithPauses (c' :: chunks) _) in *.
  cbn [length] in *. lia.
Qed.

Lemma segmentsWithPauses_nth :
  forall chunks audio s i chunk,
    nth_error chunks i = Some chunk ->
    let segments := segmentsWithPauses chunks (map audio (seq s (length chunks))) in
    nth_error segments (2 * i) = Some (audio (s + i)%nat) /\
    ((S i < length chunks)%nat ->
     nth_error segments (2 * i + 1) = Some (generateNaturalPause chunk)).
Proof.
  intros chunks. induction chunks as [| c chunks IH]; intros audio s i chunk Hnth segments.
  - destruct i; discriminate Hnth.
  - subst segments. destruct chunks as [| c' chunks].
    + destruct i as [| i]; [| destruct i; discriminate Hnth].
      simpl in Hnth. injection Hnth as <-. simpl. rewrite Nat.add_0_r.
      split; [reflexivity | lia].
    + rewrite segmentsWithPauses_step.
      destruct i as [| i].
      * simpl in Hnth. injection Hnth as <-. rewrite Nat.add_0_r.
        split; [reflexivity | intros _; reflexivity].
      * simpl in Hnth.
        destruct (IH audio (S s) i chunk Hnth) as [H1 H2].
        replace (2 * S i)%nat with (S (S (2 * i))) by lia.
        replace (S (S (2 * i)) + 1)%nat with (S (S (2 * i + 1))) by lia.
        cbn [nth_error]. replace (s + S i)%nat with (S s + i)%nat by lia.
        split; [exact H1 |]. intros Hlt. apply H2. simpl in Hlt |- *. lia.
Qed.

Section ChunkLoop.
Variable h : Helpers.
Variable w : World.
Variable voiceId : jstring.
Variable config : TTSConfig.

Lemma synthesizeChunks_all :
  forall chunks n i audioBuffers audio,
    (forall j chunk,
        nth_error chunks j = Some chunk ->
        elevenlabsGenerate w (i + j) voiceId chunk
          (getDynamicVoiceSettings h chunk (i + j) config) = Ok (audio (i + j)%nat)) ->
    n = (i + length chunks)%nat ->
    synthesizeChunks h w voiceId config n i chunks audioBuffers =
    Ok (audioBuffers ++ segmentsWithPauses chunks (map audio (seq i (length chunks)))).
Proof.
  intros chunks. induction chunks as [| c chunks IH]; intros n i acc audio Hall Hn.
  - simpl. rewrite app_nil_r. reflexivity.
  - cbn [synthesizeChunks].
    pose proof (Hall 0%nat c eq_refl) as H0. rewrite Nat.add_0_r in H0.
    rewrite H0. cbn [bind].
    rewrite (IH n (S i) _ audio).
    + destruct chunks as [| c' chunks].
      * replace (i <? n - 1)%nat with false
          by (symmetry; apply Nat.ltb_ge; simpl in Hn; lia).
        simpl. rewrite app_nil_r. reflexivity.
      * replace (i <? n - 1)%nat with true
          by (symmetry; apply Nat.ltb_lt; simpl in Hn; lia).
        rewrite (segmentsWithPauses_step c c' chunks audio i).
        rewrite <- !app_assoc. reflexivity.
    + intros j chunk Hj. replace (S i + j)%nat with (i + S j)%nat by lia.
      apply Hall. exact Hj.
    + simpl in Hn. lia.
Qed.
End ChunkLoop.

(** The shape of the reassembled audio. When ElevenLabs is configured and
    every chunk of the script is synthesized, the segments are the chunks'
    audio buffers in index order with exactly one silence buffer after every
    chunk but the last ([2n - 1] segments for [n] chunks, segment [2i] the
    audio of chunk [i], segment [2i + 1] the pause after it), and the buffer
    handed to the optional enhancement pass, written as it is when
    enhancement is off, is their concatenation. [generateNaturalPause]
    itself gives 132300 zero bytes for a text that contains an exclamation
    mark and 70560 for a text that contains none. *)
Lemma reassembly_spec :
  forall h w script chunks config audio,
    envSet (ELEVENLABS_API_KEY w) = true ->
    let enhancedChunks := splitEnhancedScript (enhanceScriptForRealism h script) in
    let n := length enhancedChunks in
    allSynthesized h w (getRealisticVoiceId h (voice config)) config enhancedChunks audio ->
    let segments := segmentsWithPauses enhancedChunks (map audio (seq 0 n)) in
    length segments = (2 * n - 1)%nat /\
    (forall i chunk,
        nth_error enhancedChunks i = Some chunk ->
        nth_error segments (2 * i) = Some (audio i) /\
        ((S i < n)%nat -> nth_error segments (2 * i + 1) = Some (generateNaturalPause chunk))) /\
    (exists synthesis,
        generateWithElevenLabs h w script chunks config = Ok synthesis /\
        success (result synthesis) = true /\
        written synthesis =
          if enhanceAudio config
          then enhanceAudioForRealism w (Buffer_concat segments) config
          else Buffer_concat segments) /\
    (forall c1 c2,
        includes c1 (lit "!") = true -> includes c2 (lit "!") = false ->
        generateNaturalPause c1 = Buffer_alloc (Z.to_nat 132300) /\
        generateNaturalPause c2 = Buffer_alloc (Z.to_nat 70560) /\
        (length (generateNaturalPause c2) < length (generateNaturalPause c1))%nat).
Proof.
  intros h w script chunks config audio Hkey enhancedChunks n Hall segments.
  split; [apply segmentsWithPauses_length | split; [| split]].
  - intros i chunk Hi.
    exact (segmentsWithPauses_nth enhancedChunks audio 0 i chunk Hi).
  - unfold generateWithElevenLabs. rewrite Hkey. cbn [negb].
    fold enhancedChunks.
    rewrite (synthesizeChunks_all h w _ config enhancedChunks n 0 [] audio).
    + cbn [bind app]. eexists. split; [reflexivity |]. split; reflexivity.
    + intros j chunk Hj. apply Hall. exact Hj.
    + reflexivity.
  - intros c1 c2 H1 H2.
    pose proof (generateNaturalPause_length c1) as L1.
    pose proof (generateNaturalPause_length c2) as L2.
    rewrite H1 in L1. rewrite H2 in L2.
    split; [| split; [| lia]].
    + unfold generateNaturalPause. rewrite H1. do 2 f_equal.
    + unfold generateNaturalPause. rewrite H2. do 2 f_equal.
Qed.

(** In the pipeline the longer pause never occurs: the chunks
    [splitEnhancedScript] plans contain no exclamation mark, so every pause
    between them is the shorter one. *)
Lemma includes_single :
  forall s c, includes s [c] = existsb (N.eqb c) s.
Proof.
  induction s as [| d s IH]; intros c; [reflexivity |].
  cbn [includes startsWith existsb]. rewrite IH.
  replace (startsWith s []) with true by (destruct s; reflexivity).
  rewrite andb_true_r. reflexivity.
Qed.

Lemma no_exclamation_filter :
  forall s,
    includes s (lit "!") = false <->
    Forall (fun c => c <> 33%N) s.
Proof.
  intros s. change (lit "!") with [33%N]. rewrite includes_single.
  induction s as [| d s IH]; cbn [existsb].
  - split; [constructor | reflexivity].
  - rewrite orb_false_iff, IH. split.
    + intros [Hd Hs]. constructor; [| exact Hs].
      apply N.eqb_neq in Hd. congruence.
    + intros H. inversion H as [| ? ? Hd Hs]; subst. split; [| exact Hs].
      apply N.eqb_neq. congruence.
Qed.

Lemma dropWhile_Forall :
  forall (P : N -> Prop) p s, Forall P s -> Forall P (dropWhile p s).
Proof.
  intros P p s H. induction H as [| c s Hc Hs IH]; simpl; [constructor |].
  destruct (p c); [exact IH | constructor; assumption].
Qed.

Lemma trim_Forall : forall (P : N -> Prop) s, Forall P s -> Forall P (trim s).
Proof.
  intros P s H. unfold trim, trimEnd, trimStart.
  apply Forall_rev. apply dropWhile_Forall. apply Forall_rev.
  apply dropWhile_Forall. exact H.
Qed.

Lemma splitOnTerminators_no_terminator :
  forall s inTerms,
    Forall (Forall (fun c => isTerminator c = false)) (splitOnTerminators s inTerms).
Proof.
  induction s as [| c s IH]; intros inTerms; simpl.
  - repeat constructor.
  - destruct (isTerminator c) eqn:Hc.
    + destruct inTerms; [apply IH | constructor; [constructor | apply IH]].
    + specialize (IH false).
      destruct (splitOnTerminators s false) as [| piece pieces].
      * repeat constructor. exact Hc.
      * inversion IH as [| ? ? Hp Hps]; subst.
        constructor; [constructor; assumption | exact Hps].
Qed.

(** X22. No chunk [splitEnhancedScript] plans contains an exclamation
    mark, so the pause [generateNaturalPause] inserts after a planned chunk
    is always the shorter one, 70560 zero bytes. *)
Lemma splitEnhancedScript_no_exclamation :
  forall script chunk,
    In chunk (splitEnhancedScript script) ->
    includes chunk (lit "!") = false /\
    generateNaturalPause chunk = Buffer_alloc (Z.to_nat 70560).
Proof.
  intros script chunk Hin.
  assert (Hno : includes chunk (lit "!") = false).
  { apply no_exclamation_filter.
    assert (Hpieces : Forall (Forall (fun c => c <> 33%N)) (splitOnTerminators script false)).
    { eapply Forall_impl; [| apply splitOnTerminators_no_terminator].
      intros piece Hp. eapply Forall_impl; [| exact Hp].
      intros c Hc ->. discriminate Hc. }
    unfold splitEnhancedScript in Hin.
    assert (Hfold : forall sentences (chunks : list jstring) (cur : jstring),
               Forall (Forall (fun c => c <> 33%N)) sentences ->
               Forall (Forall (fun c => c <> 33%N)) chunks ->
               Forall (fun c => c <> 33%N) cur ->
               Forall (Forall (fun c => c <> 33%N))
                      (fst (fold_left splitEnhancedStep sentences (chunks, cur))) /\
               Forall (fun c => c <> 33%N)
                      (snd (fold_left splitEnhancedStep sentences (chunks, cur)))).
    { induction sentences as [| s sentences IH]; intros chunks cur Hs Hchunks Hcur.
      - simpl. split; assumption.
      - cbn [fold_left]. inversion Hs as [| ? ? Hs1 Hs2]; subst.
        destruct (splitEnhancedStep_cases chunks cur s)
          as [[-> _] | [[-> _] | [[-> _] | (sep & -> & Hsep & _)]]];
          apply IH; try assumption.
        + apply Forall_app. split; [exact Hchunks |].
          constructor; [apply trim_Forall; exact Hcur | constructor].
        + apply Forall_app. split; [exact Hcur |]. apply Forall_app. split; [| exact Hs1].
          destruct Hsep as [-> | ->]; repeat constructor; discriminate. }
    match type of Hin with
    | context [fold_left ?f ?l ?a] => destruct (fold_left f l a) as [chunks cur] eqn:Hf
    end.
    destruct (Hfold (splitOnTerminators script false) [] [] Hpieces
                (Forall_nil _) (Forall_nil _)) as [H1 H2].
    rewrite (Hf : fold_left _ _ (@pair (list jstring) jstring [] []) = _) in H1, H2.
    cbn [fst snd] in H1, H2. rewrite Forall_forall in H1.
    destruct (truthy cur).
    - apply in_app_or in Hin. destruct Hin as [Hin | [<- | []]].
      + apply H1. exact Hin.
      + apply trim_Forall. exact H2.
    - apply H1. exact Hin. }
  split; [exact Hno |].
  unfold generateNaturalPause. rewrite Hno. do 2 f_equal.
Qed.

Lemma splitEnhancedScript_no_exclamation_witness :
  In (lit "Wow") (splitEnhancedScript (lit "Wow!")) /\
  generateNaturalPause (lit "Wow") = Buffer_alloc (Z.to_nat 70560).
Proof.
  assert (Hin : In (lit "Wow") (splitEnhancedScript (lit "Wow!")))
    by (left; reflexivity).
  split; [exact Hin |].
  exact (proj2 (splitEnhancedScript_no_exclamation (lit "Wow!") (lit "Wow") Hin)).
Defined.

(** ** Providers and the fallback loop *)

Lemma mapVoiceForProvider_enhanceAudio :
  forall config p, enhanceAudio (mapVoiceForProvider config p) = enhanceAudio config.
Proof.
  intros config p. unfold mapVoiceForProvider.
  destruct (lookupVoice (voice config) voiceMapping) as [[a e] |];
    repeat match goal with
           | |- context [if ?c then _ else _] => destruct c
           end; reflexivity.
Qed.

Lemma enhanceAudioForRealism_failed :
  forall w audioBuffer config,
    ffmpegRun w audioBuffer = None ->
    enhanceAudioForRealism w audioBuffer config = audioBuffer.
Proof.
  intros w b config H. unfold enhanceAudioForRealism. rewrite H.
  destruct (ffmpeg w); reflexivity.
Qed.

Lemma generateWithElevenLabs_after_chunks :
  forall h w script chunks0 config audioBuffers,
    envSet (ELEVENLABS_API_KEY w) = true ->
    (let enhancedChunks := splitEnhancedScript (enhanceScriptForRealism h script) in
     synthesizeChunks h w (getRealisticVoiceId h (voice config)) config
       (length enhancedChunks) 0 enhancedChunks [] = Ok audioBuffers) ->
    exists synthesis,
      generateWithElevenLabs h w script chunks0 config = Ok synthesis /\
      success (result synthesis) = true /\
      error (result synthesis) = None /\
      enhancedAudio (result synthesis) = Some (enhanceAudio config) /\
      size (result synthesis) = Some (length (written synthesis)) /\
      written synthesis =
        if enhanceAudio config
        then enhanceAudioForRealism w (Buffer_concat audioBuffers) config
        else Buffer_concat audioBuffers.
Proof.
  intros h w script chunks0 config audioBuffers Hkey Hloop. cbv zeta in Hloop.
  unfold generateWithElevenLabs. rewrite Hkey. cbn [negb]. rewrite Hloop. cbn [bind].
  eexists. split; [reflexivity |]. repeat split.
Qed.

Lemma generateWithAzure_after_chunks :
  forall h w script chunks0 config audioBuffers,
    envSet (AZURE_SPEECH_KEY w) = true ->
    azureChunks w (azureRegion w) (azureKey w) config 0 chunks0 [] = Ok audioBuffers ->
    exists synthesis,
      generateWithAzure h w script chunks0 config = Ok synthesis /\
      success (result synthesis) = true /\
      error (result synthesis) = None /\
      enhancedAudio (result synthesis) = Some (enhanceAudio config) /\
      size (result synthesis) = Some (length (written synthesis)) /\
      written synthesis =
        if enhanceAudio config
        then enhanceAudioForRealism w (Buffer_concat audioBuffers) config
        else Buffer_concat audioBuffers.
Proof.
  intros h w script chunks0 config audioBuffers Hkey Hloop.
  unfold generateWithAzure. rewrite Hkey. cbn [negb]. rewrite Hloop. cbn [bind].
  eexists. split; [reflexivity |]. repeat split.
Qed.

Lemma last_cons_default :
  forall (A : Type) (l : list A) (x d : A), last (x :: l) d = last l x.
Proof.
  intros A l. induction l as [| y l IH]; intros x d; [reflexivity |].
  change (last (x :: y :: l) d) with (last (y :: l) d).
  rewrite (IH y d), (IH y x). reflexivity.
Qed.

Section FallbackLoop.
Variable h : Helpers.
Variable w : World.
Variable processedScript : jstring.
Variable plan : list jstring.
Variable config : TTSConfig.

Lemma tryProviders_all_fail :
  forall providers lastError,
    (forall p, In p providers -> skippedOrThrows h w processedScript plan config p) ->
    tryProviders h w processedScript plan config providers lastError =
    (None, last (map Some (caughtErrors h w processedScript plan config providers))
                lastError).
Proof.
  induction providers as [| p providers IH]; intros lastError Hall; [reflexivity |].
  cbn [tryProviders caughtErrors].
  assert (Hrest : forall q, In q providers ->
                            skippedOrThrows h w processedScript plan config q)
    by (intros q Hq; apply Hall; right; exact Hq).
  destruct (isProviderAvailable w p) eqn:Hav; cbn [negb].
  - destruct (Hall p (or_introl eq_refl)) as [Hskip | [e He]]; [congruence |].
    rewrite He. rewrite (IH (Some e) Hrest).
    cbn [app map]. rewrite last_cons_default. reflexivity.
  - rewrite (IH lastError Hrest). reflexivity.
Qed.

Lemma tryProviders_reaches :
  forall pre p post synthesis lastError,
    (forall q, In q pre -> skippedOrThrows h w processedScript plan config q) ->
    isProviderAvailable w p = true ->
    generateWithProvider h w processedScript plan p (mapVoiceForProvider config p)
      = Ok synthesis ->
    success (result synthesis) = true ->
    exists lastError',
      tryProviders h w processedScript plan config (pre ++ p :: post) lastError =
      (Some (p, synthesis), lastError').
Proof.
  induction pre as [| q pre IH]; intros p post synthesis lastError Hpre Hav Hgen Hok.
  - cbn [app tryProviders]. rewrite Hav, Hgen, Hok. cbn [negb].
    exists lastError. reflexivity.
  - cbn [app tryProviders].
    assert (Hrest : forall r, In r pre ->
                              skippedOrThrows h w processedScript plan config r)
      by (intros r Hr; apply Hpre; right; exact Hr).
    destruct (isProviderAvailable w q) eqn:Hq; cbn [negb].
    + destruct (Hpre q (or_introl eq_refl)) as [Hskip | [e He]]; [congruence |].
      rewrite He. apply IH; assumption.
    + apply IH; assumption.
Qed.
End FallbackLoop.

Lemma failureMessage_nonempty : forall lastError, failureMessage lastError <> [].
Proof.
  intros [e |]; unfold failureMessage; [| discriminate].
  destruct (message e); [discriminate | discriminate].
Qed.

(** C6 (as amended). When every provider of the fallback order is skipped
    (not available) or throws, [generateAudio] returns [success = false]
    with provider and format ['none'], no audio, and as [error] the message
    of the last error it caught, or ['All TTS providers failed'] when it
    caught none or that message is empty; [error] is never empty. *)
Theorem generateAudio_all_providers_fail :
  forall h w script options,
    let config := buildConfig options in
    let processedScript := enhanceScriptForRealism h script in
    let plan := splitScript processedScript 4000 in
    let order := getProviderFallbackOrder (provider config) in
    (forall p, In p order -> skippedOrThrows h w processedScript plan config p) ->
    let r := fst (generateAudio h w script options) in
    let lastError :=
      last (map Some (caughtErrors h w processedScript plan config order)) None in
    success r = false /\
    error r = Some (failureMessage lastError) /\
    failureMessage lastError <> [] /\
    (forall e, lastError = Some e -> message e <> [] -> error r = Some (message e)) /\
    (lastError = None -> error r = Some (lit "All TTS providers failed")) /\
    result_provider r = lit "none" /\
    format r = lit "none" /\
    audioUrl r = None /\
    snd (generateAudio h w script options) = None.
Proof.
  intros h w script options config processedScript plan order Hall r lastError.
  subst r. unfold generateAudio. fold config. fold processedScript. fold plan. fold order.
  rewrite (tryProviders_all_fail h w processedScript plan config order None Hall).
  fold lastError. cbn [fst snd success error result_provider format audioUrl].
  repeat split.
  - apply failureMessage_nonempty.
  - intros e -> Hne. unfold failureMessage.
    destruct (message e); [contradiction | reflexivity].
  - intros ->. reflexivity.
Qed.

Lemma splitScript_nonempty :
  forall script maxChunkLength, splitScript script maxChunkLength <> [].
Proof.
  intros script m. unfold splitScript.
  match goal with
  | |- context [fold_left ?f ?l ?a] => destruct (fold_left f l a) as [cs cur]
  end.
  destruct (if truthy (trim cur) then cs ++ [trim cur] else cs); discriminate.
Qed.

Lemma azureDownWorld_throws :
  forall h processedScript c rest,
    generateWithProvider h azureDownWorld processedScript (c :: rest) (lit "azure")
      (mapVoiceForProvider (buildConfig noOptions) (lit "azure")) =
    Throw (newError (lit "Azure TTS API error: 503 - down")).
Proof. intros. vm_compute. reflexivity. Qed.

Lemma azureDownWorld_result :
  forall h script,
    fst (generateAudio h azureDownWorld script noOptions) =
    {| success := false; audioUrl := None; duration := None; format := lit "none";
       size := None; result_provider := lit "none"; result_voice := lit "adam";
       enhancedAudio := None;
       error := Some (lit "Azure TTS API error: 503 - down");
       metadata :=
         {| generatedAt := isoNow azureDownWorld; processingTime := 12; chunks := None;
            audioQuality := lit "standard"; realistic := None; voiceModulation := None;
            fallbackUsed := None; originalProvider := None |} |}.
Proof.
  intros h script. unfold generateAudio.
  destruct (splitScript (enhanceScriptForRealism h script) 4000) as [| c rest] eqn:Hplan.
  - exfalso. exact (splitScript_nonempty _ _ Hplan).
  - change (getProviderFallbackOrder (provider (buildConfig noOptions)))
      with [lit "azure"; lit "elevenlabs"].
    cbn [tryProviders].
    change (isProviderAvailable azureDownWorld (lit "azure")) with true.
    change (isProviderAvailable azureDownWorld (lit "elevenlabs")) with false.
    cbn [negb]. rewrite azureDownWorld_throws. reflexivity.
Qed.

Lemma generateAudio_all_providers_fail_witness :
  (forall p,
      In p (getProviderFallbackOrder (provider (buildConfig noOptions))) ->
      skippedOrThrows plainHelpers azureDownWorld (lit "Hello.")
        (splitScript (lit "Hello.") 4000) (buildConfig noOptions) p) /\
  error (fst (generateAudio plainHelpers azureDownWorld (lit "Hello.") noOptions)) =
  Some (lit "Azure TTS API error: 503 - down").
Proof.
  assert (H : forall p,
             In p (getProviderFallbackOrder (provider (buildConfig noOptions))) ->
             skippedOrThrows plainHelpers azureDownWorld (lit "Hello.")
               (splitScript (lit "Hello.") 4000) (buildConfig noOptions) p).
  { intros p [<- | [<- | []]].
    - right. eexists. vm_compute. reflexivity.
    - left. reflexivity. }
  split; [exact H |].
  destruct (generateAudio_all_providers_fail plainHelpers azureDownWorld
              (lit "Hello.") noOptions H) as (_ & _ & _ & Hmsg & _).
  apply (Hmsg (newError (lit "Azure TTS API error: 503 - down"))).
  - vm_compute. reflexivity.
  - discriminate.
Defined.

(** C6, the claim as stated fails: Azure answers 503 and ElevenLabs is not
    configured. The failure would be classified SERVICE_UNAVAILABLE, with a
    suggestion, but whatever the script and the helpers are the result's
    [error] is the raw message: it holds neither the code, nor the
    suggestion, nor the name of the provider that was attempted. *)
Lemma generateAudio_failure_has_only_the_message :
  let failure := newError (lit "Azure TTS API error: 503 - down") in
  let info := categorizeError failure [] (lit "t0") in
  ErrorInfo.code info = lit "SERVICE_UNAVAILABLE" /\
  ErrorInfo.suggestion info = lit "The service is experiencing issues. Try again later" /\
  ~ exists h e,
      error (fst (generateAudio h azureDownWorld (lit "Hello.") noOptions)) = Some e /\
      (includes e (ErrorInfo.code info) = true \/
       includes e (ErrorInfo.suggestion info) = true \/
       includes e (lit "azure") = true).
Proof.
  cbv zeta. split; [reflexivity | split; [reflexivity |]].
  intros (h & e & He & Hcarries).
  rewrite azureDownWorld_result in He. cbn [error] in He. injection He as <-.
  vm_compute in Hcarries.
  destruct Hcarries as [H | [H | H]]; discriminate H.
Qed.

(** ** Enhancement pass *)

Lemma generateAudio_reaches :
  forall h w script options pre p post synthesis,
    let config := buildConfig options in
    let processedScript := enhanceScriptForRealism h script in
    let plan := splitScript processedScript 4000 in
    getProviderFallbackOrder (provider config) = pre ++ p :: post ->
    (forall q, In q pre -> skippedOrThrows h w processedScript plan config q) ->
    isProviderAvailable w p = true ->
    generateWithProvider h w processedScript plan p (mapVoiceForProvider config p)
      = Ok synthesis ->
    success (result synthesis) = true ->
    let r := fst (generateAudio h w script options) in
    success r = true /\
    error r = error (result synthesis) /\
    size r = size (result synthesis) /\
    enhancedAudio r = enhancedAudio (result synthesis) /\
    snd (generateAudio h w script options) = Some (written synthesis).
Proof.
  intros h w script options pre p post synthesis config processedScript plan
         Horder Hpre Hav Hgen Hok r.
  subst r. unfold generateAudio. fold config. fold processedScript. fold plan.
  rewrite Horder.
  destruct (tryProviders_reaches h w processedScript plan config pre p post synthesis
              None Hpre Hav Hgen Hok) as [lastError' ->].
  cbn [fst snd success error size enhancedAudio]. repeat split. exact Hok.
Qed.

Lemma provider_synthesis :
  forall h w processedScript plan config p audioBuffers,
    isProviderAvailable w p = true ->
    synthesizesAll h w processedScript plan config p audioBuffers ->
    exists synthesis,
      generateWithProvider h w processedScript plan p (mapVoiceForProvider config p)
        = Ok synthesis /\
      success (result synthesis) = true /\
      error (result synthesis) = None /\
      enhancedAudio (result synthesis) = Some (enhanceAudio config) /\
      size (result synthesis) = Some (length (written synthesis)) /\
      written synthesis =
        if enhanceAudio config
        then enhanceAudioForRealism w (Buffer_concat audioBuffers)
               (mapVoiceForProvider config p)
        else Buffer_concat audioBuffers.
Proof.
  intros h w processedScript plan config p audioBuffers Hav Hall.
  unfold synthesizesAll in Hall. cbv zeta in Hall.
  rewrite <- (mapVoiceForProvider_enhanceAudio config p).
  destruct Hall as [[-> Hloop] | [-> Hloop]]; unfold generateWithProvider.
  - change (jstring_eqb (lit "elevenlabs") (lit "elevenlabs")) with true. cbv iota.
    apply generateWithElevenLabs_after_chunks; [exact Hav | exact Hloop].
  - change (jstring_eqb (lit "azure") (lit "elevenlabs")) with false.
    change (jstring_eqb (lit "azure") (lit "azure")) with true. cbv iota.
    apply generateWithAzure_after_chunks; [| exact Hloop].
    unfold isProviderAvailable in Hav.
    change (jstring_eqb (lit "azure") (lit "elevenlabs")) with false in Hav.
    change (jstring_eqb (lit "azure") (lit "azure")) with true in Hav. cbv iota in Hav.
    apply andb_true_iff in Hav. apply Hav.
Qed.

(** C7 (as amended). Let [p] be the provider [generateAudio] comes to use
    (it is available; every provider before it in the fallback order is
    skipped or throws) and let it synthesize every chunk. If enhancement is
    requested and the filter pass fails on the reassembled buffer, the
    request still succeeds: no error is reported, the audio written and the
    reported size are those of the unenhanced reassembled buffer, and the
    result's [enhancedAudio] is the requested option, [true]. *)
Theorem enhancement_failure_not_fatal :
  forall h w script options pre p post audioBuffers,
    let config := buildConfig options in
    let processedScript := enhanceScriptForRealism h script in
    let plan := splitScript processedScript 4000 in
    getProviderFallbackOrder (provider config) = pre ++ p :: post ->
    (forall q, In q pre -> skippedOrThrows h w processedScript plan config q) ->
    isProviderAvailable w p = true ->
    synthesizesAll h w processedScript plan config p audioBuffers ->
    enhanceAudio config = true ->
    ffmpegRun w (Buffer_concat audioBuffers) = None ->
    let r := fst (generateAudio h w script options) in
    success r = true /\
    error r = None /\
    snd (generateAudio h w script options) = Some (Buffer_concat audioBuffers) /\
    size r = Some (length (Buffer_concat audioBuffers)) /\
    enhancedAudio r = Some true.
Proof.
  intros h w script options pre p post audioBuffers config processedScript plan
         Horder Hpre Hav Hall Henh Hfail r.
  destruct (provider_synthesis h w processedScript plan config p audioBuffers Hav Hall)
    as (synthesis & Hgen & Hok & Herr & Hflag & Hsize & Hwritten).
  rewrite Henh in Hwritten, Hflag.
  rewrite (enhanceAudioForRealism_failed w _ _ Hfail) in Hwritten.
  destruct (generateAudio_reaches h w script options pre p post synthesis
              Horder Hpre Hav Hgen Hok) as (R1 & R2 & R3 & R4 & R5).
  subst r. rewrite R2, R3, R4, R5, Herr, Hsize, Hflag, Hwritten.
  repeat split. exact R1.
Qed.

Lemma enhancement_failure_not_fatal_witness :
  ffmpegRun brokenFfmpegWorld (Buffer_concat [[Byte.x01]]) = None /\
  success (fst (generateAudio plainHelpers brokenFfmpegWorld (lit "Hello.") noOptions))
  = true /\
  snd (generateAudio plainHelpers brokenFfmpegWorld (lit "Hello.") noOptions)
  = Some [Byte.x01].
Proof.
  assert (Hfail : ffmpegRun brokenFfmpegWorld (Buffer_concat [[Byte.x01]]) = None)
    by reflexivity.
  split; [exact Hfail |].
  assert (Hall : synthesizesAll plainHelpers brokenFfmpegWorld (lit "Hello.")
                   (splitScript (lit "Hello.") 4000) (buildConfig noOptions)
                   (lit "azure") [[Byte.x01]])
    by (right; split; vm_compute; reflexivity).
  destruct (enhancement_failure_not_fatal plainHelpers brokenFfmpegWorld (lit "Hello.")
              noOptions [] (lit "azure") [lit "elevenlabs"] [[Byte.x01]]
              eq_refl (fun q (Hq : In q []) => match Hq with end) eq_refl Hall
              eq_refl Hfail) as (H1 & _ & H3 & _).
  split; [exact H1 | exact H3].
Defined.

Lemma brokenFfmpegWorld_chunks :
  forall config plan i audioBuffers region key,
    azureChunks brokenFfmpegWorld region key config i plan audioBuffers =
    Ok (audioBuffers ++ map (fun _ => [Byte.x01]) plan).
Proof.
  intros config plan. induction plan as [| c plan IH]; intros i acc region key.
  - simpl. rewrite app_nil_r. reflexivity.
  - cbn [azureChunks azureFetch brokenFfmpegWorld map]. rewrite IH, <- app_assoc.
    reflexivity.
Qed.

Lemma brokenFfmpegWorld_flag :
  forall h script,
    success (fst (generateAudio h brokenFfmpegWorld script noOptions)) = true /\
    enhancedAudio (fst (generateAudio h brokenFfmpegWorld script noOptions)) = Some true.
Proof.
  intros h script.
  assert (Hav : isProviderAvailable brokenFfmpegWorld (lit "azure") = true) by reflexivity.
  destruct (provider_synthesis h brokenFfmpegWorld (enhanceScriptForRealism h script)
              (splitScript (enhanceScriptForRealism h script) 4000)
              (buildConfig noOptions) (lit "azure")
              (map (fun _ => [Byte.x01])
                   (splitScript (enhanceScriptForRealism h script) 4000)) Hav)
    as (synthesis & Hgen & Hok & _ & Hflag & _).
  { right. split; [reflexivity |]. apply brokenFfmpegWorld_chunks. }
  destruct (generateAudio_reaches h brokenFfmpegWorld script noOptions []
              (lit "azure") [lit "elevenlabs"] synthesis eq_refl
              (fun q (Hq : In q []) => match Hq with end) Hav Hgen Hok)
    as (R1 & _ & _ & R4 & _).
  split; [exact R1 |]. rewrite R4, Hflag. reflexivity.
Qed.

(** C7, the claim as stated fails: Azure synthesizes the one chunk, the
    filter pass fails, the request succeeds with the unenhanced byte, and
    [enhancedAudio] is [true]; whatever the helpers do to the script, it is
    never [false]. *)
Lemma enhancedAudio_true_after_failed_enhancement :
  (ffmpeg brokenFfmpegWorld = true /\
   ffmpegRun brokenFfmpegWorld [Byte.x01] = None /\
   success (fst (generateAudio plainHelpers brokenFfmpegWorld (lit "Hello.") noOptions))
   = true /\
   snd (generateAudio plainHelpers brokenFfmpegWorld (lit "Hello.") noOptions)
   = Some [Byte.x01] /\
   enhancedAudio (fst (generateAudio plainHelpers brokenFfmpegWorld (lit "Hello.") noOptions))
   = Some true) /\
  ~ exists h,
      enhancedAudio (fst (generateAudio h brokenFfmpegWorld (lit "Hello.") noOptions))
      = Some false.
Proof.
  split.
  - repeat split; vm_compute; reflexivity.
  - intros [h H].
    rewrite (proj2 (brokenFfmpegWorld_flag h (lit "Hello."))) in H. discriminate H.
Qed.

(** ** TTS route *)

Lemma Qle_bool_false : forall a b, Qle_bool a b = false -> b < a.
Proof.
  intros a b H. apply Qnot_le_lt. intros Hle.
  apply Qle_bool_iff in Hle. congruence.
Qed.

Lemma clamp_within :
  forall lo hi n,
    lo <= hi -> n <> NaN ->
    within lo hi (mathMax (Fin lo) (mathMin (Fin hi) n)).
Proof.
  intros lo hi n Hle Hn.
  destruct n as [| | q |]; [contradiction | | |]; cbn [mathMin numLe];
    repeat match goal with
           | |- context [Qle_bool ?a ?b] =>
               let H := fresh "H" in
               destruct (Qle_bool a b) eqn:H;
               [apply Qle_bool_iff in H | apply Qle_bool_false in H]
           end;
    cbn [mathMax numLe];
    repeat match goal with
           | |- context [Qle_bool ?a ?b] =>
               let H := fresh "H" in
               destruct (Qle_bool a b) eqn:H;
               [apply Qle_bool_iff in H | apply Qle_bool_false in H]
           end;
    cbn [within]; split; lra.
Qed.

(** X23. The route clamps every value whose [ToNumber] is a number (an
    absent key, [null], booleans, every JSON number and every numeric
    string): [speed] lands in [0.8, 1.2], [voiceStability] in [0.5, 0.9] and
    [voiceSimilarity] in [0.7, 0.95]. *)
Lemma ttsOptions_clamped_numbers :
  forall body,
    (ToNumber (withDefault (body_speed body) (JNumber (Fin 1))) <> NaN ->
     within (8 # 10) (12 # 10) (ttsOptions_speed body)) /\
    (ToNumber (withDefault (body_voiceStability body) (JNumber (Fin (1 # 2)))) <> NaN ->
     within (1 # 2) (9 # 10) (ttsOptions_voiceStability body)) /\
    (ToNumber (withDefault (body_voiceSimilarity body) (JNumber (Fin (3 # 4)))) <> NaN ->
     within (7 # 10) (95 # 100) (ttsOptions_voiceSimilarity body)).
Proof.
  intros body. repeat split; intros H; apply clamp_within; try exact H; discriminate.
Qed.

(** C10, at the failing input: a body whose [speed], [voiceStability] and
    [voiceSimilarity] are strings that are not numeric. [Math.min] and
    [Math.max] give [NaN], which is what [ttsOptions] hands to
    [generateAudio]: the values are in none of the three ranges. *)
Theorem ttsOptions_text_is_not_clamped :
  let body := mkTTSBody (JString (lit "fast")) (JString (lit "high"))
                        (JString (lit "max")) in
  ttsOptions_speed body = NaN /\
  ttsOptions_voiceStability body = NaN /\
  ttsOptions_voiceSimilarity body = NaN /\
  ~ within (8 # 10) (12 # 10) (ttsOptions_speed body) /\
  ~ within (1 # 2) (9 # 10) (ttsOptions_voiceStability body) /\
  ~ within (7 # 10) (95 # 100) (ttsOptions_voiceSimilarity body).
Proof.
  cbv zeta. repeat split; try (vm_compute; reflexivity); intros H; vm_compute in H;
    exact H.
Qed.

(** ** Error log *)

(** X1. [logError] keeps the log a ring of capacity 100: the new log has
    [min 100 (n + 1)] entries, the entry just logged is its last one, and it
    is the end of the old log followed by the entry, so the entries dropped
    are the oldest. *)
Theorem logError_ring :
  forall errorLog info,
    let log' := logError errorLog info in
    length log' = Nat.min 100 (length errorLog + 1) /\
    last log' info = info /\
    (exists dropped, errorLog ++ [info] = dropped ++ log') /\
    ((length errorLog < 100)%nat -> log' = errorLog ++ [info]).
Proof.
  intros errorLog info log'. subst log'. unfold logError, lastN.
  rewrite length_app. cbn [length].
  destruct (100 <? length errorLog + 1)%nat eqn:Hfull.
  - apply Nat.ltb_lt in Hfull.
    set (k := (length errorLog + 1 - 100)%nat).
    assert (Hk : (k <= length errorLog)%nat) by (subst k; lia).
    repeat split.
    + rewrite length_skipn, length_app. cbn [length]. subst k. lia.
    + rewrite skipn_app.
      replace (k - length errorLog)%nat with 0%nat by lia.
      cbn [skipn]. apply last_last.
    + exists (firstn k (errorLog ++ [info])). symmetry. apply firstn_skipn.
    + lia.
  - apply Nat.ltb_ge in Hfull. repeat split.
    + rewrite length_app. cbn [length]. lia.
    + apply last_last.
    + exists []. reflexivity.
Qed.

Lemma sliceFrom_last :
  forall (A : Type) (l : list A) (n : Z),
    (1 <= n)%Z -> sliceFrom (- n) l = lastN (Z.to_nat n) l.
Proof.
  intros A l n Hn. unfold sliceFrom, lastN.
  replace (- n <? 0)%Z with true by (symmetry; apply Z.ltb_lt; lia).
  f_equal. lia.
Qed.

(** X2. [getRecentErrors(limit)] gives the last [limit] entries (all of them
    when the log is shorter) for [limit >= 1]; for [limit = 0] it gives the
    whole log, not the empty list, since [slice(-0)] is [slice(0)]; for a
    negative limit [-k] it drops the first [k] entries. *)
Theorem getRecentErrors_spec :
  forall errorLog limit,
    ((1 <= limit)%Z ->
     getRecentErrors errorLog limit = lastN (Z.to_nat limit) errorLog /\
     length (getRecentErrors errorLog limit) = Nat.min (Z.to_nat limit) (length errorLog) /\
     exists older, errorLog = older ++ getRecentErrors errorLog limit) /\
    (limit = 0%Z -> getRecentErrors errorLog limit = errorLog) /\
    ((limit < 0)%Z ->
     getRecentErrors errorLog limit = skipn (Z.to_nat (- limit)) errorLog).
Proof.
  intros errorLog limit. split; [| split].
  - intros Hl. unfold getRecentErrors. rewrite sliceFrom_last by exact Hl.
    unfold lastN. repeat split.
    + rewrite length_skipn. lia.
    + exists (firstn (length errorLog - Z.to_nat limit) errorLog).
      symmetry. apply firstn_skipn.
  - intros ->. unfold getRecentErrors, sliceFrom. cbn [Z.opp Z.ltb Z.compare].
    rewrite Z.min_l by lia. reflexivity.
  - intros Hl. unfold getRecentErrors, sliceFrom.
    replace (- limit <? 0)%Z with false by (symmetry; apply Z.ltb_ge; lia).
    destruct (Z.min_spec (- limit) (Z.of_nat (length errorLog))) as [[H ->] | [H ->]].
    + reflexivity.
    + rewrite Nat2Z.id. rewrite !skipn_all2 by lia. reflexivity.
Qed.

Lemma countCode_get :
  forall stats code k,
    statsGet k (countCode code stats) =
    if jstring_eqb code k
    then Some (S (match statsGet k stats with Some n => n | None => 0 end))
    else statsGet k stats.
Proof.
  induction stats as [| [k' n] stats IH]; intros code k; cbn [countCode statsGet].
  - destruct (jstring_eqb code k); reflexivity.
  - destruct (jstring_eqb k' code) eqn:Hk'; cbn [statsGet].
    + apply jstring_eqb_eq in Hk'. subst k'.
      destruct (jstring_eqb code k); reflexivity.
    + rewrite IH. destruct (jstring_eqb k' k) eqn:Hkk; [| reflexivity].
      apply jstring_eqb_eq in Hkk. subst k'. apply jstring_eqb_neq in Hk'.
      replace (jstring_eqb code k) with false
        by (symmetry; apply jstring_eqb_neq; congruence).
      reflexivity.
Qed.

Lemma countCode_total :
  forall stats code,
    list_sum (map snd (countCode code stats)) = S (list_sum (map snd stats)).
Proof.
  induction stats as [| [k n] stats IH]; intros code; cbn [countCode]; [reflexivity |].
  destruct (jstring_eqb k code); cbn [map snd]; unfold list_sum in *;
    cbn [fold_right]; [lia |].
  rewrite IH. lia.
Qed.

Lemma getErrorStats_fold :
  forall errorLog stats code,
    statsGet code
      (fold_left (fun stats error => countCode (ErrorInfo.code error) stats) errorLog stats) =
    match (length (withCode code errorLog)
           + match statsGet code stats with Some n => n | None => 0 end)%nat with
    | O => statsGet code stats
    | S n => Some (S n)
    end /\
    list_sum (map snd
      (fold_left (fun stats error => countCode (ErrorInfo.code error) stats) errorLog stats))
    = (length errorLog + list_sum (map snd stats))%nat.
Proof.
  intros errorLog.
  induction errorLog as [| info errorLog IH]; intros stats code; cbn [fold_left].
  - cbn [withCode filter length]. split; [| reflexivity].
    destruct (statsGet code stats) as [[| n] |] eqn:H; reflexivity.
  - destruct (IH (countCode (ErrorInfo.code info) stats) code) as [IH1 IH2].
    rewrite IH1, IH2, countCode_get, countCode_total. split; [| cbn [length]; lia].
    unfold withCode. cbn [filter].
    destruct (jstring_eqb (ErrorInfo.code info) code) eqn:Hc; cbn [length].
    + rewrite Nat.add_succ_r. reflexivity.
    + reflexivity.
Qed.

(** X3. [getErrorStats()] counts the log by code: for a log of the
    classifier, [stats[code]] is the number of entries with that code
    ([undefined] when there is none), and the counts add up to the length of
    the log. *)
Theorem getErrorStats_counts :
  forall errorLog,
    classifierLog errorLog ->
    let stats := getErrorStats errorLog in
    (forall code,
        statsGet code stats =
        match length (withCode code errorLog) with
        | O => None
        | S n => Some (S n)
        end) /\
    list_sum (map snd stats) = length errorLog.
Proof.
  intros errorLog _ stats. subst stats. unfold getErrorStats. split.
  - intros code. destruct (getErrorStats_fold errorLog [] code) as [H _].
    rewrite H. cbn [statsGet]. rewrite Nat.add_0_r. reflexivity.
  - destruct (getErrorStats_fold errorLog [] []) as [_ H].
    rewrite H. cbn [map]. unfold list_sum. cbn [fold_right]. lia.
Qed.

Lemma sampleLog_classifier : classifierLog sampleLog.
Proof. repeat constructor; do 3 eexists; reflexivity. Qed.

Lemma getErrorStats_counts_witness :
  classifierLog sampleLog /\
  statsGet (lit "TIMEOUT") (getErrorStats sampleLog) = Some 2%nat /\
  statsGet (lit "RATE_LIMIT") (getErrorStats sampleLog) = None.
Proof.
  split; [exact sampleLog_classifier |].
  destruct (getErrorStats_counts sampleLog sampleLog_classifier) as [H _].
  split; rewrite H; reflexivity.
Defined.

Lemma categorizeError_severity :
  forall error context timestamp,
    ErrorInfo.severity (categorizeError error context timestamp) <> critical.
Proof. intros. by_rule; discriminate. Qed.

Lemma classifierLog_no_critical :
  forall errorLog,
    classifierLog errorLog ->
    filter (fun error => Severity_eqb (ErrorInfo.severity error) critical) errorLog = [].
Proof.
  intros errorLog H. induction H as [| info errorLog (e & c & t & ->) _ IH]; [reflexivity |].
  cbn [filter].
  pose proof (categorizeError_severity e c t) as Hs.
  destruct (ErrorInfo.severity (categorizeError e c t)); [| | | contradiction];
    exact IH.
Qed.

Lemma classifierLog_sliceFrom :
  forall errorLog start, classifierLog errorLog -> classifierLog (sliceFrom start errorLog).
Proof.
  intros errorLog start H. unfold sliceFrom, classifierLog in *.
  rewrite <- (firstn_skipn
                (Z.to_nat (if (start <? 0)%Z
                           then Z.max (Z.of_nat (length errorLog) + start) 0
                           else Z.min start (Z.of_nat (length errorLog)))) errorLog) in H.
  apply Forall_app in H. apply H.
Qed.

(** X4. The classifier never assigns the severity [critical], so for a log
    of the classifier [isSystemHealthy()] is decided by the high-severity
    entries alone: the system is healthy exactly when at most 5 of the 20
    most recent entries are high-severity (AUTH_ERROR or
    INTERNAL_SERVER_ERROR). *)
Theorem isSystemHealthy_classifier :
  forall errorLog,
    classifierLog errorLog ->
    (isSystemHealthy errorLog = true <->
     (length (getErrorsBySeverity (getRecentErrors errorLog 20) high) <= 5)%nat) /\
    (forall info, In info (getErrorsBySeverity errorLog high) ->
                  ErrorInfo.code info = lit "AUTH_ERROR" \/
                  ErrorInfo.code info = lit "INTERNAL_SERVER_ERROR").
Proof.
  intros errorLog Hlog. split.
  - unfold isSystemHealthy. cbv zeta.
    rewrite (classifierLog_no_critical (getRecentErrors errorLog 20))
      by (apply classifierLog_sliceFrom; exact Hlog).
    cbn [length Nat.leb andb]. unfold getErrorsBySeverity. apply Nat.leb_le.
  - intros info Hin. unfold getErrorsBySeverity in Hin. apply filter_In in Hin.
    destruct Hin as [Hin Hsev]. unfold classifierLog in Hlog.
    rewrite Forall_forall in Hlog. destruct (Hlog info Hin) as (e & c & t & ->).
    revert Hsev. by_rule; intros Hsev; try discriminate Hsev; auto.
Qed.

Lemma isSystemHealthy_classifier_witness :
  classifierLog sampleLog /\ isSystemHealthy sampleLog = true.
Proof.
  split; [exact sampleLog_classifier |].
  apply (proj1 (isSystemHealthy_classifier sampleLog sampleLog_classifier)).
  vm_compute. repeat constructor.
Defined.

Lemma objGet_objSet_same :
  forall o k v, objGet k (objSet k v o) = v.
Proof.
  induction o as [| [k' v'] o IH]; intros k v; cbn [objSet objGet].
  - rewrite jstring_eqb_refl. reflexivity.
  - destruct (jstring_eqb k' k) eqn:H; cbn [objGet]; rewrite H; [reflexivity | apply IH].
Qed.

Lemma objGet_objSet_other :
  forall o k k' v, k <> k' -> objGet k' (objSet k v o) = objGet k' o.
Proof.
  induction o as [| [k0 v0] o IH]; intros k k' v Hne; cbn [objSet objGet].
  - replace (jstring_eqb k k') with false
      by (symmetry; apply jstring_eqb_neq; exact Hne). reflexivity.
  - destruct (jstring_eqb k0 k) eqn:H; cbn [objGet].
    + apply jstring_eqb_eq in H. subst k0.
      replace (jstring_eqb k k') with false
        by (symmetry; apply jstring_eqb_neq; exact Hne). reflexivity.
    + destruct (jstring_eqb k0 k'); [reflexivity | apply IH; exact Hne].
Qed.

(** X5. The classification's context always holds the failure's message
    under [originalError], whatever the caller's context held there; every
    other key of the caller's context is kept, except [stack], which is
    overwritten with the failure's stack when (and only when) the code is
    UNKNOWN_ERROR. *)
Theorem categorizeError_context :
  forall error context timestamp,
    let info := categorizeError error context timestamp in
    objGet (lit "originalError") (ErrorInfo.context info) = JString (message error) /\
    (forall k, k <> lit "originalError" -> k <> lit "stack" ->
               objGet k (ErrorInfo.context info) = objGet k context) /\
    (ErrorInfo.code info = lit "UNKNOWN_ERROR" ->
     objGet (lit "stack") (ErrorInfo.context info) = optString (stack error)) /\
    (ErrorInfo.code info <> lit "UNKNOWN_ERROR" ->
     objGet (lit "stack") (ErrorInfo.context info) = objGet (lit "stack") context).
Proof.
  intros error context timestamp info. subst info.
  assert (Hne : lit "stack" <> lit "originalError") by (vm_compute; discriminate).
  split; [| split; [| split]].
  - by_rule; try apply objGet_objSet_same.
    rewrite objGet_objSet_other by exact Hne. apply objGet_objSet_same.
  - intros k H1 H2.
    by_rule; rewrite ?(objGet_objSet_other _ (lit "stack") k) by congruence;
      apply objGet_objSet_other; congruence.
  - by_rule; intros H; first [discriminate H | apply objGet_objSet_same].
  - by_rule; intros H;
      first [apply objGet_objSet_other; intros H'; apply Hne; symmetry; exact H'
            | contradiction H; reflexivity].
Qed.

(** ** Retry controller, for every operation *)

Section RetryLoopShape.
Variable T : Type.
Variable operation : nat -> Res T.
Variable context : JsObject.
Variable clock : nat -> jstring.
Variable random : nat -> Q.
Variable config : RetryConfig.

Lemma retryLoop_shape :
  forall remaining attempt log lastError slept,
    let run := retryLoop operation context clock random config
                 remaining attempt log lastError slept in
    exists k,
      (k <= remaining)%nat /\
      delays run =
        slept ++ map (fun a => calculateDelay a config (random a)) (seq attempt k) /\
      (forall i, (attempt <= i < attempt + k)%nat ->
                 failsRetryably operation context clock i /\
                 Z.of_nat i <> maxRetries config) /\
      errorLog run =
        fold_left logError
          (flat_map (failureInfo operation context clock)
                    (seq attempt (attempts run - attempt))) log /\
      ((k < remaining)%nat /\ stoppedAt T operation context clock config run (attempt + k) \/
       k = remaining /\ attempts run = (attempt + k)%nat /\
       exists e, outcome run = FailedLast e).
Proof.
  induction remaining as [| remaining IH]; intros attempt log lastError slept run; subst run.
  - exists 0%nat. cbn [retryLoop attempts delays outcome errorLog seq map].
    rewrite Nat.sub_diag. cbn [seq flat_map fold_left]. rewrite app_nil_r.
    repeat split; try lia. right. repeat split; try lia. eexists. reflexivity.
  - cbn [retryLoop]. destruct (operation attempt) as [v | error] eqn:Hop.
    + exists 0%nat. cbn [attempts delays outcome errorLog seq map].
      replace (S attempt - attempt)%nat with 1%nat by lia.
      cbn [seq flat_map]. unfold failureInfo at 1. rewrite Hop. cbn [app fold_left].
      rewrite app_nil_r. repeat split; try lia.
      left. split; [lia |]. rewrite Nat.add_0_r. split; [reflexivity |].
      left. exists v. split; [exact Hop | reflexivity].
    + destruct ((Z.of_nat attempt =? maxRetries config)%Z
                || negb (ErrorInfo.retryable
                           (categorizeError error context (clock attempt)))) eqn:Hstop.
      * exists 0%nat. cbn [attempts delays outcome errorLog seq map].
        replace (S attempt - attempt)%nat with 1%nat by lia.
        cbn [seq flat_map]. unfold failureInfo at 1. rewrite Hop. cbn [app fold_left].
        rewrite app_nil_r. repeat split; try lia.
        left. split; [lia |]. rewrite Nat.add_0_r. split; [reflexivity |].
        right. exists error. split; [exact Hop |]. split; [reflexivity |].
        apply orb_true_iff in Hstop. destruct Hstop as [H | H].
        -- left. apply Z.eqb_eq. exact H.
        -- right. apply negb_true_iff. exact H.
      * apply orb_false_iff in Hstop. destruct Hstop as [Hmax Hretry].
        apply Z.eqb_neq in Hmax. apply negb_false_iff in Hretry.
        destruct (IH (S attempt)
                     (logError log (categorizeError error context (clock attempt)))
                     (Some error)
                     (slept ++ [calculateDelay attempt config (random attempt)]))
          as (k & Hk & Hdelays & Hfails & Hlog & Hend).
        set (run := retryLoop operation context clock random config remaining
                      (S attempt)
                      (logError log (categorizeError error context (clock attempt)))
                      (Some error)
                      (slept ++ [calculateDelay attempt config (random attempt)])) in *.
        assert (Hatt : (S attempt <= attempts run)%nat).
        { destruct Hend as [[_ [H _]] | [_ [H _]]]; lia. }
        exists (S k). split; [lia |]. split; [| split; [| split]].
        -- rewrite Hdelays, <- app_assoc. reflexivity.
        -- intros i Hi. destruct (Nat.eq_dec i attempt) as [-> | Hne].
           ++ split; [| exact Hmax]. exists error. split; assumption.
           ++ apply Hfails. lia.
        -- rewrite Hlog.
           replace (attempts run - attempt)%nat with (S (attempts run - S attempt)) by lia.
           cbn [seq flat_map]. unfold failureInfo at 2. rewrite Hop.
           cbn [app fold_left]. reflexivity.
        -- destruct Hend as [[Hlt Hstop] | [-> [Ha He]]].
           ++ left. split; [lia |].
              replace (attempt + S k)%nat with (S attempt + k)%nat by lia. exact Hstop.
           ++ right. split; [reflexivity |]. split; [lia | exact He].
Qed.
End RetryLoopShape.

(** X6. For every operation and every configuration: [executeWithRetry]
    invokes the operation at most [maxRetries + 1] times, sleeps exactly
    once between two consecutive invocations and never after the last, and
    every invocation but the last failed with a retryable classification.
    With [maxRetries >= 0] it invokes the operation at least once and ends
    at the last invocation, with its value or with the enhanced error of its
    failure (not retryable, or at attempt [maxRetries]); with a negative
    [maxRetries] it never invokes the operation, logs nothing and throws the
    initial [lastError], [null]. *)
Theorem executeWithRetry_any_operation :
  forall (T : Type) retryConfig log clock random (operation : nat -> Res T)
         context customConfig,
    let config := mergeConfig retryConfig customConfig in
    let run := executeWithRetry retryConfig log clock random operation context customConfig in
    (attempts run <= Z.to_nat (maxRetries config + 1))%nat /\
    length (delays run) = (attempts run - 1)%nat /\
    (forall i, (i < attempts run - 1)%nat -> failsRetryably operation context clock i) /\
    ((0 <= maxRetries config)%Z ->
     (1 <= attempts run)%nat /\
     stoppedAt T operation context clock config run (attempts run - 1)) /\
    ((maxRetries config < 0)%Z ->
     attempts run = 0%nat /\ outcome run = FailedLast None /\ errorLog run = log).
Proof.
  intros T retryConfig log clock random operation context customConfig config run.
  subst run. unfold executeWithRetry. fold config.
  destruct (retryLoop_shape T operation context clock random config
              (Z.to_nat (maxRetries config + 1)) 0 log None [])
    as (k & Hk & Hdelays & Hfails & _ & Hend).
  set (run := retryLoop operation context clock random config
                (Z.to_nat (maxRetries config + 1)) 0 log None []) in *.
  cbn [Nat.add app] in *.
  assert (Hlen : length (delays run) = k)
    by (rewrite Hdelays, length_map, length_seq; reflexivity).
  destruct Hend as [[Hlt [Hatt Hstop]] | [-> [Hatt He]]].
  - assert (Hk' : (attempts run - 1)%nat = k) by lia.
    rewrite Hk'.
    split; [lia |]. split; [exact Hlen |].
    split; [intros i Hi; apply Hfails; lia |].
    split; [intros _; split; [lia | split; [exact Hatt | exact Hstop]] |].
    intros Hneg. lia.
  - assert (Hneg : (maxRetries config < 0)%Z).
    { destruct (Z.ltb_spec (maxRetries config) 0) as [H | H]; [exact H | exfalso].
      destruct (Hfails (Z.to_nat (maxRetries config)) ltac:(lia)) as [_ Hne]. lia. }
    assert (Hzero : Z.to_nat (maxRetries config + 1) = 0%nat) by lia.
    assert (Hrun : run = mkRetryRun (FailedLast None) 0 [] log)
      by (subst run; rewrite Hzero; reflexivity).
    rewrite Hrun. cbn [attempts delays outcome errorLog length Nat.sub].
    split; [lia |]. split; [reflexivity |].
    split; [intros i Hi; lia |].
    split; [intros Hpos; lia |].
    intros _. repeat split.
Qed.

Lemma executeWithRetry_any_operation_witness :
  (0 <= maxRetries (mergeConfig defaultRetryConfig noCustomConfig))%Z /\
  (1 <= attempts (executeWithRetry defaultRetryConfig [] (fun _ => lit "t")
                    (fun _ => 1 # 2) failsTwice [] noCustomConfig))%nat.
Proof.
  assert (H : (0 <= maxRetries (mergeConfig defaultRetryConfig noCustomConfig))%Z)
    by (vm_compute; discriminate).
  split; [exact H |].
  destruct (executeWithRetry_any_operation nat defaultRetryConfig [] (fun _ => lit "t")
              (fun _ => 1 # 2) failsTwice [] noCustomConfig) as (_ & _ & _ & Hpos & _).
  exact (proj1 (Hpos H)).
Defined.

(** X7. Under exponential backoff no delay exceeds [maxDelay]; without it
    every delay is [baseDelay] itself, whether or not that exceeds
    [maxDelay], which is not consulted. *)
Theorem executeWithRetry_delay_bounds :
  forall (T : Type) retryConfig log clock random (operation : nat -> Res T)
         context customConfig,
    let config := mergeConfig retryConfig customConfig in
    let run := executeWithRetry retryConfig log clock random operation context customConfig in
    (exponentialBackoff config = true ->
     Forall (fun delay => delay <= maxDelay config) (delays run)) /\
    (exponentialBackoff config = false ->
     Forall (fun delay => delay = baseDelay config) (delays run)).
Proof.
  intros T retryConfig log clock random operation context customConfig config run.
  subst run. unfold executeWithRetry. fold config.
  destruct (retryLoop_shape T operation context clock random config
              (Z.to_nat (maxRetries config + 1)) 0 log None [])
    as (k & _ & Hdelays & _).
  rewrite Hdelays. cbn [app]. split; intros Hexp; apply Forall_forall; intros d Hd;
    apply in_map_iff in Hd; destruct Hd as (a & <- & _); unfold calculateDelay;
    rewrite Hexp; cbn [negb].
  - apply Q.le_min_r.
  - reflexivity.
Qed.

Lemma executeWithRetry_delay_bounds_witness :
  exponentialBackoff (mergeConfig defaultRetryConfig noCustomConfig) = true /\
  Forall (fun delay => delay <= 10000)
    (delays (executeWithRetry defaultRetryConfig [] (fun _ => lit "t")
               (fun _ => 1 # 2) failsTwice [] noCustomConfig)).
Proof.
  split; [reflexivity |].
  exact (proj1 (executeWithRetry_delay_bounds nat defaultRetryConfig [] (fun _ => lit "t")
                  (fun _ => 1 # 2) failsTwice [] noCustomConfig) eq_refl).
Defined.

Lemma logError_length :
  forall log info, (length (logError log info) <= 100)%nat.
Proof.
  intros log info. unfold logError, lastN.
  destruct (100 <? length (log ++ [info]))%nat eqn:Hfull.
  - rewrite length_skipn. lia.
  - apply Nat.ltb_ge in Hfull. exact Hfull.
Qed.

Lemma logError_classifier :
  forall log error context timestamp,
    classifierLog log ->
    classifierLog (logError log (categorizeError error context timestamp)).
Proof.
  intros log error context timestamp H.
  assert (Hall : classifierLog (log ++ [categorizeError error context timestamp])).
  { apply Forall_app. split; [exact H |]. constructor; [| constructor].
    do 3 eexists. reflexivity. }
  unfold logError. destruct (100 <? _)%nat; [| exact Hall].
  unfold lastN, classifierLog in *.
  rewrite <- (firstn_skipn
                (length (log ++ [categorizeError error context timestamp]) - 100)
                (log ++ [categorizeError error context timestamp])) in Hall.
  apply Forall_app in Hall. apply Hall.
Qed.

Lemma failureInfo_fold :
  forall (T : Type) (operation : nat -> Res T) context clock calls log,
    ((length log <= 100)%nat ->
     (length (fold_left logError
                (flat_map (failureInfo operation context clock) calls) log) <= 100)%nat) /\
    (classifierLog log ->
     classifierLog (fold_left logError
                      (flat_map (failureInfo operation context clock) calls) log)).
Proof.
  intros T operation context clock calls.
  induction calls as [| k calls IH]; intros log; [split; intros H; exact H |].
  cbn [flat_map]. rewrite fold_left_app.
  assert (Hk : failureInfo operation context clock k = [] \/
               exists error, failureInfo operation context clock k =
                             [categorizeError error context (clock k)]).
  { unfold failureInfo. destruct (operation k) as [v | error];
      [left | right; exists error]; reflexivity. }
  destruct Hk as [-> | [error ->]]; cbn [fold_left].
  - apply IH.
  - destruct (IH (logError log (categorizeError error context (clock k)))) as [H1 H2].
    split; intros H.
    + apply H1. apply logError_length.
    + apply H2. apply logError_classifier. exact H.
Qed.

(** X8. The error log after a call is the log before it with the
    classification of every failed invocation logged in order (a success
    logs nothing); a log of at most 100 entries stays so, and a log that
    holds only classifications of [categorizeError] stays so. *)
Theorem executeWithRetry_log :
  forall (T : Type) retryConfig log clock random (operation : nat -> Res T)
         context customConfig,
    let run := executeWithRetry retryConfig log clock random operation context customConfig in
    errorLog run =
      fold_left logError
        (flat_map (failureInfo operation context clock) (seq 0 (attempts run))) log /\
    ((length log <= 100)%nat -> (length (errorLog run) <= 100)%nat) /\
    (classifierLog log -> classifierLog (errorLog run)).
Proof.
  intros T retryConfig log clock random operation context customConfig run.
  subst run. unfold executeWithRetry.
  destruct (retryLoop_shape T operation context clock random
              (mergeConfig retryConfig customConfig)
              (Z.to_nat (maxRetries (mergeConfig retryConfig customConfig) + 1))
              0 log None [])
    as (k & _ & _ & _ & Hlog & _).
  rewrite Nat.sub_0_r in Hlog. rewrite Hlog.
  split; [reflexivity |]. apply failureInfo_fold.
Qed.

Lemma retryLoop_ignores_retryableErrors :
  forall (T : Type) (operation : nat -> Res T) context clock random config codes
         remaining attempt log lastError slept,
    retryLoop operation context clock random (withRetryableErrors config codes)
      remaining attempt log lastError slept =
    retryLoop operation context clock random config
      remaining attempt log lastError slept.
Proof.
  intros T operation context clock random config codes.
  induction remaining as [| remaining IH]; intros attempt log lastError slept;
    [reflexivity |].
  cbn [retryLoop]. destruct (operation attempt) as [v | error]; [reflexivity |].
  cbn [maxRetries withRetryableErrors].
  destruct ((Z.of_nat attempt =? maxRetries config)%Z
            || negb (ErrorInfo.retryable (categorizeError error context (clock attempt))));
    [reflexivity |].
  rewrite IH. reflexivity.
Qed.

(** X9. The [retryableErrors] list of the configuration is never consulted:
    whether a failure is retried depends on the classifier's [retryable]
    flag alone, so a call behaves the same whatever list the handler's
    configuration or the caller's custom configuration gives. *)
Theorem executeWithRetry_ignores_retryableErrors :
  forall (T : Type) retryConfig log clock random (operation : nat -> Res T) context
         maxRetries' baseDelay' maxDelay' exponentialBackoff' codes codes' codes'',
    executeWithRetry (withRetryableErrors retryConfig codes) log clock random operation
      context
      (mkPartialRetryConfig maxRetries' baseDelay' maxDelay' exponentialBackoff' codes') =
    executeWithRetry retryConfig log clock random operation context
      (mkPartialRetryConfig maxRetries' baseDelay' maxDelay' exponentialBackoff' codes'').
Proof.
  intros. unfold executeWithRetry. cbv zeta.
  rewrite <- (retryLoop_ignores_retryableErrors T operation context clock random
                (mergeConfig (withRetryableErrors retryConfig codes)
                   (mkPartialRetryConfig maxRetries' baseDelay' maxDelay'
                      exponentialBackoff' codes')) []).
  rewrite <- (retryLoop_ignores_retryableErrors T operation context clock random
                (mergeConfig retryConfig
                   (mkPartialRetryConfig maxRetries' baseDelay' maxDelay'
                      exponentialBackoff' codes'')) []).
  reflexivity.
Qed.

(** ** Provider calls and the fallback loop, in general *)

Section ChunkFailures.
Variable h : Helpers.
Variable w : World.

Lemma synthesizeChunks_first_failure :
  forall voiceId config enhancedChunks n i audioBuffers k chunk e,
    nth_error enhancedChunks k = Some chunk ->
    (forall j c, (j < k)%nat -> nth_error enhancedChunks j = Some c ->
                 exists audio,
                   elevenlabsGenerate w (i + j) voiceId c
                     (getDynamicVoiceSettings h c (i + j) config) = Ok audio) ->
    elevenlabsGenerate w (i + k) voiceId chunk
      (getDynamicVoiceSettings h chunk (i + k) config) = Throw e ->
    synthesizeChunks h w voiceId config n i enhancedChunks audioBuffers = Throw e.
Proof.
  intros voiceId config enhancedChunks.
  induction enhancedChunks as [| c rest IH];
    intros n i audioBuffers k chunk e Hk Hbefore Hfail.
  - destruct k; discriminate Hk.
  - cbn [synthesizeChunks]. destruct k as [| k].
    + injection Hk as ->. rewrite Nat.add_0_r in Hfail. rewrite Hfail. reflexivity.
    + destruct (Hbefore 0%nat c ltac:(lia) eq_refl) as [audio Haudio].
      rewrite Nat.add_0_r in Haudio. rewrite Haudio. cbn [bind].
      apply (IH n (S i) _ k chunk e Hk).
      * intros j c' Hj Hc'. replace (S i + j)%nat with (i + S j)%nat by lia.
        apply Hbefore; [lia | exact Hc'].
      * replace (S i + k)%nat with (i + S k)%nat by lia. exact Hfail.
Qed.

Lemma azureChunks_first_failure :
  forall region key config chunks i audioBuffers k chunk e,
    nth_error chunks k = Some chunk ->
    (forall j c, (j < k)%nat -> nth_error chunks j = Some c ->
                 azureFailure (azureFetch w (i + j) region key (azureSsml config c)) = None) ->
    azureFailure (azureFetch w (i + k) region key (azureSsml config chunk)) = Some e ->
    azureChunks w region key config i chunks audioBuffers = Throw e.
Proof.
  intros region key config chunks.
  induction chunks as [| c rest IH]; intros i audioBuffers k chunk e Hk Hbefore Hfail.
  - destruct k; discriminate Hk.
  - cbn [azureChunks]. fold (azureSsml config c). destruct k as [| k].
    + injection Hk as ->. rewrite Nat.add_0_r in Hfail.
      destruct (azureFetch w i region key (azureSsml config chunk)) as [body | status text | e'];
        cbn [azureFailure] in Hfail; [discriminate | |]; injection Hfail as <-; reflexivity.
    + pose proof (Hbefore 0%nat c ltac:(lia) eq_refl) as Hok.
      rewrite Nat.add_0_r in Hok.
      destruct (azureFetch w i region key (azureSsml config c)) as [body | status text | e'];
        cbn [azureFailure] in Hok; [| discriminate | discriminate].
      apply (IH (S i) _ k chunk e Hk).
      * intros j c' Hj Hc'. replace (S i + j)%nat with (i + S j)%nat by lia.
        apply Hbefore; [lia | exact Hc'].
      * replace (S i + k)%nat with (i + S k)%nat by lia. exact Hfail.
Qed.

Lemma azureChunks_all :
  forall region key config chunks i audioBuffers audio,
    (forall j c, nth_error chunks j = Some c ->
                 azureFetch w (i + j) region key (azureSsml config c)
                 = AzureOk (audio (i + j)%nat)) ->
    azureChunks w region key config i chunks audioBuffers =
    Ok (audioBuffers ++ map audio (seq i (length chunks))).
Proof.
  intros region key config chunks.
  induction chunks as [| c rest IH]; intros i audioBuffers audio Hall.
  - cbn [azureChunks length seq map]. rewrite app_nil_r. reflexivity.
  - cbn [azureChunks]. fold (azureSsml config c).
    pose proof (Hall 0%nat c eq_refl) as H0. rewrite Nat.add_0_r in H0. rewrite H0.
    rewrite (IH (S i) _ audio).
    + cbn [length seq map]. rewrite <- app_assoc. reflexivity.
    + intros j c' Hc'. replace (S i + j)%nat with (i + S j)%nat by lia.
      apply Hall. exact Hc'.
Qed.
End ChunkFailures.

(** X10. A chunk ElevenLabs fails to synthesize aborts the whole provider
    call: when the request for chunk [k] throws [e] (the requests before it
    having been answered), [generateWithElevenLabs] throws that same [e];
    no audio of the earlier chunks is returned or written. *)
Theorem generateWithElevenLabs_chunk_failure :
  forall h w script chunks config k chunk e,
    let enhancedChunks := splitEnhancedScript (enhanceScriptForRealism h script) in
    let voiceId := getRealisticVoiceId h (voice config) in
    envSet (ELEVENLABS_API_KEY w) = true ->
    nth_error enhancedChunks k = Some chunk ->
    (forall j c, (j < k)%nat -> nth_error enhancedChunks j = Some c ->
                 exists audio,
                   elevenlabsGenerate w j voiceId c
                     (getDynamicVoiceSettings h c j config) = Ok audio) ->
    elevenlabsGenerate w k voiceId chunk (getDynamicVoiceSettings h chunk k config)
    = Throw e ->
    generateWithElevenLabs h w script chunks config = Throw e.
Proof.
  intros h w script chunks config k chunk e enhancedChunks voiceId Hkey Hk Hbefore Hfail.
  unfold generateWithElevenLabs. rewrite Hkey. cbn [negb]. cbv zeta.
  fold enhancedChunks. fold voiceId.
  rewrite (synthesizeChunks_first_failure h w voiceId config enhancedChunks
             (length enhancedChunks) 0 [] k chunk e Hk Hbefore Hfail).
  reflexivity.
Qed.

Lemma generateWithElevenLabs_chunk_failure_witness :
  nth_error (splitEnhancedScript twoLongSentences) 1 = Some (repeat 98%N 300) /\
  generateWithElevenLabs plainHelpers elevenlabsQuotaWorld twoLongSentences []
    (buildConfig noOptions) = Throw (newError (lit "quota_exceeded")).
Proof.
  assert (Hk : nth_error (splitEnhancedScript twoLongSentences) 1 = Some (repeat 98%N 300))
    by (vm_compute; reflexivity).
  split; [exact Hk |].
  apply (generateWithElevenLabs_chunk_failure plainHelpers elevenlabsQuotaWorld
           twoLongSentences [] (buildConfig noOptions) 1 (repeat 98%N 300)).
  - reflexivity.
  - exact Hk.
  - intros j c Hj _. exists [Byte.x01].
    destruct j as [| j]; [reflexivity | lia].
  - reflexivity.
Defined.

(** X11. The Azure path stops at the first chunk whose response is not
    [ok]: it throws the rejection itself when [fetch] rejects, and for a
    response with a status an error whose message is
    ['Azure TTS API error: <status> - <body text>']; no later chunk
    changes that. *)
Theorem generateWithAzure_chunk_failure :
  forall h w script chunks config k chunk e,
    envSet (AZURE_SPEECH_KEY w) = true ->
    nth_error chunks k = Some chunk ->
    (forall j c, (j < k)%nat -> nth_error chunks j = Some c ->
                 azureFailure (azureFetch w j (azureRegion w) (azureKey w)
                                 (azureSsml config c)) = None) ->
    azureFailure (azureFetch w k (azureRegion w) (azureKey w) (azureSsml config chunk))
    = Some e ->
    generateWithAzure h w script chunks config = Throw e /\
    (forall status errorText,
        azureFetch w k (azureRegion w) (azureKey w) (azureSsml config chunk)
        = AzureNotOk status errorText ->
        message e = lit "Azure TTS API error: " ++ decimal status ++ lit " - " ++ errorText).
Proof.
  intros h w script chunks config k chunk e Hkey Hk Hbefore Hfail. split.
  - unfold generateWithAzure. rewrite Hkey. cbn [negb].
    rewrite (azureChunks_first_failure w (azureRegion w) (azureKey w) config chunks 0 []
               k chunk e Hk Hbefore Hfail).
    reflexivity.
  - intros status errorText Hresp. rewrite Hresp in Hfail. cbn [azureFailure] in Hfail.
    injection Hfail as <-. reflexivity.
Qed.

Lemma generateWithAzure_chunk_failure_witness :
  generateWithAzure plainHelpers azureDownWorld (lit "Hi. Ho.") [lit "Hi."; lit "Ho."]
    (buildConfig noOptions) = Throw (newError (lit "Azure TTS API error: 503 - down")).
Proof.
  apply (generateWithAzure_chunk_failure plainHelpers azureDownWorld (lit "Hi. Ho.")
           [lit "Hi."; lit "Ho."] (buildConfig noOptions) 0 (lit "Hi.")
           (newError (lit "Azure TTS API error: 503 - down"))).
  - reflexivity.
  - reflexivity.
  - intros j c Hj. lia.
  - reflexivity.
Defined.

(** X12. When Azure answers every chunk, the audio of the Azure path is the
    responses' bodies concatenated in chunk order, with nothing between
    them (the pauses of the ElevenLabs path are not inserted); it is what
    the enhancement pass receives, and what is written when enhancement is
    off; the reported size is the length of what is written. *)
Theorem generateWithAzure_all_chunks :
  forall h w script chunks config audio,
    envSet (AZURE_SPEECH_KEY w) = true ->
    (forall i c, nth_error chunks i = Some c ->
                 azureFetch w i (azureRegion w) (azureKey w) (azureSsml config c)
                 = AzureOk (audio i)) ->
    let combined := Buffer_concat (map audio (seq 0 (length chunks))) in
    exists synthesis,
      generateWithAzure h w script chunks config = Ok synthesis /\
      written synthesis =
        (if enhanceAudio config then enhanceAudioForRealism w combined config
         else combined) /\
      size (result synthesis) = Some (length (written synthesis)) /\
      length combined = list_sum (map (fun i => length (audio i)) (seq 0 (length chunks))).
Proof.
  intros h w script chunks config audio Hkey Hall combined.
  unfold generateWithAzure. rewrite Hkey. cbn [negb].
  rewrite (azureChunks_all w (azureRegion w) (azureKey w) config chunks 0 [] audio Hall).
  cbn [bind app]. fold combined.
  eexists. split; [reflexivity |]. cbn [written result size].
  split; [reflexivity |]. split; [reflexivity |].
  subst combined. unfold Buffer_concat.
  generalize (seq 0 (length chunks)). intros l.
  induction l as [| i l IH]; [reflexivity |].
  cbn [map concat]. rewrite length_app, IH. reflexivity.
Qed.

Lemma generateWithAzure_all_chunks_witness :
  exists synthesis,
    generateWithAzure plainHelpers brokenFfmpegWorld (lit "Hi. Ho.") [lit "Hi."; lit "Ho."]
      (buildConfig noOptions) = Ok synthesis /\
    size (result synthesis) = Some 2%nat.
Proof.
  destruct (generateWithAzure_all_chunks plainHelpers brokenFfmpegWorld (lit "Hi. Ho.")
              [lit "Hi."; lit "Ho."] (buildConfig noOptions) (fun _ => [Byte.x01])
              eq_refl)
    as (synthesis & Hgen & Hwritten & Hsize & _).
  - intros i c _. reflexivity.
  - exists synthesis. split; [exact Hgen |]. rewrite Hsize, Hwritten. reflexivity.
Defined.

Lemma generateWithProvider_ok :
  forall h w processedScript plan p config synthesis,
    generateWithProvider h w processedScript plan p config = Ok synthesis ->
    (p = lit "azure" \/ p = lit "elevenlabs") /\
    success (result synthesis) = true /\
    result_provider (result synthesis) = p /\
    size (result synthesis) = Some (length (written synthesis)) /\
    error (result synthesis) = None /\
    enhancedAudio (result synthesis) = Some (enhanceAudio config).
Proof.
  intros h w processedScript plan p config synthesis H.
  unfold generateWithProvider in H.
  destruct (jstring_eqb p (lit "elevenlabs")) eqn:He.
  - apply jstring_eqb_eq in He. subst p.
    unfold generateWithElevenLabs in H.
    destruct (negb (envSet (ELEVENLABS_API_KEY w))); [discriminate H |].
    cbv zeta in H.
    destruct (synthesizeChunks h w _ config _ 0 _ []) as [audioBuffers | e];
      cbn [bind] in H; [| discriminate H].
    injection H as <-. cbn [result written success result_provider size error enhancedAudio].
    repeat split. right. reflexivity.
  - destruct (jstring_eqb p (lit "azure")) eqn:Ha; [| discriminate H].
    apply jstring_eqb_eq in Ha. subst p.
    unfold generateWithAzure in H.
    destruct (negb (envSet (AZURE_SPEECH_KEY w))); [discriminate H |].
    destruct (azureChunks w _ _ config 0 plan []) as [audioBuffers | e];
      cbn [bind] in H; [| discriminate H].
    injection H as <-. cbn [result written success result_provider size error enhancedAudio].
    repeat split. left. reflexivity.
Qed.

Section FallbackInversion.
Variable h : Helpers.
Variable w : World.
Variable processedScript : jstring.
Variable plan : list jstring.
Variable config : TTSConfig.

Lemma tryProviders_found :
  forall providers lastError p synthesis lastError',
    tryProviders h w processedScript plan config providers lastError
    = (Some (p, synthesis), lastError') ->
    exists pre post,
      providers = pre ++ p :: post /\
      (forall q, In q pre -> skippedOrThrows h w processedScript plan config q) /\
      isProviderAvailable w p = true /\
      generateWithProvider h w processedScript plan p (mapVoiceForProvider config p)
      = Ok synthesis.
Proof.
  induction providers as [| q providers IH]; intros lastError p synthesis lastError' H.
  - discriminate H.
  - cbn [tryProviders] in H.
    destruct (isProviderAvailable w q) eqn:Hav; cbn [negb] in H.
    + destruct (generateWithProvider h w processedScript plan q
                  (mapVoiceForProvider config q)) as [s | e] eqn:Hgen.
      * destruct (generateWithProvider_ok _ _ _ _ _ _ _ Hgen) as (_ & Hok & _).
        rewrite Hok in H. injection H as <- <- <-.
        exists [], providers. repeat split; [intros r [] | exact Hav | exact Hgen].
      * destruct (IH _ _ _ _ H) as (pre & post & -> & Hpre & Hp & Hs).
        exists (q :: pre), post. repeat split; [| exact Hp | exact Hs].
        intros r [<- | Hr]; [right; exists e; exact Hgen | apply Hpre; exact Hr].
    + destruct (IH _ _ _ _ H) as (pre & post & -> & Hpre & Hp & Hs).
      exists (q :: pre), post. repeat split; [| exact Hp | exact Hs].
      intros r [<- | Hr]; [left; exact Hav | apply Hpre; exact Hr].
Qed.

Lemma tryProviders_none :
  forall providers lastError lastError',
    tryProviders h w processedScript plan config providers lastError = (None, lastError') ->
    forall p, In p providers -> skippedOrThrows h w processedScript plan config p.
Proof.
  induction providers as [| q providers IH]; intros lastError lastError' H p Hp.
  - destruct Hp.
  - cbn [tryProviders] in H.
    destruct (isProviderAvailable w q) eqn:Hav; cbn [negb] in H.
    + destruct (generateWithProvider h w processedScript plan q
                  (mapVoiceForProvider config q)) as [s | e] eqn:Hgen.
      * destruct (generateWithProvider_ok _ _ _ _ _ _ _ Hgen) as (_ & Hok & _).
        rewrite Hok in H. discriminate H.
      * destruct Hp as [<- | Hp]; [right; exists e; exact Hgen |].
        exact (IH _ _ H p Hp).
    + destruct Hp as [<- | Hp]; [left; exact Hav |].
      exact (IH _ _ H p Hp).
Qed.
End FallbackInversion.

Lemma generateAudio_used :
  forall h w script options,
    let config := buildConfig options in
    let plan := splitScript (enhanceScriptForRealism h script) 4000 in
    let r := fst (generateAudio h w script options) in
    success r = true ->
    exists pre p post synthesis,
      comesToUse h w script options pre p post synthesis /\
      snd (generateAudio h w script options) = Some (written synthesis) /\
      (p = lit "azure" \/ p = lit "elevenlabs") /\
      result_provider r = p /\
      size r = Some (length (written synthesis)) /\
      error r = None /\
      audioUrl r = audioUrl (result synthesis) /\
      chunks (metadata r) = Some (length plan) /\
      processingTime (metadata r) = elapsed w /\
      originalProvider (metadata r) = Some (originalProviderOf config) /\
      fallbackUsed (metadata r) = Some (negb (jstring_eqb p (originalProviderOf config))).
Proof.
  intros h w script options config plan r Hr. subst r.
  unfold generateAudio in *. fold config in Hr |- *. fold plan in Hr |- *.
  fold (originalProviderOf config) in Hr |- *.
  destruct (tryProviders h w (enhanceScriptForRealism h script) plan config
              (getProviderFallbackOrder (provider config)) None)
    as [[[p synthesis] |] lastError] eqn:Htry.
  - destruct (tryProviders_found _ _ _ _ _ _ _ _ _ _ Htry)
      as (pre & post & Horder & Hpre & Hav & Hgen).
    destruct (generateWithProvider_ok _ _ _ _ _ _ _ Hgen)
      as (Hp & _ & Hprov & Hsize & Herr & _).
    exists pre, p, post, synthesis.
    cbn [fst snd success result_provider size error audioUrl metadata chunks
         processingTime originalProvider fallbackUsed].
    split; [| repeat split; assumption].
    unfold comesToUse. cbv zeta. fold config. fold plan.
    repeat split; assumption.
  - cbn [fst success] in Hr. discriminate Hr.
Qed.

(** X13. [generateAudio] succeeds exactly when some provider of the fallback
    order is available and its call returns; it then leaves an audio file,
    and when it fails it leaves none. A provider's call that returns always
    reports success, so no provider is passed over for a result without
    [success]. *)
Theorem generateAudio_success_iff :
  forall h w script options,
    let config := buildConfig options in
    let processedScript := enhanceScriptForRealism h script in
    let plan := splitScript processedScript 4000 in
    let r := fst (generateAudio h w script options) in
    (success r = true <->
     exists p synthesis,
       In p (getProviderFallbackOrder (provider config)) /\
       isProviderAvailable w p = true /\
       generateWithProvider h w processedScript plan p (mapVoiceForProvider config p)
       = Ok synthesis) /\
    (success r = true <-> snd (generateAudio h w script options) <> None).
Proof.
  intros h w script options config processedScript plan r. subst r.
  unfold generateAudio. fold config. fold processedScript. fold plan.
  destruct (tryProviders h w processedScript plan config
              (getProviderFallbackOrder (provider config)) None)
    as [[[p synthesis] |] lastError] eqn:Htry; cbn [fst snd success].
  - destruct (tryProviders_found _ _ _ _ _ _ _ _ _ _ Htry)
      as (pre & post & Horder & Hpre & Hav & Hgen).
    destruct (generateWithProvider_ok _ _ _ _ _ _ _ Hgen) as (_ & Hok & _).
    split; split; intros _; try exact Hok; try discriminate.
    exists p, synthesis. rewrite Horder.
    split; [apply in_or_app; right; left; reflexivity | split; assumption].
  - pose proof (tryProviders_none _ _ _ _ _ _ _ _ Htry) as Hnone.
    split; split; try discriminate.
    + intros (p & synthesis & Hin & Hav & Hgen).
      destruct (Hnone p Hin) as [Hskip | [e He]]; congruence.
    + intros H. contradiction H. reflexivity.
Qed.

(** X14. What a successful [generateAudio] reports: the provider it names is
    the one it came to use, ['azure'] or ['elevenlabs'], every provider
    before it in the fallback order having been skipped or having thrown;
    the audio left is what that provider wrote and [size] is its length;
    [metadata.chunks] is the number of chunks of [generateAudio]'s own
    4000-character plan, and [metadata.processingTime] the time measured by
    [generateAudio], replacing the provider's. *)
Theorem generateAudio_success_report :
  forall h w script options,
    let plan := splitScript (enhanceScriptForRealism h script) 4000 in
    let r := fst (generateAudio h w script options) in
    success r = true ->
    exists pre p post synthesis,
      comesToUse h w script options pre p post synthesis /\
      snd (generateAudio h w script options) = Some (written synthesis) /\
      (p = lit "azure" \/ p = lit "elevenlabs") /\
      result_provider r = p /\
      size r = Some (length (written synthesis)) /\
      error r = None /\
      chunks (metadata r) = Some (length plan) /\
      processingTime (metadata r) = elapsed w.
Proof.
  intros h w script options plan r Hr.
  destruct (generateAudio_used h w script options Hr)
    as (pre & p & post & synthesis & H1 & H2 & H3 & H4 & H5 & H6 & _ & H8 & H9 & _).
  exists pre, p, post, synthesis. subst r.
  repeat (split; [assumption |]). assumption.
Qed.

Lemma generateAudio_success_report_witness :
  success (fst (generateAudio plainHelpers brokenFfmpegWorld (lit "Hello.") noOptions))
  = true /\
  exists pre p post synthesis,
    comesToUse plainHelpers brokenFfmpegWorld (lit "Hello.") noOptions pre p post synthesis /\
    result_provider (fst (generateAudio plainHelpers brokenFfmpegWorld (lit "Hello.")
                            noOptions)) = p.
Proof.
  assert (H : success (fst (generateAudio plainHelpers brokenFfmpegWorld (lit "Hello.")
                              noOptions)) = true) by (vm_compute; reflexivity).
  split; [exact H |].
  destruct (generateAudio_success_report plainHelpers brokenFfmpegWorld (lit "Hello.")
              noOptions H)
    as (pre & p & post & synthesis & H1 & _ & _ & H4 & _).
  exists pre, p, post, synthesis. split; [exact H1 | exact H4].
Defined.

(** X15. The [fallbackUsed] flag of a successful result compares the
    provider used with the provider requested, ['auto'] standing for
    ['elevenlabs']. Under ['auto'] the order tries Azure first, so a success
    with Azure, the first choice, is reported as a fallback and a success
    with ElevenLabs is not; for a requested name that is none of ['auto'],
    ['azure'] and ['elevenlabs'] every success is reported as a fallback. *)
Theorem generateAudio_fallbackUsed :
  forall h w script options,
    let config := buildConfig options in
    let r := fst (generateAudio h w script options) in
    success r = true ->
    originalProvider (metadata r) = Some (originalProviderOf config) /\
    fallbackUsed (metadata r)
    = Some (negb (jstring_eqb (result_provider r) (originalProviderOf config))) /\
    (provider config = lit "auto" ->
     originalProvider (metadata r) = Some (lit "elevenlabs") /\
     (result_provider r = lit "azure" -> fallbackUsed (metadata r) = Some true) /\
     (result_provider r = lit "elevenlabs" -> fallbackUsed (metadata r) = Some false)) /\
    (provider config <> lit "auto" -> provider config <> lit "azure" ->
     provider config <> lit "elevenlabs" ->
     fallbackUsed (metadata r) = Some true).
Proof.
  intros h w script options config r Hr.
  destruct (generateAudio_used h w script options Hr)
    as (pre & p & post & synthesis & _ & _ & Hp & Hprov & _ & _ & _ & _ & _ & Horig & Hfb).
  fold config in Horig, Hfb. fold r in Hprov, Horig, Hfb.
  rewrite Hprov. split; [exact Horig |]. split; [exact Hfb |]. split.
  - intros Hauto. rewrite Horig, Hfb. unfold originalProviderOf. rewrite Hauto.
    change (jstring_eqb (lit "auto") (lit "auto")) with true. cbv iota.
    split; [reflexivity |]. split; intros ->; reflexivity.
  - intros Hauto Hazure Hel. rewrite Hfb. unfold originalProviderOf.
    replace (jstring_eqb (provider config) (lit "auto")) with false
      by (symmetry; apply jstring_eqb_neq; exact Hauto).
    replace (jstring_eqb p (provider config)) with false; [reflexivity |].
    symmetry. apply jstring_eqb_neq. destruct Hp as [-> | ->]; congruence.
Qed.

Lemma generateAudio_fallbackUsed_witness :
  success (fst (generateAudio plainHelpers brokenFfmpegWorld (lit "Hello.") autoOptions))
  = true /\
  result_provider (fst (generateAudio plainHelpers brokenFfmpegWorld (lit "Hello.")
                          autoOptions)) = lit "azure" /\
  fallbackUsed (metadata (fst (generateAudio plainHelpers brokenFfmpegWorld (lit "Hello.")
                                 autoOptions))) = Some true.
Proof.
  assert (H : success (fst (generateAudio plainHelpers brokenFfmpegWorld (lit "Hello.")
                              autoOptions)) = true) by (vm_compute; reflexivity).
  split; [exact H |].
  assert (Hp : result_provider (fst (generateAudio plainHelpers brokenFfmpegWorld
                                       (lit "Hello.") autoOptions)) = lit "azure")
    by (vm_compute; reflexivity).
  split; [exact Hp |].
  destruct (generateAudio_fallbackUsed plainHelpers brokenFfmpegWorld (lit "Hello.")
              autoOptions H) as (_ & _ & Hauto & _).
  destruct (Hauto eq_refl) as (_ & Hazure & _).
  exact (Hazure Hp).
Defined.

Lemma dropWhile_all :
  forall p s, Forall (fun c => p c = true) s -> dropWhile p s = [].
Proof.
  intros p s H. induction H as [| c s Hc _ IH]; [reflexivity |].
  cbn [dropWhile]. rewrite Hc. exact IH.
Qed.

Lemma trim_all_white :
  forall s, Forall (fun c => isWhite c = true) s -> trim s = [].
Proof.
  intros s H. unfold trim, trimEnd, trimStart.
  rewrite (dropWhile_all isWhite s H). reflexivity.
Qed.

Lemma filter_nil_Forall :
  forall (A : Type) (f : A -> bool) l, filter f l = [] -> Forall (fun x => f x = false) l.
Proof.
  intros A f l. induction l as [| x l IH]; intros H; [constructor |].
  cbn [filter] in H. destruct (f x) eqn:Hx; [discriminate H |].
  constructor; [exact Hx | exact (IH H)].
Qed.

Lemma splitEnhanced_fold_blank :
  forall sentences st,
    Forall (fun s => trim s = []) sentences ->
    fold_left splitEnhancedStep sentences st = st.
Proof.
  induction sentences as [| s sentences IH]; intros st H; [reflexivity |].
  inversion H as [| ? ? Hs Hrest]; subst.
  cbn [fold_left]. destruct st as [chunks cur].
  unfold splitEnhancedStep at 2. rewrite Hs. cbn [truthy].
  apply IH. exact Hrest.
Qed.

Lemma splitEnhancedScript_blank :
  forall script,
    withoutWhiteAndTerminators script = [] -> splitEnhancedScript script = [].
Proof.
  intros script H.
  assert (Hpieces : Forall (fun s => trim s = []) (splitOnTerminators script false)).
  { pose proof (splitOnTerminators_text script false) as Htext. rewrite H in Htext.
    apply filter_nil_Forall in Htext. rewrite Forall_forall in Htext.
    pose proof (splitOnTerminators_no_terminator script false) as Hno.
    rewrite Forall_forall in Hno. apply Forall_forall. intros piece Hpiece.
    apply trim_all_white. apply Forall_forall. intros c Hc.
    specialize (Hno piece Hpiece). rewrite Forall_forall in Hno. specialize (Hno c Hc).
    assert (Hin : In c (concat (splitOnTerminators script false)))
      by (apply in_concat; exists piece; split; assumption).
    specialize (Htext c Hin). cbv beta in Htext. rewrite Hno, orb_false_r in Htext.
    apply negb_false_iff in Htext. exact Htext. }
  unfold splitEnhancedScript. cbv zeta.
  rewrite (splitEnhanced_fold_blank _ ([], []) Hpieces). reflexivity.
Qed.

(** X16. [splitEnhancedScript] plans no chunk at all exactly when the script
    has nothing but whitespace and sentence terminators: unlike
    [splitScript], which falls back to [[script]], it has no fallback. *)
Theorem splitEnhancedScript_empty_iff :
  forall script,
    (splitEnhancedScript script = [] <-> withoutWhiteAndTerminators script = []) /\
    (forall maxChunkLength, splitScript script maxChunkLength <> []).
Proof.
  intros script. split; [split |].
  - intros H. rewrite <- splitEnhancedScript_roundtrip, H. reflexivity.
  - apply splitEnhancedScript_blank.
  - intros m. apply splitScript_nonempty.
Qed.

(** X17. For a script that, once preprocessed, holds nothing but whitespace
    and terminators, the ElevenLabs path sends no request at all and still
    reports success: the audio it hands to the enhancement pass, and writes
    when enhancement is off, is empty. *)
Theorem generateWithElevenLabs_nothing_to_say :
  forall h w script chunks config,
    envSet (ELEVENLABS_API_KEY w) = true ->
    withoutWhiteAndTerminators (enhanceScriptForRealism h script) = [] ->
    exists synthesis,
      generateWithElevenLabs h w script chunks config = Ok synthesis /\
      success (result synthesis) = true /\
      written synthesis =
        (if enhanceAudio config then enhanceAudioForRealism w [] config else []) /\
      (forall generate,
          generateWithElevenLabs h (withElevenlabsGenerate w generate) script chunks config = Ok synthesis).
Proof.
  intros h w script chunks config Hkey Hblank.
  unfold generateWithElevenLabs. cbn [withElevenlabsGenerate ELEVENLABS_API_KEY].
  rewrite Hkey. cbn [negb].
  cbv zeta. rewrite (splitEnhancedScript_blank _ Hblank).
  cbn [length synthesizeChunks bind].
  eexists. split; [reflexivity |]. split; [reflexivity |]. split; [reflexivity |].
  intros generate. reflexivity.
Qed.

Lemma generateWithElevenLabs_nothing_to_say_witness :
  exists synthesis,
    generateWithElevenLabs plainHelpers elevenlabsQuotaWorld (lit " ?! ... ") []
      (buildConfig noOptions) = Ok synthesis /\
    written synthesis = [].
Proof.
  destruct (generateWithElevenLabs_nothing_to_say plainHelpers elevenlabsQuotaWorld
              (lit " ?! ... ") [] (buildConfig noOptions) eq_refl eq_refl)
    as (synthesis & Hgen & _ & Hwritten & _).
  exists synthesis. split; [exact Hgen |]. rewrite Hwritten. reflexivity.
Defined.

Section WithoutAzure.
Variable h : Helpers.
Variable w : World.
Variable fetch : nat -> jstring -> jstring -> jstring -> AzureResponse.

Lemma synthesizeChunks_withAzureFetch :
  forall voiceId config enhancedChunks n i audioBuffers,
    synthesizeChunks h (withAzureFetch w fetch) voiceId config n i enhancedChunks audioBuffers
    = synthesizeChunks h w voiceId config n i enhancedChunks audioBuffers.
Proof.
  intros voiceId config enhancedChunks.
  induction enhancedChunks as [| c rest IH]; intros n i audioBuffers; [reflexivity |].
  cbn [synthesizeChunks withAzureFetch elevenlabsGenerate].
  destruct (elevenlabsGenerate w i voiceId c (getDynamicVoiceSettings h c i config));
    cbn [bind]; [apply IH | reflexivity].
Qed.

Lemma generateWithElevenLabs_withAzureFetch :
  forall script chunks config,
    generateWithElevenLabs h (withAzureFetch w fetch) script chunks config
    = generateWithElevenLabs h w script chunks config.
Proof.
  intros script chunks config. unfold generateWithElevenLabs.
  rewrite synthesizeChunks_withAzureFetch. reflexivity.
Qed.

Lemma tryProviders_withAzureFetch :
  forall processedScript plan config providers lastError,
    envSet (AZURE_SPEECH_REGION w) = false ->
    tryProviders h (withAzureFetch w fetch) processedScript plan config providers lastError
    = tryProviders h w processedScript plan config providers lastError.
Proof.
  intros processedScript plan config providers lastError Hregion.
  revert lastError.
  induction providers as [| p providers IH]; intros lastError; [reflexivity |].
  cbn [tryProviders].
  change (isProviderAvailable (withAzureFetch w fetch) p) with (isProviderAvailable w p).
  destruct (isProviderAvailable w p) eqn:Hav; cbn [negb]; [| apply IH].
  unfold isProviderAvailable in Hav. unfold generateWithProvider.
  destruct (jstring_eqb p (lit "elevenlabs")).
  - rewrite generateWithElevenLabs_withAzureFetch.
    destruct (generateWithElevenLabs h w processedScript plan
                (mapVoiceForProvider config p)) as [s | e]; [| apply IH].
    destruct (success (result s)); [reflexivity | apply IH].
  - destruct (jstring_eqb p (lit "azure")); [| discriminate Hav].
    rewrite Hregion, andb_false_r in Hav. discriminate Hav.
Qed.
End WithoutAzure.

(** X18. Azure is used only when both its key and its region are set. With
    the region unset [generateWithAzure], called directly, would post to
    the default region ['southeastasia'], but [generateAudio] skips Azure:
    its result does not depend on what the Azure endpoint would answer. *)
Theorem generateAudio_skips_azure_without_region :
  forall h w script options fetch,
    envSet (AZURE_SPEECH_REGION w) = false ->
    azureRegion w = lit "southeastasia" /\
    isProviderAvailable w (lit "azure") = false /\
    generateAudio h (withAzureFetch w fetch) script options
    = generateAudio h w script options.
Proof.
  intros h w script options fetch Hregion. split; [| split].
  - unfold azureRegion. rewrite Hregion. reflexivity.
  - unfold isProviderAvailable.
    change (jstring_eqb (lit "azure") (lit "elevenlabs")) with false.
    change (jstring_eqb (lit "azure") (lit "azure")) with true. cbv iota.
    rewrite Hregion. apply andb_false_r.
  - unfold generateAudio. rewrite tryProviders_withAzureFetch by exact Hregion.
    reflexivity.
Qed.

Lemma generateAudio_skips_azure_without_region_witness :
  envSet (AZURE_SPEECH_REGION azureNoRegionWorld) = false /\
  error (fst (generateAudio plainHelpers azureNoRegionWorld (lit "Hello.") noOptions))
  = Some (lit "All TTS providers failed").
Proof.
  split; [reflexivity |].
  destruct (generateAudio_skips_azure_without_region plainHelpers azureNoRegionWorld
              (lit "Hello.") noOptions (fun _ _ _ _ => AzureRejected (newError (lit "never")))
              eq_refl) as (_ & _ & <-).
  vm_compute. reflexivity.
Defined.

Lemma lookupVoice_In :
  forall name table v,
    lookupVoice name table = Some v -> In (name, v) table.
Proof.
  intros name table v. induction table as [| [k v'] table IH]; intros H; [discriminate H |].
  cbn [lookupVoice] in H. destruct (jstring_eqb k name) eqn:Hk.
  - apply jstring_eqb_eq in Hk. injection H as <-. subst k. left. reflexivity.
  - right. exact (IH H).
Qed.

(** X19. [mapVoiceForProvider] changes nothing but the voice, and only for
    Azure. For Azure the voice becomes the table's Azure voice of the
    requested name, or ['en-US-DavisNeural'] when the name is not a key of
    the table, so that it is always one of the table's Azure voices (an
    Azure voice name given directly is not a key, and becomes the default);
    the ElevenLabs ids of the table are never used. *)
Theorem mapVoiceForProvider_spec :
  forall config p,
    let mapped := mapVoiceForProvider config p in
    mapped = withVoice config (voice mapped) /\
    (p <> lit "azure" -> mapped = config) /\
    (p = lit "azure" ->
     voice mapped =
       match lookupVoice (voice config) voiceMapping with
       | Some (azureVoice, _) => azureVoice
       | None => lit "en-US-DavisNeural"
       end /\
     In (voice mapped) (map (fun entry => fst (snd entry)) voiceMapping) /\
     lookupVoice (voice mapped) voiceMapping = None).
Proof.
  intros config p mapped. subst mapped. unfold mapVoiceForProvider.
  destruct (jstring_eqb p (lit "azure")) eqn:Hp.
  - apply jstring_eqb_eq in Hp. subst p.
    change (jstring_eqb (lit "azure") (lit "elevenlabs")) with false.
    destruct (lookupVoice (voice config) voiceMapping) as [[azureVoice id] |] eqn:Hlook;
      cbn [voice withVoice].
    + split; [reflexivity |]. split; [intros H; contradiction H; reflexivity |].
      intros _. split; [reflexivity |].
      apply lookupVoice_In in Hlook.
      assert (Hin : In azureVoice (map (fun entry => fst (snd entry)) voiceMapping)).
      { apply in_map_iff. exists (voice config, (azureVoice, id)).
        split; [reflexivity | exact Hlook]. }
      split; [exact Hin |].
      cbn in Hin.
      repeat (destruct Hin as [<- | Hin]; [vm_compute; reflexivity |]). destruct Hin.
    + split; [reflexivity |]. split; [intros H; contradiction H; reflexivity |].
      intros _. split; [reflexivity |].
      split; [left; reflexivity | vm_compute; reflexivity].
  - apply jstring_eqb_neq in Hp.
    assert (Hsame : (if jstring_eqb p (lit "elevenlabs") then config else config) = config)
      by (destruct (jstring_eqb p (lit "elevenlabs")); reflexivity).
    destruct (lookupVoice (voice config) voiceMapping) as [[azureVoice id] |];
      rewrite ?Hsame; (split; [destruct config; reflexivity |]);
      (split; [reflexivity | intros H; contradiction]).
Qed.

Lemma tryProviders_none_available :
  forall h w processedScript plan config providers lastError,
    (forall p, isProviderAvailable w p = false) ->
    tryProviders h w processedScript plan config providers lastError = (None, lastError).
Proof.
  intros h w processedScript plan config providers lastError Hnone.
  induction providers as [| p providers IH]; [reflexivity |].
  cbn [tryProviders]. rewrite Hnone. exact IH.
Qed.

(** X20. [getAvailableProviders()] lists exactly the providers
    [isProviderAvailable] accepts, ElevenLabs first; when it lists none,
    [generateAudio] calls no provider and fails, for every script and every
    option, with the error ['All TTS providers failed']. *)
Theorem getAvailableProviders_spec :
  forall h w,
    (forall p, In p (getAvailableProviders w) <-> isProviderAvailable w p = true) /\
    (getAvailableProviders w = [] ->
     forall script options,
       let r := fst (generateAudio h w script options) in
       success r = false /\
       error r = Some (lit "All TTS providers failed") /\
       snd (generateAudio h w script options) = None).
Proof.
  intros h w.
  assert (Hiff : forall p, In p (getAvailableProviders w) <-> isProviderAvailable w p = true).
  { intros p. unfold getAvailableProviders. split.
    - intros Hin. apply in_app_or in Hin.
      destruct (isProviderAvailable w (lit "elevenlabs")) eqn:He;
        destruct (isProviderAvailable w (lit "azure")) eqn:Ha;
        destruct Hin as [Hin | Hin]; cbn [In] in Hin;
        try contradiction; destruct Hin as [<- | []]; assumption.
    - intros Hav. unfold isProviderAvailable in Hav.
      destruct (jstring_eqb p (lit "elevenlabs")) eqn:He.
      + apply jstring_eqb_eq in He. subst p. apply in_or_app. left.
        unfold isProviderAvailable.
        change (jstring_eqb (lit "elevenlabs") (lit "elevenlabs")) with true. cbv iota.
        rewrite Hav. left. reflexivity.
      + destruct (jstring_eqb p (lit "azure")) eqn:Ha; [| discriminate Hav].
        apply jstring_eqb_eq in Ha. subst p. apply in_or_app. right.
        unfold isProviderAvailable.
        change (jstring_eqb (lit "azure") (lit "elevenlabs")) with false.
        change (jstring_eqb (lit "azure") (lit "azure")) with true. cbv iota.
        rewrite Hav. left. reflexivity. }
  split; [exact Hiff |].
  intros Hnone script options r. subst r.
  assert (Hall : forall p, isProviderAvailable w p = false).
  { intros p. destruct (isProviderAvailable w p) eqn:Hp; [| reflexivity].
    apply Hiff in Hp. rewrite Hnone in Hp. destruct Hp. }
  unfold generateAudio. rewrite tryProviders_none_available by exact Hall.
  cbn [fst snd success error failureMessage]. repeat split.
Qed.

(** ** Characters of the planned chunks *)

Lemma splitOnTerminators_chars :
  forall s inTerms,
    Forall (Forall (fun c => In c s /\ isTerminator c = false)) (splitOnTerminators s inTerms).
Proof.
  induction s as [| c s IH]; intros inTerms; cbn [splitOnTerminators].
  - repeat constructor.
  - assert (Hweak : forall b,
               Forall (Forall (fun d => In d (c :: s) /\ isTerminator d = false))
                      (splitOnTerminators s b)).
    { intros b. eapply Forall_impl; [| apply (IH b)].
      intros piece Hp. eapply Forall_impl; [| exact Hp].
      intros d [Hd Ht]. split; [right; exact Hd | exact Ht]. }
    destruct (isTerminator c) eqn:Hc.
    + destruct inTerms; [apply Hweak | constructor; [constructor | apply Hweak]].
    + specialize (Hweak false).
      destruct (splitOnTerminators s false) as [| piece pieces].
      * repeat constructor. exact Hc.
      * inversion Hweak as [| ? ? Hp Hps]; subst.
        constructor; [| exact Hps].
        constructor; [split; [left; reflexivity | exact Hc] | exact Hp].
Qed.

Lemma splitEnhanced_fold_Forall :
  forall (P : N -> Prop),
    P 46%N -> P 32%N ->
    forall sentences (chunks : list jstring) (cur : jstring),
      Forall (Forall P) sentences ->
      Forall (Forall P) chunks ->
      Forall P cur ->
      Forall (Forall P) (fst (fold_left splitEnhancedStep sentences (chunks, cur))) /\
      Forall P (snd (fold_left splitEnhancedStep sentences (chunks, cur))).
Proof.
  intros P Hdot Hspace.
  induction sentences as [| s sentences IH]; intros chunks cur Hs Hchunks Hcur.
  - cbn [fold_left fst snd]. split; assumption.
  - cbn [fold_left]. inversion Hs as [| ? ? Hs1 Hs2]; subst.
    destruct (splitEnhancedStep_cases chunks cur s)
      as [[-> _] | [[-> _] | [[-> _] | (sep & -> & Hsep & _)]]];
      apply IH; try assumption.
    + apply Forall_app. split; [exact Hchunks |].
      constructor; [apply trim_Forall; exact Hcur | constructor].
    + apply Forall_app. split; [exact Hcur |]. apply Forall_app. split; [| exact Hs1].
      destruct Hsep as [-> | ->]; repeat constructor; assumption.
Qed.

Lemma splitEnhancedScript_chars :
  forall script chunk c,
    In chunk (splitEnhancedScript script) -> In c chunk ->
    (In c script /\ isTerminator c = false) \/ c = 46%N \/ c = 32%N.
Proof.
  intros script chunk c Hin Hc.
  set (P := fun c => (In c script /\ isTerminator c = false) \/ c = 46%N \/ c = 32%N).
  assert (Hpieces : Forall (Forall P) (splitOnTerminators script false)).
  { eapply Forall_impl; [| apply splitOnTerminators_chars].
    intros piece Hp. eapply Forall_impl; [| exact Hp].
    intros d Hd. left. exact Hd. }
  destruct (splitEnhanced_fold_Forall P (or_intror (or_introl eq_refl))
              (or_intror (or_intror eq_refl))
              (splitOnTerminators script false) [] [] Hpieces
              (Forall_nil _) (Forall_nil _)) as [H1 H2].
  unfold splitEnhancedScript in Hin.
  match type of Hin with
  | context [fold_left ?f ?l ?a] => destruct (fold_left f l a) as [chunks cur] eqn:Hf
  end.
  rewrite (Hf : fold_left _ _ (@pair (list jstring) jstring [] []) = _) in H1, H2.
  cbn [fst snd] in H1, H2. rewrite Forall_forall in H1.
  assert (Hchunk : Forall P chunk).
  { destruct (truthy cur).
    - apply in_app_or in Hin. destruct Hin as [Hin | [<- | []]].
      + apply H1. exact Hin.
      + apply trim_Forall. exact H2.
    - apply H1. exact Hin. }
  rewrite Forall_forall in Hchunk. exact (Hchunk c Hc).
Qed.

(** X21. A chunk [splitEnhancedScript] plans is made of characters of the
    script that are not sentence terminators, and of the [". "] it joins
    sentences with. So no chunk contains a question mark:
    [getDynamicVoiceSettings] never sees a question, and the style it sends
    for a planned chunk is 0.9 or 0.5, never the 0.7 of questions. *)
Theorem splitEnhancedScript_no_question :
  forall script chunk,
    In chunk (splitEnhancedScript script) ->
    (forall c, In c chunk ->
               (In c script /\ isTerminator c = false) \/ c = 46%N \/ c = 32%N) /\
    includes chunk (lit "?") = false /\
    (dynamicStyle chunk = Fin (9 # 10) \/ dynamicStyle chunk = Fin (1 # 2)).
Proof.
  intros script chunk Hin.
  assert (Hchars : forall c, In c chunk ->
             (In c script /\ isTerminator c = false) \/ c = 46%N \/ c = 32%N)
    by (intros c Hc; exact (splitEnhancedScript_chars script chunk c Hin Hc)).
  assert (Hq : includes chunk (lit "?") = false).
  { change (lit "?") with [63%N]. rewrite includes_single.
    destruct (existsb (N.eqb 63) chunk) eqn:Hex; [| reflexivity].
    apply existsb_exists in Hex. destruct Hex as (c & Hc & Heq).
    apply N.eqb_eq in Heq. subst c.
    destruct (Hchars 63%N Hc) as [[_ Ht] | [H | H]]; discriminate. }
  split; [exact Hchars |]. split; [exact Hq |].
  unfold dynamicStyle. cbv zeta. rewrite Hq.
  match goal with
  | |- context [if ?b then _ else _] => destruct b
  end; [left | right]; reflexivity.
Qed.

Lemma splitEnhancedScript_no_question_witness :
  In (lit "Is it so") (splitEnhancedScript (lit "Is it so?")) /\
  dynamicStyle (lit "Is it so?") = Fin (7 # 10) /\
  dynamicStyle (lit "Is it so") = Fin (1 # 2).
Proof.
  assert (Hin : In (lit "Is it so") (splitEnhancedScript (lit "Is it so?")))
    by (left; reflexivity).
  split; [exact Hin |]. split; [reflexivity |].
  destruct (splitEnhancedScript_no_question (lit "Is it so?") (lit "Is it so") Hin)
    as (_ & _ & [H | H]); [discriminate H | exact H].
Defined.

(** ** Pauses of a synthesis *)

Lemma planned_chunk_pause :
  forall script chunk,
    In chunk (splitEnhancedScript script) ->
    generateNaturalPause chunk = Buffer_alloc (Z.to_nat 70560).
Proof.
  intros script chunk Hin.
  assert (Hno : includes chunk (lit "!") = false).
  { change (lit "!") with [33%N]. rewrite includes_single.
    destruct (existsb (N.eqb 33) chunk) eqn:Hex; [| reflexivity].
    apply existsb_exists in Hex. destruct Hex as (c & Hc & Heq).
    apply N.eqb_eq in Heq. subst c.
    destruct (splitEnhancedScript_chars script chunk 33%N Hin Hc) as [[_ Ht] | [H | H]];
      discriminate. }
  unfold generateNaturalPause. rewrite Hno. do 2 f_equal.
Qed.

(** C3, at the failing input: two sentences of 300 characters, the first
    ending in an exclamation mark, synthesized by ElevenLabs. The planner
    splits on the terminators, so the chunk of the first sentence has lost
    its exclamation mark by the time [generateNaturalPause] looks for one:
    the silence after it is the 0.8 s one, 70560 zero bytes, where the same
    chunk with its exclamation mark would get 132300. The audio left is
    the two chunks' audio with that short silence between them. It is so
    for every script: in a synthesis whose chunks all succeed, every
    silence segment is the short one. *)
Theorem pause_after_exclamation_is_short :
  (nth_error twoLongSentences 300 = Some 33%N /\
   splitEnhancedScript (enhanceScriptForRealism plainHelpers twoLongSentences)
   = [repeat 97%N 300; repeat 98%N 300] /\
   generateNaturalPause (repeat 97%N 300) = Buffer_alloc (Z.to_nat 70560) /\
   generateNaturalPause (repeat 97%N 300 ++ lit "!") = Buffer_alloc (Z.to_nat 132300) /\
   snd (generateAudio plainHelpers elevenlabsWorld twoLongSentences noOptions)
   = Some ([Byte.x01] ++ Buffer_alloc (Z.to_nat 70560) ++ [Byte.x01])) /\
  (forall h w script chunks config audio,
      envSet (ELEVENLABS_API_KEY w) = true ->
      let enhancedChunks := splitEnhancedScript (enhanceScriptForRealism h script) in
      let n := length enhancedChunks in
      allSynthesized h w (getRealisticVoiceId h (voice config)) config enhancedChunks audio ->
      let segments := segmentsWithPauses enhancedChunks (map audio (seq 0 n)) in
      (exists synthesis,
          generateWithElevenLabs h w script chunks config = Ok synthesis /\
          written synthesis =
            if enhanceAudio config
            then enhanceAudioForRealism w (Buffer_concat segments) config
            else Buffer_concat segments) /\
      forall i, (S i < n)%nat ->
                nth_error segments (2 * i + 1) = Some (Buffer_alloc (Z.to_nat 70560))).
Proof.
  split.
  - split; [reflexivity |]. split; [vm_compute; reflexivity |].
    split; [unfold generateNaturalPause;
            replace (includes (repeat 97%N 300) (lit "!")) with false
              by (vm_compute; reflexivity);
            do 2 f_equal |].
    split; [unfold generateNaturalPause;
            replace (includes (repeat 97%N 300 ++ lit "!") (lit "!")) with true
              by (vm_compute; reflexivity);
            do 2 f_equal |].
    assert (Hplan : splitEnhancedScript twoLongSentences
                    = [repeat 97%N 300; repeat 98%N 300]) by (vm_compute; reflexivity).
    assert (Hpause : generateNaturalPause (repeat 97%N 300)
                     = Buffer_alloc (Z.to_nat 70560)).
    { unfold generateNaturalPause.
      replace (includes (repeat 97%N 300) (lit "!")) with false
        by (vm_compute; reflexivity).
      do 2 f_equal. }
    destruct (reassembly_spec plainHelpers elevenlabsWorld twoLongSentences
                (splitScript twoLongSentences 4000) (buildConfig noOptions)
                (fun _ => [Byte.x01]) eq_refl)
      as (_ & _ & (synthesis & Hgen & Hok & Hwritten) & _).
    { intros i chunk _. reflexivity. }
    cbn [enhanceScriptForRealism plainHelpers] in Hwritten. rewrite Hplan in Hwritten.
    cbn [length seq map segmentsWithPauses] in Hwritten. rewrite Hpause in Hwritten.
    destruct (generateAudio_reaches plainHelpers elevenlabsWorld twoLongSentences noOptions
                [lit "azure"] (lit "elevenlabs") [] synthesis eq_refl) as (_ & _ & _ & _ & Hfile).
    + intros q [<- | []]. left. reflexivity.
    + reflexivity.
    + exact Hgen.
    + exact Hok.
    + rewrite Hfile, Hwritten. reflexivity.
  - intros h w script chunks config audio Hkey enhancedChunks n Hall segments.
    destruct (reassembly_spec h w script chunks config audio Hkey Hall)
      as (_ & Hnth & (synthesis & Hgen & _ & Hwritten) & _).
    fold enhancedChunks in Hnth, Hwritten. fold n in Hnth, Hwritten.
    fold segments in Hnth, Hwritten.
    split; [exists synthesis; split; assumption |].
    intros i Hi.
    destruct (nth_error enhancedChunks i) as [chunk |] eqn:Hchunk.
    + destruct (Hnth i chunk Hchunk) as [_ Hpause].
      rewrite (Hpause Hi). f_equal.
      apply (planned_chunk_pause (enhanceScriptForRealism h script)).
      apply nth_error_In with (n := i). exact Hchunk.
    + apply nth_error_None in Hchunk. fold n in Hchunk. lia.
Qed.

(** ** Scraper *)

Lemma last_app_default :
  forall (A : Type) (a b : list A) d, last (a ++ b) d = last b (last a d).
Proof.
  intros A a. induction a as [| x a IH]; intros b d; [reflexivity |].
  rewrite <- app_comm_cons, !last_cons_default. apply IH.
Qed.

Section ScrapeLoop.
Variable scrapeWithPlaywright : nat -> Res ScrapingResult.
Variable scrapeWithCheerio : nat -> Res ScrapingResult.
Variable retries : Z.

Lemma tryMethods_pair :
  forall a b lastError,
    (exists result,
        tryMethods [a; b] lastError = (Some result, lastError) /\
        a = Ok result /\ acceptable result = true) \/
    (exists result lastError',
        tryMethods [a; b] lastError = (Some result, lastError') /\
        notTaken a /\ b = Ok result /\ acceptable result = true) \/
    (tryMethods [a; b] lastError
     = (None, last (map Some ((match a with Throw e => [e] | Ok _ => [] end)
                              ++ (match b with Throw e => [e] | Ok _ => [] end)))
                   lastError) /\
     notTaken a /\ notTaken b).
Proof.
  intros a b lastError. cbn [tryMethods].
  destruct a as [ra | ea]; [destruct (acceptable ra) eqn:Ha |].
  - left. exists ra. repeat split. exact Ha.
  - destruct b as [rb | eb]; [destruct (acceptable rb) eqn:Hb |].
    + right. left. exists rb, lastError. repeat split; assumption.
    + right. right. repeat split; assumption.
    + right. right. repeat split. exact Ha.
  - destruct b as [rb | eb]; [destruct (acceptable rb) eqn:Hb |].
    + right. left. exists rb, (Some ea). repeat split. exact Hb.
    + right. right. repeat split. exact Hb.
    + right. right. repeat split.
Qed.

Lemma scrapeLoop_shape :
  forall remaining attempt lastError slept,
    (Z.of_nat (attempt + remaining) = Z.max retries 0)%Z ->
    let '(found, lastError', slept') :=
      scrapeLoop scrapeWithPlaywright scrapeWithCheerio retries remaining attempt
        lastError slept in
    exists k,
      (k <= remaining)%nat /\
      (forall i, (attempt <= i < attempt + k)%nat ->
                 notTaken (scrapeWithPlaywright i) /\ notTaken (scrapeWithCheerio i)) /\
      match found with
      | Some result =>
          (k < remaining)%nat /\
          acceptable result = true /\
          (scrapeWithPlaywright (attempt + k)%nat = Ok result \/
           notTaken (scrapeWithPlaywright (attempt + k)%nat) /\
           scrapeWithCheerio (attempt + k)%nat = Ok result) /\
          slept' = slept ++ map (fun a => (1000 * (Z.of_nat a + 1))%Z) (seq attempt k)
      | None =>
          k = remaining /\
          lastError' =
            last (map Some (thrownAt scrapeWithPlaywright scrapeWithCheerio
                              (seq attempt remaining))) lastError /\
          slept' = slept ++ map (fun a => (1000 * (Z.of_nat a + 1))%Z)
                                (seq attempt (remaining - 1))
      end.
Proof.
  induction remaining as [| remaining IH]; intros attempt lastError slept Hn.
  - cbn [scrapeLoop]. exists 0%nat. split; [lia |]. split; [intros i Hi; lia |].
    cbn [seq map thrownAt flat_map last Nat.sub]. rewrite app_nil_r. repeat split.
  - cbn [scrapeLoop].
    destruct (tryMethods_pair (scrapeWithPlaywright attempt) (scrapeWithCheerio attempt)
                lastError)
      as [(result & -> & Ha & Hacc) | [(result & le & -> & Ha & Hb & Hacc) | (-> & Ha & Hb)]].
    + exists 0%nat. split; [lia |]. split; [intros i Hi; lia |].
      rewrite Nat.add_0_r. cbn [seq map]. rewrite app_nil_r.
      repeat split; [lia | exact Hacc | left; exact Ha].
    + exists 0%nat. split; [lia |]. split; [intros i Hi; lia |].
      rewrite Nat.add_0_r. cbn [seq map]. rewrite app_nil_r.
      repeat split; [lia | exact Hacc | right; split; assumption].
    + cbv zeta.
      match goal with
      | |- context [scrapeLoop _ _ _ remaining (S attempt) ?le ?sl] =>
          specialize (IH (S attempt) le sl ltac:(lia));
          destruct (scrapeLoop scrapeWithPlaywright scrapeWithCheerio retries remaining
                      (S attempt) le sl) as [[found lastError'] slept']
      end.
      destruct IH as (k & Hk & Hbefore & Hend).
      exists (S k). split; [lia |]. split.
      * intros i Hi. destruct (Nat.eq_dec i attempt) as [-> | Hne];
          [split; assumption | apply Hbefore; lia].
      * destruct found as [result |].
        -- destruct Hend as (Hlt & Hacc & Hwhich & Hslept).
           replace (attempt + S k)%nat with (S attempt + k)%nat by lia.
           split; [lia |]. split; [exact Hacc |]. split; [exact Hwhich |].
           rewrite Hslept.
           replace (Z.of_nat attempt <? retries - 1)%Z with true
             by (symmetry; apply Z.ltb_lt; lia).
           cbn [seq map]. rewrite <- app_assoc. reflexivity.
        -- destruct Hend as (-> & Hlast & Hslept).
           split; [reflexivity |]. split.
           ++ rewrite Hlast. cbn [seq thrownAt flat_map].
              fold (thrownAt scrapeWithPlaywright scrapeWithCheerio (seq (S attempt) remaining)).
              rewrite (map_app Some _ (thrownAt _ _ _)), last_app_default. reflexivity.
           ++ rewrite Hslept. replace (S remaining - 1)%nat with remaining by lia.
              destruct remaining as [| remaining'].
              ** replace (Z.of_nat attempt <? retries - 1)%Z with false
                   by (symmetry; apply Z.ltb_ge; lia).
                 reflexivity.
              ** replace (Z.of_nat attempt <? retries - 1)%Z with true
                   by (symmetry; apply Z.ltb_lt; lia).
                 replace (S remaining' - 1)%nat with remaining' by lia.
                 cbn [seq map]. rewrite <- app_assoc. reflexivity.
Qed.
End ScrapeLoop.

Lemma scrape_shape :
  forall scrapeWithPlaywright scrapeWithCheerio isoNow url retries_opt,
    let retries := orElse retries_opt 3%Z in
    let run := scrape scrapeWithPlaywright scrapeWithCheerio isoNow url retries_opt in
    (exists k,
        (Z.of_nat k < retries)%Z /\
        (forall i, (i < k)%nat ->
                   notTaken (scrapeWithPlaywright i) /\ notTaken (scrapeWithCheerio i)) /\
        acceptable (scraped run) = true /\
        (scrapeWithPlaywright k = Ok (scraped run) \/
         notTaken (scrapeWithPlaywright k) /\ scrapeWithCheerio k = Ok (scraped run)) /\
        scrapeDelays run = linearDelays k) \/
    ((forall i, (Z.of_nat i < retries)%Z ->
                notTaken (scrapeWithPlaywright i) /\ notTaken (scrapeWithCheerio i)) /\
     scraped run =
       {| scraping_success := false;
          scraping_title := [];
          scraping_content := [];
          scraping_wordCount := 0;
          scraping_url := url;
          scraping_extractedAt := isoNow;
          scraping_method := lit "cheerio";
          scraping_error :=
            Some (scrapeFailureMessage
                    (last (map Some (thrownAt scrapeWithPlaywright scrapeWithCheerio
                                       (seq 0 (Z.to_nat retries)))) None)) |} /\
     scrapeDelays run = linearDelays (Z.to_nat retries - 1)).
Proof.
  intros pw ch isoNow url retries_opt retries run. subst run. unfold scrape.
  fold retries.
  pose proof (scrapeLoop_shape pw ch retries (Z.to_nat retries) 0 None [] ltac:(lia)) as H.
  destruct (scrapeLoop pw ch retries (Z.to_nat retries) 0 None [])
    as [[[result |] lastError] slept];
    destruct H as (k & Hk & Hbefore & Hend); cbn [scraped scrapeDelays].
  - destruct Hend as (Hlt & Hacc & Hwhich & Hslept). left. exists k.
    split; [lia |]. split; [intros i Hi; apply Hbefore; lia |].
    split; [exact Hacc |]. split; [exact Hwhich |]. exact Hslept.
  - destruct Hend as (-> & Hlast & Hslept). right.
    split; [intros i Hi; apply Hbefore; lia |].
    rewrite Hlast, Hslept. split; reflexivity.
Qed.

(** X24. [scrape] returns the first acceptable answer (success with more than
    100 characters of content) in the order Playwright, Cheerio of attempt
    0, of attempt 1, ..., having slept [1000 * (a + 1)] ms after each
    attempt [a] before it; or, when no answer of the [retries] attempts is
    acceptable, the failure result, whose error is the message of the last
    error thrown (the default text when nothing was thrown or that message
    is empty), having slept after every attempt but the last. *)
Theorem scrape_cases :
  forall scrapeWithPlaywright scrapeWithCheerio isoNow url retries_opt,
    let retries := orElse retries_opt 3%Z in
    let run := scrape scrapeWithPlaywright scrapeWithCheerio isoNow url retries_opt in
    (exists k,
        (Z.of_nat k < retries)%Z /\
        (forall i, (i < k)%nat ->
                   notTaken (scrapeWithPlaywright i) /\ notTaken (scrapeWithCheerio i)) /\
        acceptable (scraped run) = true /\
        (scrapeWithPlaywright k = Ok (scraped run) \/
         notTaken (scrapeWithPlaywright k) /\ scrapeWithCheerio k = Ok (scraped run)) /\
        scrapeDelays run = linearDelays k) \/
    ((forall i, (Z.of_nat i < retries)%Z ->
                notTaken (scrapeWithPlaywright i) /\ notTaken (scrapeWithCheerio i)) /\
     scraping_success (scraped run) = false /\
     scraping_content (scraped run) = [] /\
     scraping_error (scraped run) =
       Some (scrapeFailureMessage
               (last (map Some (thrownAt scrapeWithPlaywright scrapeWithCheerio
                                  (seq 0 (Z.to_nat retries)))) None)) /\
     scrapeDelays run = linearDelays (Z.to_nat retries - 1)).
Proof.
  intros pw ch isoNow url retries_opt retries run.
  destruct (scrape_shape pw ch isoNow url retries_opt) as [H | (Hall & Hres & Hslept)].
  - left. exact H.
  - right. fold run in Hres, Hslept. rewrite Hres.
    cbn [scraping_success scraping_content scraping_error].
    split; [exact Hall |]. split; [reflexivity |]. split; [reflexivity |].
    split; [reflexivity | exact Hslept].
Qed.

(** X25. A result of [scrape] has [success] exactly when its content is
    longer than 100 characters: an answer that succeeded with less is never
    returned, and the failure result has no content. *)
Theorem scrape_success_iff_content :
  forall scrapeWithPlaywright scrapeWithCheerio isoNow url retries_opt,
    let run := scrape scrapeWithPlaywright scrapeWithCheerio isoNow url retries_opt in
    (scraping_success (scraped run) = true <->
     (100 < length (scraping_content (scraped run)))%nat) /\
    (scraping_success (scraped run) = false <-> scraping_error (scraped run) <> None
                                               /\ scraping_method (scraped run) = lit "cheerio"
                                               /\ scraping_content (scraped run) = []).
Proof.
  intros pw ch isoNow url retries_opt run.
  destruct (scrape_shape pw ch isoNow url retries_opt)
    as [(k & _ & _ & Hacc & _) | (_ & Hres & _)]; fold run in Hacc || fold run in Hres.
  - unfold acceptable in Hacc. apply andb_true_iff in Hacc. destruct Hacc as [Hs Hlen].
    apply Nat.ltb_lt in Hlen. rewrite Hs. split; split; intros H; try assumption;
      try reflexivity; try discriminate.
    destruct H as (_ & _ & Hc). rewrite Hc in Hlen. cbn [length] in Hlen. lia.
  - rewrite Hres. cbn [scraping_success scraping_content scraping_error scraping_method length].
    split; split; intros H; try discriminate; try lia; try reflexivity.
    repeat split. discriminate.
Qed.

Lemma linearDelays_nth :
  forall n a, (a < n)%nat -> nth a (linearDelays n) 0%Z = (1000 * (Z.of_nat a + 1))%Z.
Proof.
  intros n a Ha. unfold linearDelays.
  assert (H : forall start,
             nth a (map (fun k => (1000 * (Z.of_nat k + 1))%Z) (seq start n)) 0%Z
             = (1000 * (Z.of_nat (start + a) + 1))%Z).
  { revert a Ha. induction n as [| n IH]; intros a Ha start; [lia |].
    cbn [seq map nth]. destruct a as [| a]; [rewrite Nat.add_0_r; reflexivity |].
    rewrite IH by lia. f_equal. lia. }
  apply H.
Qed.

Lemma linearDelays_sum :
  forall n, fold_right Z.add 0%Z (linearDelays n) = (500 * Z.of_nat n * (Z.of_nat n + 1))%Z.
Proof.
  intros n. unfold linearDelays.
  assert (H : forall a, fold_right Z.add 0%Z
                          (map (fun k => (1000 * (Z.of_nat k + 1))%Z) (seq a n))
                        = (1000 * Z.of_nat n * Z.of_nat a
                           + 500 * Z.of_nat n * (Z.of_nat n + 1))%Z).
  { induction n as [| n IH]; intros a; [cbn; lia |].
    cbn [seq map fold_right]. rewrite IH. lia. }
  rewrite H. lia.
Qed.

(** X26. When no answer of any attempt is acceptable and [retries >= 1],
    [scrape] gives up after [retries] attempts with [success = false],
    having slept [retries - 1] times, 1000 ms more each time: the backoff
    is linear, [500 * retries * (retries - 1)] ms in all. *)
Theorem scrape_gives_up :
  forall scrapeWithPlaywright scrapeWithCheerio isoNow url retries_opt,
    let retries := orElse retries_opt 3%Z in
    let run := scrape scrapeWithPlaywright scrapeWithCheerio isoNow url retries_opt in
    (1 <= retries)%Z ->
    (forall i, (Z.of_nat i < retries)%Z ->
               notTaken (scrapeWithPlaywright i) /\ notTaken (scrapeWithCheerio i)) ->
    scraping_success (scraped run) = false /\
    scrapeDelays run = linearDelays (Z.to_nat retries - 1) /\
    length (scrapeDelays run) = (Z.to_nat retries - 1)%nat /\
    (forall a, (a < Z.to_nat retries - 1)%nat ->
               nth a (scrapeDelays run) 0%Z = (1000 * (Z.of_nat a + 1))%Z) /\
    fold_right Z.add 0%Z (scrapeDelays run) = (500 * retries * (retries - 1))%Z.
Proof.
  intros pw ch isoNow url retries_opt retries run Hpos Hall.
  destruct (scrape_shape pw ch isoNow url retries_opt)
    as [(k & Hk & _ & Hacc & Hwhich & _) | (_ & Hres & Hslept)].
  - exfalso. fold retries in Hk. fold run in Hacc, Hwhich.
    destruct (Hall k Hk) as [Hpw Hch].
    destruct Hwhich as [Hw | [_ Hw]]; [rewrite Hw in Hpw | rewrite Hw in Hch];
      cbn [notTaken] in *; congruence.
  - fold run in Hres, Hslept. fold retries in Hslept. rewrite Hres, Hslept.
    cbn [scraping_success]. split; [reflexivity |]. split; [reflexivity |].
    split; [unfold linearDelays; rewrite length_map, length_seq; reflexivity |].
    split.
    + intros a Ha. rewrite linearDelays_nth by exact Ha. reflexivity.
    + rewrite linearDelays_sum.
      replace (Z.of_nat (Z.to_nat retries - 1)) with (retries - 1)%Z by lia. ring.
Qed.

Lemma scrape_gives_up_witness :
  fold_right Z.add 0%Z
    (scrapeDelays (scrape (fun _ => Throw (newError (lit "browser crashed")))
                          (fun _ => Throw (newError (lit "HTTP 503: Service Unavailable")))
                          (lit "t0") (lit "https://example.org") None)) = 3000%Z.
Proof.
  destruct (scrape_gives_up (fun _ => Throw (newError (lit "browser crashed")))
              (fun _ => Throw (newError (lit "HTTP 503: Service Unavailable")))
              (lit "t0") (lit "https://example.org") None)
    as (_ & _ & _ & _ & Hsum).
  - cbn. lia.
  - intros i _. split; exact I.
  - exact Hsum.
Defined.

(** ** Classification of a rethrown error *)

Lemma categorizeError_message_cases :
  forall error context timestamp,
    let info := categorizeError error context timestamp in
    In (ErrorInfo.code info, ErrorInfo.message info) categoryMessages \/
    (ErrorInfo.code info = lit "UNKNOWN_ERROR" /\
     noRuleMatches (message error) /\
     ErrorInfo.message info =
       if truthy (message error) then message error
       else lit "An unknown error occurred").
Proof.
  intros error context timestamp info. subst info.
  pose proof (proj2 (categorizeError_unknown_iff error context timestamp)) as Hiff.
  revert Hiff. by_rule; intros Hiff;
    try (left; unfold categoryMessages; simpl; tauto).
  right. split; [reflexivity |]. split; [apply Hiff; reflexivity | reflexivity].
Qed.

(** X27. Classification is not stable under [enhanceError]: the error
    [executeWithRetry] throws carries the classifier's generic message, and
    those messages are capitalised where the rules look for lower-case
    words. Classified again, by a handler further up, it keeps its code only
    when that code is RATE_LIMIT or UNKNOWN_ERROR; every other failure,
    the retryable ones included, becomes UNKNOWN_ERROR, which is not
    retryable. The stack is the original error's throughout. *)
Theorem categorizeError_of_enhanced :
  forall error context timestamp context' timestamp',
    let info := categorizeError error context timestamp in
    let thrown := asError (enhanceError error info) in
    let again := categorizeError thrown context' timestamp' in
    stack thrown = stack error /\
    (ErrorInfo.code info = lit "RATE_LIMIT" ->
     ErrorInfo.code again = lit "RATE_LIMIT" /\ ErrorInfo.retryable again = true) /\
    (ErrorInfo.code info <> lit "RATE_LIMIT" ->
     ErrorInfo.code again = lit "UNKNOWN_ERROR" /\ ErrorInfo.retryable again = false).
Proof.
  intros error context timestamp context' timestamp' info thrown again.
  split; [reflexivity |].
  assert (Hunknown : forall m st,
             noRuleMatches m ->
             ErrorInfo.code (categorizeError (mkError m st) context' timestamp')
             = lit "UNKNOWN_ERROR" /\
             ErrorInfo.retryable (categorizeError (mkError m st) context' timestamp')
             = false).
  { intros m st Hm.
    assert (Hc : ErrorInfo.code (categorizeError (mkError m st) context' timestamp')
                 = lit "UNKNOWN_ERROR")
      by (apply categorizeError_unknown_iff; exact Hm).
    split; [exact Hc |]. revert Hc. by_rule; intros Hc; try discriminate Hc; reflexivity. }
  subst again thrown. unfold asError, enhanceError.
  cbn [enhanced_message enhanced_stack].
  destruct (categorizeError_message_cases error context timestamp) as [Hin | (Hc & Hno & Hm)];
    fold info in Hin || fold info in Hc, Hm.
  - unfold categoryMessages in Hin. cbn [In] in Hin.
    repeat (destruct Hin as [Hin | Hin];
            [injection Hin as Hcode Hmsg; rewrite <- Hcode, <- Hmsg;
             split; intros H;
             first [ split; reflexivity
                   | discriminate H
                   | contradiction H; reflexivity ] |]).
    destruct Hin.
  - rewrite Hc, Hm. split; [intros H; discriminate H |]. intros _.
    destruct (message error) as [| c m] eqn:Hmsg; cbn [truthy].
    + split; reflexivity.
    + apply Hunknown. exact Hno.
Qed.

(** ** The providers' plans *)

Lemma generateWithElevenLabs_ok :
  forall h w script chunks config synthesis,
    generateWithElevenLabs h w script chunks config = Ok synthesis ->
    let enhancedScript := enhanceScriptForRealism h script in
    let enhancedChunks := splitEnhancedScript enhancedScript in
    exists audioBuffers,
      synthesizeChunks h w (getRealisticVoiceId h (voice config)) config
        (length enhancedChunks) 0 enhancedChunks [] = Ok audioBuffers /\
      written synthesis = finalBufferOf w config audioBuffers /\
      duration (result synthesis) = Some (estimateAudioDuration h enhancedScript) /\
      result_voice (result synthesis) = voice config.
Proof.
  intros h w script chunks config synthesis H enhancedScript enhancedChunks.
  unfold generateWithElevenLabs in H.
  destruct (negb (envSet (ELEVENLABS_API_KEY w))); [discriminate H |].
  cbv zeta in H. fold enhancedScript in H. fold enhancedChunks in H.
  destruct (synthesizeChunks h w (getRealisticVoiceId h (voice config)) config
              (length enhancedChunks) 0 enhancedChunks []) as [audioBuffers | e];
    cbn [bind] in H; [| discriminate H].
  injection H as <-. exists audioBuffers. repeat split.
Qed.

Lemma generateWithAzure_ok :
  forall h w script chunks config synthesis,
    generateWithAzure h w script chunks config = Ok synthesis ->
    exists audioBuffers,
      azureChunks w (azureRegion w) (azureKey w) config 0 chunks [] = Ok audioBuffers /\
      written synthesis = finalBufferOf w config audioBuffers /\
      duration (result synthesis) = Some (estimateAudioDuration h script).
Proof.
  intros h w script chunks config synthesis H.
  unfold generateWithAzure in H.
  destruct (negb (envSet (AZURE_SPEECH_KEY w))); [discriminate H |].
  destruct (azureChunks w (azureRegion w) (azureKey w) config 0 chunks [])
    as [audioBuffers | e]; cbn [bind] in H; [| discriminate H].
  injection H as <-. exists audioBuffers. repeat split.
Qed.

(** X28. The two providers synthesize different plans of different texts.
    A success with ElevenLabs synthesized the 500-character plan of the
    script preprocessed twice (once by [generateAudio], once more by
    [generateWithElevenLabs]) and estimates the duration from that text; a
    success with Azure synthesized [generateAudio]'s 4000-character plan of
    the script preprocessed once. In both cases [metadata.chunks] counts the
    4000-character plan. *)
Theorem generateAudio_provider_plans :
  forall h w script options,
    let config := buildConfig options in
    let once := enhanceScriptForRealism h script in
    let twice := enhanceScriptForRealism h once in
    let r := fst (generateAudio h w script options) in
    success r = true ->
    chunks (metadata r) = Some (length (splitScript once 4000)) /\
    (result_provider r = lit "elevenlabs" ->
     let mapped := mapVoiceForProvider config (lit "elevenlabs") in
     let plan := splitEnhancedScript twice in
     duration r = Some (estimateAudioDuration h twice) /\
     exists audioBuffers,
       synthesizeChunks h w (getRealisticVoiceId h (voice mapped)) mapped
         (length plan) 0 plan [] = Ok audioBuffers /\
       snd (generateAudio h w script options)
       = Some (finalBufferOf w mapped audioBuffers)) /\
    (result_provider r = lit "azure" ->
     let mapped := mapVoiceForProvider config (lit "azure") in
     duration r = Some (estimateAudioDuration h once) /\
     exists audioBuffers,
       azureChunks w (azureRegion w) (azureKey w) mapped 0 (splitScript once 4000) []
       = Ok audioBuffers /\
       snd (generateAudio h w script options)
       = Some (finalBufferOf w mapped audioBuffers)).
Proof.
  intros h w script options config once twice r Hr. subst r.
  unfold generateAudio in *. fold config in Hr |- *. fold once in Hr |- *.
  destruct (tryProviders h w once (splitScript once 4000) config
              (getProviderFallbackOrder (provider config)) None)
    as [[[p synthesis] |] lastError] eqn:Htry; [| discriminate Hr].
  destruct (tryProviders_found _ _ _ _ _ _ _ _ _ _ Htry)
    as (pre & post & _ & _ & _ & Hgen).
  destruct (generateWithProvider_ok _ _ _ _ _ _ _ Hgen) as (_ & _ & Hprov & _).
  cbn [fst snd metadata chunks result_provider duration]. rewrite Hprov.
  split; [reflexivity |]. split; intros ->; cbv zeta.
  - unfold generateWithProvider in Hgen.
    change (jstring_eqb (lit "elevenlabs") (lit "elevenlabs")) with true in Hgen.
    cbv iota in Hgen.
    destruct (generateWithElevenLabs_ok _ _ _ _ _ _ Hgen)
      as (audioBuffers & Hloop & Hwritten & Hduration & _).
    split; [exact Hduration |]. exists audioBuffers.
    split; [exact Hloop | rewrite Hwritten; reflexivity].
  - unfold generateWithProvider in Hgen.
    change (jstring_eqb (lit "azure") (lit "elevenlabs")) with false in Hgen.
    change (jstring_eqb (lit "azure") (lit "azure")) with true in Hgen.
    cbv iota in Hgen.
    destruct (generateWithAzure_ok _ _ _ _ _ _ Hgen)
      as (audioBuffers & Hloop & Hwritten & Hduration).
    split; [exact Hduration |]. exists audioBuffers.
    split; [exact Hloop | rewrite Hwritten; reflexivity].
Qed.

Lemma generateAudio_provider_plans_witness :
  success (fst (generateAudio plainHelpers elevenlabsWorld twoLongSentences noOptions))
  = true /\
  chunks (metadata (fst (generateAudio plainHelpers elevenlabsWorld twoLongSentences
                           noOptions))) = Some 1%nat /\
  length (splitEnhancedScript twoLongSentences) = 2%nat.
Proof.
  assert (H : success (fst (generateAudio plainHelpers elevenlabsWorld twoLongSentences
                              noOptions)) = true) by (vm_compute; reflexivity).
  split; [exact H |]. split; [| vm_compute; reflexivity].
  rewrite (proj1 (generateAudio_provider_plans plainHelpers elevenlabsWorld
                    twoLongSentences noOptions H)).
  vm_compute. reflexivity.
Defined.

Section OneChunk.
Variable maxChunkLength : Z.

Lemma splitScript_fold_fits :
  forall sentences (chunks : list jstring) (cur : jstring),
    (Z.of_nat (length cur + list_sum (map (fun s => S (length s)) sentences))
     <= maxChunkLength + 1)%Z ->
    fold_left (splitScriptStep maxChunkLength) sentences (chunks, cur) =
    (chunks, cur ++ concat (map (fun s => lit " " ++ s) sentences)).
Proof.
  induction sentences as [| s sentences IH]; intros chunks cur Hfit.
  - cbn [fold_left map concat]. rewrite app_nil_r. reflexivity.
  - cbn [fold_left map concat]. unfold list_sum in Hfit. cbn [map fold_right] in Hfit.
    fold (list_sum (map (fun s => S (length s)) sentences)) in Hfit.
    unfold splitScriptStep at 2.
    replace (Z.of_nat (length (cur ++ s)) >? maxChunkLength)%Z with false
      by (symmetry; rewrite Z.gtb_ltb; apply Z.ltb_ge; rewrite length_app; lia).
    cbn [andb]. rewrite IH.
    + rewrite <- !app_assoc. reflexivity.
    + rewrite !length_app. change (length (lit " ")) with 1%nat. lia.
Qed.
End OneChunk.

(** X29. A script whose sentences, with one space before each, fit in
    [maxChunkLength + 1] characters is planned by [splitScript] as a single
    chunk: the sentences joined by single spaces, trimmed (the script itself
    when that is empty). *)
Theorem splitScript_single_chunk :
  forall script maxChunkLength,
    let sentences := sentencesOf script in
    (Z.of_nat (list_sum (map (fun s => S (length s)) sentences)) <= maxChunkLength + 1)%Z ->
    let joined := trim (concat (map (fun s => lit " " ++ s) sentences)) in
    splitScript script maxChunkLength = [if truthy joined then joined else script] /\
    length (splitScript script maxChunkLength) = 1%nat.
Proof.
  intros script maxChunkLength sentences Hfit joined.
  unfold splitScript. fold sentences.
  match goal with
  | |- context [fold_left ?f ?l ?a] =>
      rewrite (splitScript_fold_fits maxChunkLength sentences [] [] Hfit
               : fold_left f l a = _)
  end.
  cbn [app]. fold joined.
  destruct (truthy joined); split; reflexivity.
Qed.

Lemma splitScript_single_chunk_witness :
  splitScript (lit "Hello there. How are you?") 4000
  = [lit "Hello there.  How are you?"].
Proof.
  assert (Hfit : (Z.of_nat (list_sum (map (fun s => S (length s))
                             (sentencesOf (lit "Hello there. How are you?"))))
                  <= 4000 + 1)%Z) by (vm_compute; discriminate).
  rewrite (proj1 (splitScript_single_chunk (lit "Hello there. How are you?") 4000 Hfit)).
  reflexivity.
Defined.
